(** * sqlutil: SQL-backed leases (lease.go)

    A shallow embedding of the Lessor / Lease code of package [sqlutil]
    and of the library functions it calls, followed by the properties of
    acquisition, renewal, release and expiry-bound contexts. *)

From Stdlib Require Import ZArith NArith List String Ascii Bool Lia.
From Stdlib Require Import Strings.Byte.
From Stdlib Require Import DecimalString.
Import ListNotations.

Open Scope string_scope.
Open Scope Z_scope.

(** ** The Go libraries the package imports *)

(** [time.Time]: an instant, as a count of clock ticks.  [Before] and the
    SQL comparisons on timestamp columns are the order of [Z]. *)
Module time.
Definition Time := Z.
Definition Before (t u : Time) : bool := t <? u.
End time.

(** [github.com/pkg/errors]: an [error] interface value is [option error],
    [None] being [nil]. *)
Module errors.
Inductive error : Type :=
  | fundamental (msg : string)
  | withMessage (cause : error) (msg : string).

Definition New (msg : string) : option error := Some (fundamental msg).

(** [Wrap] returns nil when [err] is nil. *)
Definition Wrap (err : option error) (msg : string) : option error :=
  match err with
  | None => None
  | Some e => Some (withMessage e msg)
  end.
End errors.

(** [fmt.Sprintf], for the verb the package uses ([%s] with string
    operands).  Every format in lease.go is called with as many operands
    as it has verbs. *)
Module fmt.
Fixpoint Sprintf (format : string) (a : list string) : string :=
  match format with
  | EmptyString => EmptyString
  | String "%" (String "s" rest) =>
      match a with
      | x :: a' => x ++ Sprintf rest a'
      | [] => "%!s(MISSING)" ++ Sprintf rest []
      end
  | String c rest => String c (Sprintf rest a)
  end.
End fmt.

(** [encoding/hex]. *)
Module hex.
Definition hextable : string := "0123456789abcdef".

Definition digit (n : N) : ascii :=
  match String.get (N.to_nat n) hextable with
  | Some c => c
  | None => "0"%char
  end.

(** [dst[j] = hextable[v>>4]; dst[j+1] = hextable[v&0x0f]] *)
Fixpoint EncodeToString (src : list byte) : string :=
  match src with
  | [] => EmptyString
  | v :: rest =>
      String (digit (N.shiftr (Byte.to_N v) 4))
        (String (digit (N.land (Byte.to_N v) 15)) (EncodeToString rest))
  end.

Definition is_hex_char (c : ascii) : bool :=
  existsb (Ascii.eqb c) (list_ascii_of_string hextable).
End hex.

(** [context]: the part of the context tree that [WithDeadline] builds. *)
Module context.
Inductive Context : Type :=
  | Background
  | cancelCtx (parent : Context)
  | timerCtx (parent : Context) (deadline : time.Time).

(** [Deadline()]: a [cancelCtx] defers to its parent, a [timerCtx]
    answers with its own field. *)
Fixpoint Deadline (c : Context) : option time.Time :=
  match c with
  | Background => None
  | cancelCtx p => Deadline p
  | timerCtx _ d => Some d
  end.

Definition parent_of (c : Context) : option Context :=
  match c with
  | Background => None
  | cancelCtx p => Some p
  | timerCtx p _ => Some p
  end.

(** A [CancelFunc] is the closure that cancels the context it was
    returned with. *)
Record CancelFunc : Type := mkCancel { cancels : Context }.

Definition WithCancel (parent : Context) : Context * CancelFunc :=
  let c := cancelCtx parent in (c, mkCancel c).

(** [if cur, ok := parent.Deadline(); ok && cur.Before(d)
     { return WithCancel(parent) }]
    and otherwise a [timerCtx] carrying [d]. *)
Definition WithDeadline (parent : Context) (d : time.Time)
  : Context * CancelFunc :=
  match Deadline parent with
  | Some cur =>
      if time.Before cur d then WithCancel parent
      else let c := timerCtx parent d in (c, mkCancel c)
  | None => let c := timerCtx parent d in (c, mkCancel c)
  end.
End context.

(** [database/sql]: statement operands and results. *)
Module sql.
(** The [interface{}] operands the package passes: strings and times. *)
Inductive value : Type :=
  | VString (s : string)
  | VTime (t : time.Time).

(** [sql.Result]; [RowsAffected() (int64, error)]. *)
Record Result : Type := mkResult { RowsAffected : Z * option errors.error }.
End sql.

(** ** sql.go: the capability interfaces *)

(** [ExecerContext]: one method, run against the state [St] of whatever
    stands behind the handle.  It returns the [(sql.Result, error)] pair;
    the result is an interface value and can be nil. *)
Record ExecerContext (St : Type) : Type := mkExecer {
  ExecContext :
    context.Context -> string -> list sql.value -> St ->
    St * (option sql.Result * option errors.error)
}.
Arguments mkExecer {St} _.
Arguments ExecContext {St} _ _ _ _ _.

(** ** lease.go: data *)

(** A [*Lessor]: an address in the process's heap of Lessor objects.  An
    address outside the heap is a nil pointer. *)
Definition ptr := nat.

Module Lessor.
Record t (St : Type) : Type := mk {
  db : option (ExecerContext St);
  Table : string;
  Name : string;
  Exp : string;
  Key : string
}.
Arguments mk {St} _ _ _ _ _.
Arguments db {St} _.
Arguments Table {St} _.
Arguments Name {St} _.
Arguments Exp {St} _.
Arguments Key {St} _.
End Lessor.

Module Lease.
Record t : Type := mk {
  Lessor : ptr;
  Name : string;
  Exp : time.Time;
  Key : string
}.
End Lease.

Definition defaultTable : string := "leases".
Definition defaultName : string := "name".
Definition defaultExp : string := "exp".
Definition defaultKey : string := "key".

(** ** The world the package runs in *)

Section Core.
Context {St : Type}.

(** One statement handed to the execution capability. *)
Record Call : Type := mkCall {
  call_ctx : context.Context;
  call_query : string;
  call_args : list sql.value
}.

(** What one process can touch: its Lessor objects, the store behind the
    capability, the clock [time.Now] reads, the outcomes of successive
    [rand.Reader.Read] calls (bytes delivered, error), and the history of
    statements sent to the store. *)
Record World : Type := mkWorld {
  lessors : list (Lessor.t St);
  store : St;
  clock : time.Time;
  entropy : nat -> list byte * option errors.error;
  drawn : nat;
  sent : list Call
}.

(** A computation either panics (nil dereference) or returns a value and
    the world it leaves. *)
Inductive outcome (A : Type) : Type :=
  | Panic
  | Done (a : A) (w : World).
Arguments Panic {A}.
Arguments Done {A} a w.

Definition M (A : Type) : Type := World -> outcome A.

Definition ret {A : Type} (a : A) : M A := fun w => Done a w.

Definition bind {A B : Type} (m : M A) (k : A -> M B) : M B :=
  fun w =>
    match m w with
    | Panic => Panic
    | Done a w' => k a w'
    end.

End Core.

Arguments World St : clear implicits.
Arguments Panic {St A}.
Arguments Done {St A} a w.
Arguments M St A : clear implicits.
Arguments outcome St A : clear implicits.

Declare Scope go_scope.
Delimit Scope go_scope with go.
Notation "x <- c ;; k" := (bind c (fun x => k))
  (at level 100, c at next level, right associativity) : go_scope.
Open Scope go_scope.

Section Operations.
Context {St : Type}.

(** [*l]: reading through a Lessor pointer. *)
Definition deref (l : ptr) : M St (Lessor.t St) :=
  fun w =>
    match nth_error (lessors w) l with
    | Some v => Done v w
    | None => Panic
    end.

(** [time.Now()] *)
Definition time_Now : M St time.Time := fun w => Done (clock w) w.

(** [var key [16]byte; _, err = rand.Reader.Read(key[:])]: the bytes
    delivered overwrite a prefix of the zeroed array. *)
Definition fill16 (data : list byte) : list byte :=
  firstn 16 (data ++ repeat x00 16)%list.

Definition consume_entropy (w : World St) : World St :=
  mkWorld (lessors w) (store w) (clock w) (entropy w) (1 + drawn w)%nat
          (sent w).

Definition rand_Read : M St (list byte * option errors.error) :=
  fun w =>
    let '(data, err) := entropy w (drawn w) in
    Done (fill16 data, err) (consume_entropy w).

(** The world after the store answered a statement: the store's new state
    and one more entry in the history. *)
Definition record_call (c : Call) (s' : St) (w : World St) : World St :=
  mkWorld (lessors w) s' (clock w) (entropy w) (drawn w) (sent w ++ [c])%list.

(** [l.db.ExecContext(ctx, query, args...)] *)
Definition execContext (l : ptr) (ctx : context.Context) (query : string)
    (args : list sql.value)
  : M St (option sql.Result * option errors.error) :=
  v <- deref l ;;
  fun w =>
    match Lessor.db v with
    | None => Panic
    | Some d =>
        let '(s', r) := ExecContext d ctx query args (store w) in
        Done r (record_call (mkCall ctx query args) s' w)
    end.

(** [NewLessor] allocates a Lessor holding only the capability. *)
Definition NewLessor (d : option (ExecerContext St)) : M St ptr :=
  fun w =>
    Done (List.length (lessors w))
      (mkWorld (lessors w ++ [Lessor.mk d "" "" "" ""])%list (store w) (clock w)
               (entropy w) (drawn w) (sent w)).

Definition tableName (l : ptr) : M St string :=
  v <- deref l ;;
  if (Lessor.Table v =? "")%string then ret defaultTable
  else ret (Lessor.Table v).

Definition nameName (l : ptr) : M St string :=
  v <- deref l ;;
  if (Lessor.Name v =? "")%string then ret defaultName
  else ret (Lessor.Name v).

Definition expName (l : ptr) : M St string :=
  v <- deref l ;;
  if (Lessor.Exp v =? "")%string then ret defaultExp
  else ret (Lessor.Exp v).

Definition keyName (l : ptr) : M St string :=
  v <- deref l ;;
  if (Lessor.Key v =? "")%string then ret defaultKey
  else ret (Lessor.Key v).

(** The statement formats; [delStaleQFmt] is the [delQFmt] of [Acquire],
    [delQFmt] the one of [Release]. *)
Definition delStaleQFmt : string := "DELETE FROM %s WHERE %s < $1".
Definition insQFmt : string := "INSERT INTO %s (%s, %s, %s) VALUES ($1, $2, $3)".
Definition updQFmt : string :=
  "UPDATE %s SET %s = $1 WHERE %s = $2 AND %s = $3 AND %s > $4".
Definition delQFmt : string := "DELETE FROM %s WHERE %s = $1 AND %s = $2".

(** [Lessor.Acquire] *)
Definition Acquire (l : ptr) (ctx : context.Context) (name : string)
    (exp : time.Time) : M St (option Lease.t * option errors.error) :=
  tn <- tableName l ;;
  en <- expName l ;;
  let delQ := fmt.Sprintf delStaleQFmt [tn; en] in
  now <- time_Now ;;
  r <- execContext l ctx delQ [sql.VTime now] ;;
  match snd r with
  | Some err => ret (None, errors.Wrap (Some err) "deleting stale leases")
  | None =>
      k <- rand_Read ;;
      match snd k with
      | Some err => ret (None, errors.Wrap (Some err) "computing key")
      | None =>
          let keyHex := hex.EncodeToString (fst k) in
          tn <- tableName l ;;
          nn <- nameName l ;;
          en <- expName l ;;
          kn <- keyName l ;;
          let insQ := fmt.Sprintf insQFmt [tn; nn; en; kn] in
          r <- execContext l ctx insQ
                 [sql.VString name; sql.VTime exp; sql.VString keyHex] ;;
          ret (Some (Lease.mk l name exp keyHex),
               errors.Wrap (snd r) "inserting into database")
      end
  end.

(** [Lease.Renew] *)
Definition Renew (l : Lease.t) (ctx : context.Context) (exp : time.Time)
  : M St (option errors.error) :=
  tn <- tableName (Lease.Lessor l) ;;
  en <- expName (Lease.Lessor l) ;;
  nn <- nameName (Lease.Lessor l) ;;
  kn <- keyName (Lease.Lessor l) ;;
  en' <- expName (Lease.Lessor l) ;;
  let updQ := fmt.Sprintf updQFmt [tn; en; nn; kn; en'] in
  now <- time_Now ;;
  r <- execContext (Lease.Lessor l) ctx updQ
         [sql.VTime exp; sql.VString (Lease.Name l);
          sql.VString (Lease.Key l); sql.VTime now] ;;
  match snd r with
  | Some err => ret (errors.Wrap (Some err) "updating database")
  | None =>
      match fst r with
      | None => fun _ => Panic
      | Some res =>
          let '(aff, err) := sql.RowsAffected res in
          match err with
          | Some e => ret (errors.Wrap (Some e) "counting affected rows")
          | None =>
              if aff =? 0 then ret (errors.New "could not renew")
              else ret None
          end
      end
  end.

(** [Lease.Release] *)
Definition Release (l : Lease.t) (ctx : context.Context)
  : M St (option errors.error) :=
  tn <- tableName (Lease.Lessor l) ;;
  nn <- nameName (Lease.Lessor l) ;;
  kn <- keyName (Lease.Lessor l) ;;
  let delQ := fmt.Sprintf delQFmt [tn; nn; kn] in
  r <- execContext (Lease.Lessor l) ctx delQ
         [sql.VString (Lease.Name l); sql.VString (Lease.Key l)] ;;
  ret (errors.Wrap (snd r) "deleting from database").

(** [Lease.Context] *)
Definition Context (l : Lease.t) (ctx : context.Context)
  : M St (context.Context * context.CancelFunc) :=
  ret (context.WithDeadline ctx (Lease.Exp l)).

End Operations.

(** ** Two actors on one store

    The store executes one statement at a time; a call to [Acquire] makes
    two round trips, and another process's statements can reach the store
    between them.  Each actor is a process of its own (Lessors, clock,
    random source); the store is shared. *)

Section Actors.
Context {St : Type}.

(** The first round trip of [Acquire]: the stale sweep. *)
Definition acquire_sweep (l : ptr) (ctx : context.Context)
  : M St (option errors.error) :=
  tn <- tableName l ;;
  en <- expName l ;;
  let delQ := fmt.Sprintf delStaleQFmt [tn; en] in
  now <- time_Now ;;
  r <- execContext l ctx delQ [sql.VTime now] ;;
  ret (snd r).

(** The rest of [Acquire]: the key and the second round trip. *)
Definition acquire_insert (l : ptr) (ctx : context.Context) (name : string)
    (exp : time.Time) : M St (option Lease.t * option errors.error) :=
  k <- rand_Read ;;
  match snd k with
  | Some err => ret (None, errors.Wrap (Some err) "computing key")
  | None =>
      let keyHex := hex.EncodeToString (fst k) in
      tn <- tableName l ;;
      nn <- nameName l ;;
      en <- expName l ;;
      kn <- keyName l ;;
      let insQ := fmt.Sprintf insQFmt [tn; nn; en; kn] in
      r <- execContext l ctx insQ
             [sql.VString name; sql.VTime exp; sql.VString keyHex] ;;
      ret (Some (Lease.mk l name exp keyHex),
           errors.Wrap (snd r) "inserting into database")
  end.

Inductive stage : Type :=
  | Sweeping
  | Inserting
  | Returned (res : option Lease.t * option errors.error)
  | Panicked.

(** A call [a_lessor.Acquire(a_ctx, a_name, a_exp)] in progress in the
    process [a_world]. *)
Record actor : Type := mkActor {
  a_lessor : ptr;
  a_ctx : context.Context;
  a_name : string;
  a_exp : time.Time;
  a_world : World St;
  a_stage : stage
}.

Definition with_store (s : St) (w : World St) : World St :=
  mkWorld (lessors w) s (clock w) (entropy w) (drawn w) (sent w).

Definition at_stage (a : actor) (w : World St) (g : stage) : actor :=
  mkActor (a_lessor a) (a_ctx a) (a_name a) (a_exp a) w g.

(** One round trip of the actor against the shared store [s]. *)
Definition step (a : actor) (s : St) : actor * St :=
  match a_stage a with
  | Sweeping =>
      match acquire_sweep (a_lessor a) (a_ctx a) (with_store s (a_world a)) with
      | Panic => (at_stage a (a_world a) Panicked, s)
      | Done (Some e) w' =>
          (at_stage a w'
             (Returned (None, errors.Wrap (Some e) "deleting stale leases")),
           store w')
      | Done None w' => (at_stage a w' Inserting, store w')
      end
  | Inserting =>
      match acquire_insert (a_lessor a) (a_ctx a) (a_name a) (a_exp a)
                           (with_store s (a_world a)) with
      | Panic => (at_stage a (a_world a) Panicked, s)
      | Done res w' => (at_stage a w' (Returned res), store w')
      end
  | Returned _ => (a, s)
  | Panicked => (a, s)
  end.

Inductive turn : Type := First | Second.

Record system : Type := mkSystem {
  actor1 : actor;
  actor2 : actor;
  shared : St
}.

Definition move (t : turn) (y : system) : system :=
  match t with
  | First =>
      let '(a, s) := step (actor1 y) (shared y) in mkSystem a (actor2 y) s
  | Second =>
      let '(a, s) := step (actor2 y) (shared y) in mkSystem (actor1 y) a s
  end.

(** The system after the turns of a schedule, in order. *)
Fixpoint run (sched : list turn) (y : system) : system :=
  match sched with
  | [] => y
  | t :: rest => run rest (move t y)
  end.

Definition turns_of (t : turn) (sched : list turn) : nat :=
  List.length (filter (fun u => match t, u with
                                | First, First | Second, Second => true
                                | _, _ => false
                                end) sched).

(** The actor returned, and with a nil error. *)
Definition succeeded (a : actor) : Prop :=
  exists lease, a_stage a = Returned (lease, None).

(** The actor returned, and with an error. *)
Definition failed (a : actor) : Prop :=
  exists lease e, a_stage a = Returned (lease, Some e).

End Actors.

Arguments actor St : clear implicits.
Arguments system St : clear implicits.

(** ** The statements an operation sends *)

Section Statements.
Context {St : Type}.
Implicit Types (w : World St) (v : Lessor.t St) (d : ExecerContext St).

(** The names a Lessor resolves to. *)
Definition tableOf v : string :=
  if (Lessor.Table v =? "")%string then defaultTable else Lessor.Table v.
Definition nameOf v : string :=
  if (Lessor.Name v =? "")%string then defaultName else Lessor.Name v.
Definition expOf v : string :=
  if (Lessor.Exp v =? "")%string then defaultExp else Lessor.Exp v.
Definition keyOf v : string :=
  if (Lessor.Key v =? "")%string then defaultKey else Lessor.Key v.

(** The four statements as the operations format them. *)
Definition sweepQ v : string := fmt.Sprintf delStaleQFmt [tableOf v; expOf v].
Definition insertQ v : string :=
  fmt.Sprintf insQFmt [tableOf v; nameOf v; expOf v; keyOf v].
Definition updateQ v : string :=
  fmt.Sprintf updQFmt [tableOf v; expOf v; nameOf v; keyOf v; expOf v].
Definition deleteQ v : string :=
  fmt.Sprintf delQFmt [tableOf v; nameOf v; keyOf v].

Definition insertArgs (name : string) (exp : time.Time) (keyHex : string)
  : list sql.value :=
  [sql.VString name; sql.VTime exp; sql.VString keyHex].
Definition updateArgs (l : Lease.t) (exp now : time.Time) : list sql.value :=
  [sql.VTime exp; sql.VString (Lease.Name l); sql.VString (Lease.Key l);
   sql.VTime now].
Definition deleteArgs (l : Lease.t) : list sql.value :=
  [sql.VString (Lease.Name l); sql.VString (Lease.Key l)].

(** The key [Acquire] would draw in world [w]. *)
Definition next_key w : string :=
  hex.EncodeToString (fill16 (fst (entropy w (drawn w)))).

End Statements.

(** ** The [*Lease] receiver *)


(** ** The reference store

    The relational store the package is written against: one table of
    [(name, exp, key)] rows under configurable table and column names,
    optionally with the unique index on the name column that the Lessor
    documentation requires.  It executes the four statements lease.go
    issues and rejects everything else. *)
Module refstore.

Record Row : Type := mkRow {
  name : string;
  exp : time.Time;
  key : string
}.

Record t : Type := mk {
  tbl : string;
  name_col : string;
  exp_col : string;
  key_col : string;
  unique_name : bool;
  rows : list Row
}.

Definition with_rows (d : t) (rs : list Row) : t :=
  mk (tbl d) (name_col d) (exp_col d) (key_col d) (unique_name d) rs.

Definition sweep_text (d : t) : string :=
  "DELETE FROM " ++ tbl d ++ " WHERE " ++ exp_col d ++ " < $1".

Definition insert_text (d : t) : string :=
  "INSERT INTO " ++ tbl d ++ " (" ++ name_col d ++ ", " ++ exp_col d ++ ", "
    ++ key_col d ++ ") VALUES ($1, $2, $3)".

Definition update_text (d : t) : string :=
  "UPDATE " ++ tbl d ++ " SET " ++ exp_col d ++ " = $1 WHERE " ++ name_col d
    ++ " = $2 AND " ++ key_col d ++ " = $3 AND " ++ exp_col d ++ " > $4".

Definition delete_text (d : t) : string :=
  "DELETE FROM " ++ tbl d ++ " WHERE " ++ name_col d ++ " = $1 AND "
    ++ key_col d ++ " = $2".

(** [exp < $1] *)
Definition stale (now : time.Time) (r : Row) : bool := exp r <? now.

(** [name = $2 AND key = $3 AND exp > $4] *)
Definition renewable (n k : string) (now : time.Time) (r : Row) : bool :=
  (name r =? n)%string && (key r =? k)%string && (exp r >? now).

(** [name = $1 AND key = $2] *)
Definition held_by (n k : string) (r : Row) : bool :=
  (name r =? n)%string && (key r =? k)%string.

Definition named (n : string) (r : Row) : bool := (name r =? n)%string.

Definition count (p : Row -> bool) (rs : list Row) : Z :=
  Z.of_nat (List.length (filter p rs)).

Definition ok (n : Z) : option sql.Result * option errors.error :=
  (Some (sql.mkResult (n, None)), None).

Definition fail (msg : string) : option sql.Result * option errors.error :=
  (None, Some (errors.fundamental msg)).

(** The four statements on the rows. *)
Definition sweep (now : time.Time) (rs : list Row) : list Row :=
  filter (fun r => negb (stale now r)) rs.

Definition insert (n : string) (e : time.Time) (k : string) (rs : list Row)
  : list Row :=
  (rs ++ [mkRow n e k])%list.

Definition renew (e : time.Time) (n k : string) (now : time.Time)
    (rs : list Row) : list Row :=
  map (fun r => if renewable n k now r then mkRow (name r) e (key r) else r)
      rs.

Definition release (n k : string) (rs : list Row) : list Row :=
  filter (fun r => negb (held_by n k r)) rs.

Definition exec (ctx : context.Context) (q : string) (args : list sql.value)
    (d : t) : t * (option sql.Result * option errors.error) :=
  match args with
  | [sql.VTime now] =>
      if (q =? sweep_text d)%string then
        (with_rows d (sweep now (rows d)), ok (count (stale now) (rows d)))
      else (d, fail "syntax error")
  | [sql.VString n; sql.VTime e; sql.VString k] =>
      if (q =? insert_text d)%string then
        if unique_name d && existsb (named n) (rows d) then
          (d, fail "UNIQUE constraint failed")
        else (with_rows d (insert n e k (rows d)), ok 1)
      else (d, fail "syntax error")
  | [sql.VTime e; sql.VString n; sql.VString k; sql.VTime now] =>
      if (q =? update_text d)%string then
        (with_rows d (renew e n k now (rows d)),
         ok (count (renewable n k now) (rows d)))
      else (d, fail "syntax error")
  | [sql.VString n; sql.VString k] =>
      if (q =? delete_text d)%string then
        (with_rows d (release n k (rows d)),
         ok (count (held_by n k) (rows d)))
      else (d, fail "syntax error")
  | _ => (d, fail "syntax error")
  end.

Definition driver : ExecerContext t := mkExecer exec.

End refstore.

(** A Lessor is bound to a store when the names it resolves to are the
    store's table and columns. *)
Definition bound (v : Lessor.t refstore.t) (d : refstore.t) : Prop :=
  tableOf v = refstore.tbl d /\ nameOf v = refstore.name_col d /\
  expOf v = refstore.exp_col d /\ keyOf v = refstore.key_col d.

(** ** Capabilities and worlds used as examples *)

(** A capability whose every statement fails. *)
Definition unreachable : ExecerContext unit :=
  mkExecer (fun _ _ _ s =>
              (s, (None, Some (errors.fundamental "connection refused")))).

(** A capability that accepts every statement and reports [aff] rows. *)
Definition reporting (aff : Z) : ExecerContext unit :=
  mkExecer (fun _ _ _ s => (s, (Some (sql.mkResult (aff, None)), None))).

Definition no_entropy_error (n : nat) : list byte * option errors.error :=
  ([x01; x23; x45; x67; x89; xab; xcd; xef;
    x10; x32; x54; x76; x98; xba; xdc; xfe], None).

Definition stub_world (d : ExecerContext unit) : World unit :=
  mkWorld [Lessor.mk (Some d) "" "" "" ""] tt 10 no_entropy_error 0 [].

(** A store with the default names and the unique index, holding [rs]. *)
Definition leases_table (rs : list refstore.Row) : refstore.t :=
  refstore.mk "leases" "name" "exp" "key" true rs.

(** A process at time [now] with one zero-configured Lessor on that store. *)
Definition lease_world (now : time.Time) (rs : list refstore.Row)
  : World refstore.t :=
  mkWorld [Lessor.mk (Some refstore.driver) "" "" "" ""] (leases_table rs)
          now no_entropy_error 0 [].

(** The same process at a later reading of the clock. *)
Definition at_time {St : Type} (now : time.Time) (w : World St) : World St :=
  mkWorld (lessors w) (store w) now (entropy w) (drawn w) (sent w).

(** ** Reading a key back

    The inverse of [hex.EncodeToString] on the digits it writes: the value
    of a digit, the byte of two digits, the bytes of a key. *)
Definition digit_value (c : ascii) : N :=
  match find (fun i => Ascii.eqb (hex.digit (N.of_nat i)) c) (seq 0 16) with
  | Some i => N.of_nat i
  | None => 0%N
  end.

Definition byte_of_digits (hi lo : ascii) : byte :=
  match Byte.of_N (16 * digit_value hi + digit_value lo) with
  | Some b => b
  | None => x00
  end.

Fixpoint key_bytes (s : string) : list byte :=
  match s with
  | String hi (String lo rest) => byte_of_digits hi lo :: key_bytes rest
  | _ => []
  end.

(** ** context.go: a DB handle carried by a context *)

Module ctxval.

(** A context key is an interface value: two keys are equal when their
    dynamic types and their values are. *)
Record key : Type := mkKey { key_type : string; key_value : string }.

Definition key_eqb (a b : key) : bool :=
  (key_type a =? key_type b)%string && (key_value a =? key_value b)%string.

Section WithHandles.
(** [D]: the values that implement the [DB] interface. *)
Context {D : Type}.

(** A non-nil value stored in a context: one that implements [DB], or one
    of a type that does not. *)
Inductive any : Type :=
  | aDB (d : D)
  | aOther (s : string).

(** The context tree, now with the nodes [WithValue] builds.  A stored
    value is an interface value and can be nil. *)
Inductive Context : Type :=
  | Background
  | cancelCtx (parent : Context)
  | timerCtx (parent : Context) (deadline : time.Time)
  | valueCtx (parent : Context) (k : key) (val : option any).

Fixpoint Deadline (c : Context) : option time.Time :=
  match c with
  | Background => None
  | cancelCtx p => Deadline p
  | timerCtx _ d => Some d
  | valueCtx p _ _ => Deadline p
  end.

(** [Value(key)]: the nearest node that carries the key answers. *)
Fixpoint Value (c : Context) (k : key) : option any :=
  match c with
  | Background => None
  | cancelCtx p => Value p k
  | timerCtx p _ => Value p k
  | valueCtx p k' v => if key_eqb k' k then v else Value p k
  end.

Definition WithCancel (parent : Context) : Context := cancelCtx parent.

Definition WithDeadline (parent : Context) (d : time.Time) : Context :=
  match Deadline parent with
  | Some cur => if time.Before cur d then WithCancel parent
                else timerCtx parent d
  | None => timerCtx parent d
  end.

Definition WithValue (parent : Context) (k : key) (val : option any)
  : Context :=
  valueCtx parent k val.

(** The contexts of the [context] module are the ones with no value. *)
Fixpoint of_plain (c : context.Context) : Context :=
  match c with
  | context.Background => Background
  | context.cancelCtx p => cancelCtx (of_plain p)
  | context.timerCtx p d => timerCtx (of_plain p) d
  end.

(** [var ctxkey = ctxkeytype("db")]: a key of the package's own type. *)
Definition ctxkey : key := mkKey "sqlutil.ctxkeytype" "db".

(** [WithDB]; [db] is an interface value and can be nil. *)
Definition WithDB (ctx : Context) (db : option D) : Context :=
  WithValue ctx ctxkey (option_map aDB db).

(** [GetDB]: [ctx.Value(ctxkey).(DB)].  [None] is the panic of the type
    assertion, on nil and on a value that does not implement [DB]. *)
Definition GetDB (ctx : Context) : option D :=
  match Value ctx ctxkey with
  | Some (aDB d) => Some d
  | Some (aOther _) => None
  | None => None
  end.

(** One derivation of a child context, by someone else's code. *)
Inductive derivation : Type :=
  | byCancel
  | byDeadline (d : time.Time)
  | byValue (k : key) (val : option any).

Definition derive (c : Context) (s : derivation) : Context :=
  match s with
  | byCancel => WithCancel c
  | byDeadline d => WithDeadline c d
  | byValue k v => WithValue c k v
  end.

(** The derivation does not store under the package's key. *)
Definition foreign (s : derivation) : bool :=
  match s with
  | byValue k _ => negb (key_eqb k ctxkey)
  | _ => true
  end.

End WithHandles.

Arguments any D : clear implicits.
Arguments Context D : clear implicits.
Arguments derivation D : clear implicits.

End ctxval.

(** ** query.go: rows and callbacks *)

(** [%d] of a length. *)
Definition itoa (n : nat) : string := NilZero.string_of_uint (Nat.to_uint n).

(** [database/sql.Rows]: the cursor over one result set.  [feed] are the
    rows the driver has still to deliver and [failure] the error with
    which it ends the set, if it does not end it with [io.EOF]; [lastcols]
    is the row [Next] delivered last, [lasterr] the driver error [Next]
    met ([io.EOF] is not kept). *)
Module rows.

Record t : Type := mk {
  feed : list (list sql.value);
  failure : option errors.error;
  lastcols : option (list sql.value);
  lasterr : option errors.error;
  closed : bool
}.

(** The cursor [database/sql] hands out for a result set. *)
Definition fresh (rs : list (list sql.value)) (f : option errors.error) : t :=
  mk rs f None None false.

Definition Close (r : t) : t :=
  mk (feed r) (failure r) (lastcols r) (lasterr r) true.

(** [Next]: false on a closed cursor; at the end of the set, or on a driver
    error, it records the error and closes the cursor. *)
Definition Next (r : t) : bool * t :=
  if closed r then (false, r)
  else match feed r with
       | row :: rest => (true, mk rest (failure r) (Some row) None false)
       | [] => (false, mk [] (failure r) (lastcols r) (failure r) true)
       end.

Definition Err (r : t) : option errors.error := lasterr r.

Definition errRowsClosed : errors.error :=
  errors.fundamental "sql: Rows are closed".

Definition errNoNext : errors.error :=
  errors.fundamental "sql: Scan called without calling Next".

Definition errArity (cols dest : nat) : errors.error :=
  errors.fundamental
    ("sql: expected " ++ itoa cols ++ " destination arguments in Scan, not "
       ++ itoa dest).

Section Scanning.
(** [typ]: the types destinations can have; [val]: their values.
    [convertAssign i t v] is the value stored in a destination of type [t]
    for column [i] holding [v], or the error [Scan] reports for it. *)
Context {typ val : Type}.
Variable convertAssign : nat -> typ -> sql.value -> val + errors.error.

(** What a destination pointer points to. *)
Record slot : Type := mkSlot { slot_type : typ; slot_val : val }.

(** Column after column; the destinations before a failing column keep
    what was stored in them. *)
Fixpoint assign (i : nat) (dest : list slot) (cols : list sql.value)
  : list slot * option errors.error :=
  match dest, cols with
  | s :: dest', c :: cols' =>
      match convertAssign i (slot_type s) c with
      | inl x =>
          let '(rest, err) := assign (S i) dest' cols' in
          (mkSlot (slot_type s) x :: rest, err)
      | inr e => (s :: dest', Some e)
      end
  | _, _ => (dest, None)
  end.

Definition Scan (r : t) (dest : list slot)
  : list slot * option errors.error :=
  match lasterr r with
  | Some e => (dest, Some e)
  | None =>
      if closed r then (dest, Some errRowsClosed)
      else match lastcols r with
           | None => (dest, Some errNoNext)
           | Some cols =>
               if (List.length dest =? List.length cols)%nat
               then assign 0 dest cols
               else (dest, Some (errArity (List.length cols)
                                          (List.length dest)))
           end
  end.

End Scanning.

End rows.

(** [sql.ErrNoRows] *)
Definition sql_ErrNoRows : errors.error :=
  errors.fundamental "sql: no rows in result set".

(** [fmt.Errorf] of a format without verbs: an error that is its text. *)
Definition fmt_Errorf (text : string) : option errors.error :=
  Some (errors.fundamental text).

Module query.

(** What a query answers with: a result set, for which [database/sql]
    makes a fresh cursor. *)
Record resultset : Type := mkResultset {
  rs_rows : list (list sql.value);
  rs_failure : option errors.error
}.

(** An [interface{}] passed on as a query operand. *)
Inductive operand : Type :=
  | opNil
  | opValue (v : sql.value)
  | opFunc.

(** [QueryerContext], by the method the package calls. *)
Record QueryerContext (D : Type) : Type := mkQueryer {
  QueryContext :
    context.Context -> string -> list operand -> D ->
    D * (option resultset * option errors.error)
}.
Arguments mkQueryer {D} _.
Arguments QueryContext {D} _ _ _ _ _.

Record Query : Type := mkQuery {
  query_ctx : context.Context;
  query_text : string;
  query_args : list operand
}.

(** A [*sql.Rows]: an address in the heap of cursors. *)
Definition rptr := nat.

(** [ErrMultipleRows] *)
Definition ErrMultipleRows : errors.error := errors.fundamental "multiple rows".

(** [Row] *)
Record Row : Type := mkRow {
  row_rows : option rptr;
  row_err : option errors.error
}.

(** The type of a callback's single result, as the reflection reads it:
    a type that implements [error] and has a nil value (an interface, a
    pointer), one that implements [error] and has none (a struct), or a
    type that does not implement [error]. *)
Inductive result_type : Type :=
  | ErrorNillable
  | ErrorValue
  | NotError.

Definition implements_error (t : result_type) : bool :=
  match t with
  | NotError => false
  | _ => true
  end.

Section Queries.
(** [D]: the state behind the query capability; [U]: the state the
    callback closes over; [typ], [val], [convertAssign] as for [rows.Scan];
    [zero t] is the zero value [reflect.New] allocates. *)
Context {D U typ val : Type}.
Variable convertAssign : nat -> typ -> sql.value -> val + errors.error.
Variable zero : typ -> val.

(** What the query code works on: the connection, the cursors that
    were handed out, the callback's variables, the queries sent. *)
Record session : Type := mkSession {
  conn : D;
  cursors : list rows.t;
  user : U;
  asked : list Query
}.

(** A function value as [reflect] shows it: parameter types, result
    types, and the body (a nil function has none).  The body's error is
    the value of its single result. *)
Record func : Type := mkFunc {
  fn_in : list typ;
  fn_out : list result_type;
  fn_body : option (list val -> U -> U * option errors.error)
}.

(** [fnType.NumOut() == 1 && !fnType.Out(0).Implements(errorInterface)] *)
Definition result_is_not_error (f : func) : bool :=
  match fn_out f with
  | [t] => negb (implements_error t)
  | _ => false
  end.

(** An [interface{}] argument. *)
Inductive arg : Type :=
  | aNil
  | aValue (v : sql.value)
  | aFunc (f : func).

Definition operand_of (a : arg) : operand :=
  match a with
  | aNil => opNil
  | aValue v => opValue v
  | aFunc _ => opFunc
  end.

Definition Q (A : Type) : Type := M session A.

Definition set_nth {A : Type} (n : nat) (x : A) (l : list A) : list A :=
  (firstn n l ++ x :: skipn (S n) l)%list.

(** The world in which the cursor at [p] has become [r']. *)
Definition put_cursor (p : rptr) (r' : rows.t) (w : World session)
  : World session :=
  with_store
    (mkSession (conn (store w)) (set_nth p r' (cursors (store w)))
               (user (store w)) (asked (store w))) w.

(** A method call through a [*sql.Rows]. *)
Definition with_cursor {A : Type} (p : rptr) (f : rows.t -> A * rows.t)
  : Q A :=
  fun w =>
    match nth_error (cursors (store w)) p with
    | None => Panic
    | Some r => let '(a, r') := f r in Done a (put_cursor p r' w)
    end.

Definition rows_Next (p : rptr) : Q bool := with_cursor p rows.Next.

Definition rows_Err (p : rptr) : Q (option errors.error) :=
  with_cursor p (fun r => (rows.Err r, r)).

Definition rows_Close (p : rptr) : Q unit :=
  with_cursor p (fun r => (tt, rows.Close r)).

Definition rows_Scan (p : rptr) (dest : list (rows.slot (typ := typ) (val := val)))
  : Q (list rows.slot * option errors.error) :=
  with_cursor p (fun r => (rows.Scan convertAssign r dest, r)).

(** [db.QueryContext(ctx, query, args...)]: the query is recorded, and a
    result set comes back as a new cursor. *)
Definition queryContext (db : option (QueryerContext D))
    (ctx : context.Context) (query : string) (args : list operand)
  : Q (option rptr * option errors.error) :=
  fun w =>
    match db with
    | None => Panic
    | Some d =>
        let '(c', (res, err)) := QueryContext d ctx query args (conn (store w)) in
        let log := (asked (store w) ++ [mkQuery ctx query args])%list in
        match res with
        | Some rs =>
            Done (Some (List.length (cursors (store w))), err)
              (with_store
                 (mkSession c'
                    (cursors (store w)
                       ++ [rows.fresh (rs_rows rs) (rs_failure rs)])%list
                    (user (store w)) log) w)
        | None =>
            Done (None, err)
              (with_store
                 (mkSession c' (cursors (store w)) (user (store w)) log) w)
        end
    end.

(** [defer cleanup]: the cleanup runs once the body has its result. *)
Definition deferring {A : Type} (cleanup : Q unit) (body : Q A) : Q A :=
  a <- body ;; bind cleanup (fun _ => ret a).

(** [fnVal.Call(fnArgs)] *)
Definition call (f : func) (args : list val) : Q (option errors.error) :=
  fun w =>
    match fn_body f with
    | None => Panic
    | Some body =>
        let '(u', res) := body args (user (store w)) in
        Done res
          (with_store
             (mkSession (conn (store w)) (cursors (store w)) u'
                        (asked (store w))) w)
    end.

(** The [for rows.Next()] loop of [ForQueryRows].  [fuel] bounds the
    iterations; one more than the rows still to deliver is enough. *)
Fixpoint forRows (fuel : nat) (p : rptr) (f : func)
  : Q (option errors.error) :=
  match fuel with
  | O => fun _ => Panic
  | S fuel' =>
      more <- rows_Next p ;;
      if more : bool then
        s <- rows_Scan p (map (fun t => rows.mkSlot t (zero t)) (fn_in f)) ;;
        match snd s with
        | Some err => ret (Some err)
        | None =>
            res <- call f (map rows.slot_val (fst s)) ;;
            match fn_out f with
            | [ErrorNillable] =>
                match res with
                | Some e => ret (Some e)
                | None => forRows fuel' p f
                end
            | [ErrorValue] => fun _ => Panic
            | _ => forRows fuel' p f
            end
        end
      else rows_Err p
  end.

(** The rows the cursor has still to deliver, plus one. *)
Definition enough (p : rptr) : Q nat :=
  with_cursor p (fun r => (S (List.length (rows.feed r)), r)).

(** [ForQueryRows] *)
Definition ForQueryRows (ctx : context.Context)
    (db : option (QueryerContext D)) (query : string) (args : list arg)
  : Q (option errors.error) :=
  match args with
  | [] => ret (fmt_Errorf "too few arguments")
  | _ :: _ =>
      let fnArg := last args aNil in
      let queryArgs := removelast args in
      match fnArg with
      | aNil => fun _ => Panic
      | aValue _ => ret (fmt_Errorf "fn arg not a function")
      | aFunc f =>
          if (1 <? List.length (fn_out f))%nat then
            ret (fmt_Errorf "fn arg must return 0 values or 1")
          else if result_is_not_error f then
            ret (fmt_Errorf "fn arg return type must be error")
          else
            q <- queryContext db ctx query (map operand_of queryArgs) ;;
            match snd q with
            | Some err => ret (Some err)
            | None =>
                match fst q with
                | None => fun _ => Panic
                | Some p =>
                    deferring (rows_Close p)
                      (fuel <- enough p ;; forRows fuel p f)
                end
            end
      end
  end.

(** [QueryRowContext] *)
Definition QueryRowContext (ctx : context.Context)
    (db : option (QueryerContext D)) (query : string) (args : list arg)
  : Q Row :=
  q <- queryContext db ctx query (map operand_of args) ;;
  ret (mkRow (fst q) (snd q)).

(** [Row.Err] *)
Definition Row_Err (r : Row) : option errors.error := row_err r.

(** [Row.Scan]; the destinations come back as [Scan] left them. *)
Definition Row_Scan (r : Row) (dest : list rows.slot)
  : Q (list rows.slot * option errors.error) :=
  match row_rows r with
  | None => ret (dest, row_err r)
  | Some p =>
      deferring (rows_Close p)
        (more <- rows_Next p ;;
         if negb more then ret (dest, Some sql_ErrNoRows)
         else
           s <- rows_Scan p dest ;;
           match snd s with
           | Some err => ret (fst s, Some err)
           | None =>
               again <- rows_Next p ;;
               if again : bool then ret (fst s, Some ErrMultipleRows)
               else ret (fst s, None)
           end)
  end.

End Queries.

Arguments session D U : clear implicits.
Arguments func U typ val : clear implicits.
Arguments arg U typ val : clear implicits.

End query.

(** The cursor at address [p] of the world's heap is [r]. *)
Definition cursor_is {D U : Type} (w : World (query.session D U))
    (p : query.rptr) (r : rows.t) : Prop :=
  exists pre post,
    query.cursors (store w) = (pre ++ r :: post)%list /\ p = List.length pre.

(** The world in which a query was answered with a result set. *)
Definition answered {D U : Type} (w : World (query.session D U))
    (ctx : context.Context) (q : string) (ops : list query.operand) (c' : D)
    (rs : list (list sql.value)) (fail : option errors.error)
  : World (query.session D U) :=
  with_store
    (query.mkSession c'
       (query.cursors (store w) ++ [rows.fresh rs fail])%list
       (query.user (store w))
       (query.asked (store w) ++ [query.mkQuery ctx q ops])%list) w.

(** The callback's variables have become [u]. *)
Definition put_user {D U : Type} (u : U) (w : World (query.session D U))
  : World (query.session D U) :=
  with_store
    (query.mkSession (query.conn (store w)) (query.cursors (store w)) u
                     (query.asked (store w))) w.

(** A callback [ForQueryRows] accepts and can call. *)
Definition callable {U typ val : Type} (f : query.func U typ val)
    (body : list val -> U -> U * option errors.error) : Prop :=
  query.fn_body f = Some body /\
  (query.fn_out f = [] \/ query.fn_out f = [query.ErrorNillable]).

Section Visits.
Context {U typ val : Type}.
Variable convertAssign : nat -> typ -> sql.value -> val + errors.error.
Variable zero : typ -> val.

(** What [Scan] does to the destinations for a row just delivered. *)
Definition scan_of (dest : list (rows.slot (typ := typ) (val := val)))
    (row : list sql.value) : list rows.slot * option errors.error :=
  if (List.length dest =? List.length row)%nat
  then rows.assign convertAssign 0 dest row
  else (dest, Some (rows.errArity (List.length row) (List.length dest))).

(** What scanning a row into fresh arguments of the callback gives: the
    argument values, and the error of [Scan] if it fails. *)
Definition scan_row (f : query.func U typ val) (row : list sql.value)
  : list val * option errors.error :=
  let s := scan_of (map (fun t => rows.mkSlot t (zero t)) (query.fn_in f))
                   row in
  (map rows.slot_val (fst s), snd s).

(** The callback's variables after it was called on each of the rows. *)
Definition delivered (f : query.func U typ val)
    (body : list val -> U -> U * option errors.error) (u : U)
    (rs : list (list sql.value)) : U :=
  fold_left (fun u row => fst (body (fst (scan_row f row)) u)) rs u.

(** Each of the rows scans, and the callback, called on them in order,
    returns no error (or has no result at all). *)
Fixpoint quiet (f : query.func U typ val)
    (body : list val -> U -> U * option errors.error) (u : U)
    (rs : list (list sql.value)) : Prop :=
  match rs with
  | [] => True
  | row :: rest =>
      snd (scan_row f row) = None /\
      (query.fn_out f = [] \/ snd (body (fst (scan_row f row)) u) = None) /\
      quiet f body (fst (body (fst (scan_row f row)) u)) rest
  end.

End Visits.

(** ** Column types and capabilities used as examples *)

Inductive coltype : Type := TString | TTime.

(** A conversion that stores a value of the destination's own type and
    refuses any other. *)
Definition convert_same (i : nat) (t : coltype) (v : sql.value)
  : sql.value + errors.error :=
  match t, v with
  | TString, sql.VString _ => inl v
  | TTime, sql.VTime _ => inl v
  | _, _ => inr (errors.fundamental ("unsupported Scan, column " ++ itoa i))
  end.

Definition zero_of (t : coltype) : sql.value :=
  match t with
  | TString => sql.VString ""
  | TTime => sql.VTime 0
  end.

(** A query capability that answers every query with the same rows. *)
Definition answering (rs : list (list sql.value))
    (fail : option errors.error) : query.QueryerContext unit :=
  query.mkQueryer
    (fun _ _ _ s => (s, (Some (query.mkResultset rs fail), None))).

(** A query capability that refuses every query. *)
Definition refusing (e : errors.error) : query.QueryerContext unit :=
  query.mkQueryer (fun _ _ _ s => (s, (None, Some e))).

(** A process with no cursor open, whose callback keeps a list of names. *)
Definition query_world : World (query.session unit (list string)) :=
  mkWorld [] (query.mkSession tt [] [] []) 0 no_entropy_error 0 [].

(** A callback [func(name string, exp time.Time) error] that notes down
    the names it is given and refuses the name "stop". *)
Definition note_names : query.func (list string) coltype sql.value :=
  query.mkFunc [TString; TTime] [query.ErrorNillable]
    (Some (fun vs u =>
             match vs with
             | sql.VString n :: _ =>
                 if (n =? "stop")%string
                 then (u, Some (errors.fundamental "stopped"))
                 else ((u ++ [n])%list, None)
             | _ => (u, None)
             end)).

(** The body of [note_names]. *)
Definition note_names_body (vs : list sql.value) (u : list string)
  : list string * option errors.error :=
  match query.fn_body note_names with
  | Some body => body vs u
  | None => (u, None)
  end.

(** Destinations [&name, &exp] for a row of the leases table. *)
Definition name_and_exp : list (rows.slot (typ := coltype) (val := sql.value)) :=
  [rows.mkSlot TString (zero_of TString); rows.mkSlot TTime (zero_of TTime)].

(** Rows of a leases table as a query for name and expiry returns them. *)
Definition lease_of (n : string) (e : time.Time) : list sql.value :=
  [sql.VString n; sql.VTime e].

(** ** Contention on the reference store *)

(** The actor's Lessor is live, runs on the reference driver and is bound
    to the names of the store [d]. *)
Definition wired (d : refstore.t) (a : actor refstore.t) : Prop :=
  exists v,
    nth_error (lessors (a_world a)) (a_lessor a) = Some v /\
    Lessor.db v = Some refstore.driver /\ bound v d.

(** The next read of the actor's random source reports no error. *)
Definition key_ready (a : actor refstore.t) : Prop :=
  snd (entropy (a_world a) (drawn (a_world a))) = None.

(** What the unique index maintains. *)
Definition one_row_per_name (rs : list refstore.Row) : Prop :=
  forall n, refstore.count (refstore.named n) rs <= 1.

(** What a step leaves alone in the actor's process. *)
Definition same_process (w w' : World refstore.t) : Prop :=
  lessors w' = lessors w /\ clock w' = clock w /\ entropy w' = entropy w.

(** Every row of the name is stale at [now]: a sweep at [now] removes it. *)
Definition all_stale (n : string) (now : time.Time) (rs : list refstore.Row)
  : Prop :=
  forall r, In r rs -> refstore.name r = n -> refstore.exp r < now.

Definition absent (n : string) (rs : list refstore.Row) : Prop :=
  existsb (refstore.named n) rs = false.

(** The name is taken, by rows that a sweep at [now] keeps. *)
Definition settled (n : string) (now : time.Time) (rs : list refstore.Row)
  : Prop :=
  existsb (refstore.named n) rs = true /\
  forall r, In r rs -> refstore.name r = n -> now <= refstore.exp r.

(** Round trips the actor still has to make. *)
Definition remaining (g : stage) : nat :=
  match g with
  | Sweeping => 2
  | Inserting => 1
  | Returned _ => 0
  | Panicked => 0
  end.

(** The actor is in the call [Acquire(n, e)] at clock reading [now]. *)
Definition in_call (d : refstore.t) (n : string) (e now : time.Time)
    (a : actor refstore.t) : Prop :=
  wired d a /\ a_name a = n /\ a_exp a = e /\ clock (a_world a) = now /\
  (remaining (a_stage a) <> 0%nat -> key_ready a).

(** The table at each pair of stages of two actors contending for [n]. *)
Definition contention_inv (n : string) (now1 now2 : time.Time)
    (g1 g2 : stage) (rs : list refstore.Row) : Prop :=
  match g1, g2 with
  | Sweeping, Sweeping => all_stale n now1 rs /\ all_stale n now2 rs
  | Sweeping, Inserting => absent n rs
  | Inserting, Sweeping => absent n rs
  | Inserting, Inserting => absent n rs
  | Returned (_, None), Sweeping => settled n now2 rs
  | Returned (_, None), Inserting => settled n now2 rs
  | Sweeping, Returned (_, None) => settled n now1 rs
  | Inserting, Returned (_, None) => settled n now1 rs
  | Returned (_, None), Returned (_, Some _) => True
  | Returned (_, Some _), Returned (_, None) => True
  | _, _ => False
  end.

(** Two actors about to call [Acquire] on the store [d]. *)
Definition contenders (a b : actor refstore.t) (d : refstore.t)
  : system refstore.t :=
  mkSystem a b d.

Definition contender (n : string) (e now : time.Time) : actor refstore.t :=
  mkActor 0%nat context.Background n e (lease_world now []) Sweeping.

(** ** Running the operations *)

Section Runs.
Context {St : Type}.
Implicit Types (w : World St) (v : Lessor.t St) (d : ExecerContext St).

Lemma bind_run {A B} (m : M St A) (k : A -> M St B) w a w' :
  m w = Done a w' -> bind m k w = k a w'.
Proof. unfold bind. intros ->. reflexivity. Qed.

Lemma bind_panic {A B} (m : M St A) (k : A -> M St B) w :
  m w = Panic -> bind m k w = Panic.
Proof. unfold bind. intros ->. reflexivity. Qed.

Lemma deref_run w l v : nth_error (lessors w) l = Some v -> deref l w = Done v w.
Proof. unfold deref. intros ->. reflexivity. Qed.

Lemma deref_panic w l : nth_error (lessors w) l = None -> deref l w = Panic.
Proof. unfold deref. intros ->. reflexivity. Qed.

Lemma tableName_run w l v :
  nth_error (lessors w) l = Some v -> tableName l w = Done (tableOf v) w.
Proof.
  intros H. unfold tableName, tableOf. rewrite (bind_run _ _ _ _ _ (deref_run _ _ _ H)).
  destruct (Lessor.Table v =? "")%string; reflexivity.
Qed.

Lemma nameName_run w l v :
  nth_error (lessors w) l = Some v -> nameName l w = Done (nameOf v) w.
Proof.
  intros H. unfold nameName, nameOf. rewrite (bind_run _ _ _ _ _ (deref_run _ _ _ H)).
  destruct (Lessor.Name v =? "")%string; reflexivity.
Qed.

Lemma expName_run w l v :
  nth_error (lessors w) l = Some v -> expName l w = Done (expOf v) w.
Proof.
  intros H. unfold expName, expOf. rewrite (bind_run _ _ _ _ _ (deref_run _ _ _ H)).
  destruct (Lessor.Exp v =? "")%string; reflexivity.
Qed.

Lemma keyName_run w l v :
  nth_error (lessors w) l = Some v -> keyName l w = Done (keyOf v) w.
Proof.
  intros H. unfold keyName, keyOf. rewrite (bind_run _ _ _ _ _ (deref_run _ _ _ H)).
  destruct (Lessor.Key v =? "")%string; reflexivity.
Qed.

Lemma tableName_panic w l :
  nth_error (lessors w) l = None -> tableName l w = Panic.
Proof.
  intros H. unfold tableName. apply bind_panic, deref_panic, H.
Qed.

Lemma execContext_run w l v d ctx q args :
  nth_error (lessors w) l = Some v -> Lessor.db v = Some d ->
  execContext l ctx q args w =
    Done (snd (ExecContext d ctx q args (store w)))
         (record_call (mkCall ctx q args)
                      (fst (ExecContext d ctx q args (store w))) w).
Proof.
  intros H Hd. unfold execContext.
  rewrite (bind_run _ _ _ _ _ (deref_run _ _ _ H)), Hd.
  destruct (ExecContext d ctx q args (store w)); reflexivity.
Qed.

Lemma execContext_nil_db w l v ctx q args :
  nth_error (lessors w) l = Some v -> Lessor.db v = None ->
  execContext l ctx q args w = Panic.
Proof.
  intros H Hd. unfold execContext.
  rewrite (bind_run _ _ _ _ _ (deref_run _ _ _ H)), Hd. reflexivity.
Qed.

Lemma rand_Read_run w :
  rand_Read w =
    Done (fill16 (fst (entropy w (drawn w))), snd (entropy w (drawn w)))
         (consume_entropy w).
Proof. unfold rand_Read. destruct (entropy w (drawn w)); reflexivity. Qed.

Lemma time_Now_run w : time_Now w = Done (clock w) w.
Proof. reflexivity. Qed.

Lemma ret_run {A} (a : A) w : ret a w = Done a w.
Proof. reflexivity. Qed.

Lemma lessors_record_call c s' w : lessors (record_call c s' w) = lessors w.
Proof. reflexivity. Qed.

Lemma lessors_consume_entropy w : lessors (consume_entropy w) = lessors w.
Proof. reflexivity. Qed.

End Runs.

Ltac heap :=
  rewrite ?lessors_record_call, ?lessors_consume_entropy; eassumption.

Ltac run_step :=
  erewrite bind_run;
  [ | first [ apply tableName_run; heap
            | apply nameName_run; heap
            | apply expName_run; heap
            | apply keyName_run; heap
            | eapply execContext_run; [heap | eassumption]
            | apply rand_Read_run
            | apply time_Now_run ] ].

Section RoundTrips.
Context {St : Type}.
Implicit Types (w : World St) (v : Lessor.t St) (d : ExecerContext St).

(** [Acquire], one round trip after the other. *)
Lemma Acquire_run w l v d ctx name exp :
  nth_error (lessors w) l = Some v -> Lessor.db v = Some d ->
  Acquire l ctx name exp w =
    let a1 := [sql.VTime (clock w)] in
    let r1 := ExecContext d ctx (sweepQ v) a1 (store w) in
    let w1 := record_call (mkCall ctx (sweepQ v) a1) (fst r1) w in
    match snd (snd r1) with
    | Some err =>
        Done (None, Some (errors.withMessage err "deleting stale leases")) w1
    | None =>
        match snd (entropy w (drawn w)) with
        | Some err =>
            Done (None, Some (errors.withMessage err "computing key"))
                 (consume_entropy w1)
        | None =>
            let a2 := insertArgs name exp (next_key w) in
            let r2 := ExecContext d ctx (insertQ v) a2 (fst r1) in
            Done (Some (Lease.mk l name exp (next_key w)),
                  errors.Wrap (snd (snd r2)) "inserting into database")
                 (record_call (mkCall ctx (insertQ v) a2) (fst r2)
                              (consume_entropy w1))
        end
    end.
Proof.
  intros H Hd. unfold Acquire. cbv zeta.
  do 4 run_step. fold (sweepQ v).
  destruct (snd (snd (ExecContext d ctx (sweepQ v) [sql.VTime (clock w)] (store w))));
    [reflexivity|].
  run_step. cbn [snd fst drawn entropy record_call].
  destruct (snd (entropy w (drawn w))); [reflexivity|].
  do 5 run_step. reflexivity.
Qed.

Lemma Acquire_nil_lessor w l ctx name exp :
  nth_error (lessors w) l = None -> Acquire l ctx name exp w = Panic.
Proof.
  intros H. unfold Acquire. apply bind_panic, tableName_panic, H.
Qed.

Lemma Acquire_nil_db w l v ctx name exp :
  nth_error (lessors w) l = Some v -> Lessor.db v = None ->
  Acquire l ctx name exp w = Panic.
Proof.
  intros H Hd. unfold Acquire. do 3 run_step.
  apply bind_panic. eapply execContext_nil_db; eassumption.
Qed.

(** [Renew]: one round trip, then the count of affected rows. *)
Lemma Renew_run w h v d ctx exp :
  nth_error (lessors w) (Lease.Lessor h) = Some v -> Lessor.db v = Some d ->
  Renew h ctx exp w =
    let a := updateArgs h exp (clock w) in
    let r := ExecContext d ctx (updateQ v) a (store w) in
    let w1 := record_call (mkCall ctx (updateQ v) a) (fst r) w in
    match snd (snd r) with
    | Some err => Done (Some (errors.withMessage err "updating database")) w1
    | None =>
        match fst (snd r) with
        | None => Panic
        | Some res =>
            match sql.RowsAffected res with
            | (_, Some e) =>
                Done (Some (errors.withMessage e "counting affected rows")) w1
            | (aff, None) =>
                if aff =? 0 then Done (errors.New "could not renew") w1
                else Done None w1
            end
        end
    end.
Proof.
  intros H Hd. unfold Renew. cbv zeta.
  do 7 run_step. fold (updateQ v). fold (updateArgs h exp (clock w)).
  destruct (snd (snd (ExecContext d ctx (updateQ v) _ (store w))));
    [reflexivity|].
  destruct (fst (snd (ExecContext d ctx (updateQ v) _ (store w))));
    [|reflexivity].
  destruct (sql.RowsAffected r) as [aff [e|]]; [reflexivity|].
  destruct (aff =? 0); reflexivity.
Qed.

(** [Release]: one round trip, whose result is not looked at. *)
Lemma Release_run w h v d ctx :
  nth_error (lessors w) (Lease.Lessor h) = Some v -> Lessor.db v = Some d ->
  Release h ctx w =
    let r := ExecContext d ctx (deleteQ v) (deleteArgs h) (store w) in
    Done (errors.Wrap (snd (snd r)) "deleting from database")
         (record_call (mkCall ctx (deleteQ v) (deleteArgs h)) (fst r) w).
Proof.
  intros H Hd. unfold Release. cbv zeta.
  do 4 run_step. reflexivity.
Qed.

End RoundTrips.

(** ** Properties that hold against every execution capability *)

Section AnyCapability.
Context {St : Type}.
Implicit Types (w : World St) (v : Lessor.t St) (d : ExecerContext St).

Lemma Acquire_leaves_lessors w l ctx name exp :
  match Acquire l ctx name exp w with
  | Done _ w' => lessors w' = lessors w
  | Panic => True
  end.
Proof.
  destruct (nth_error (lessors w) l) as [v|] eqn:H.
  - destruct (Lessor.db v) as [d|] eqn:Hd.
    + rewrite (Acquire_run _ _ _ _ _ _ _ H Hd). cbv zeta.
      destruct (snd (snd (ExecContext d _ _ _ _))); [reflexivity|].
      destruct (snd (entropy w (drawn w))); reflexivity.
    + rewrite (Acquire_nil_db _ _ _ _ _ _ H Hd). exact I.
  - rewrite (Acquire_nil_lessor _ _ _ _ _ H). exact I.
Qed.

Lemma Renew_leaves_lessors w h ctx exp :
  match Renew h ctx exp w with
  | Done _ w' => lessors w' = lessors w
  | Panic => True
  end.
Proof.
  destruct (nth_error (lessors w) (Lease.Lessor h)) as [v|] eqn:H.
  - destruct (Lessor.db v) as [d|] eqn:Hd.
    + rewrite (Renew_run _ _ _ _ _ _ H Hd). cbv zeta.
      destruct (snd (snd (ExecContext d _ _ _ _))); [reflexivity|].
      destruct (fst (snd (ExecContext d _ _ _ _))) as [res|]; [|exact I].
      destruct (sql.RowsAffected res) as [aff [e|]]; [reflexivity|].
      destruct (aff =? 0); reflexivity.
    + unfold Renew. do 6 run_step. rewrite bind_panic; [exact I|].
      eapply execContext_nil_db; eassumption.
  - unfold Renew. rewrite bind_panic; [exact I|]. apply tableName_panic, H.
Qed.

Lemma Release_leaves_lessors w h ctx :
  match Release h ctx w with
  | Done _ w' => lessors w' = lessors w
  | Panic => True
  end.
Proof.
  destruct (nth_error (lessors w) (Lease.Lessor h)) as [v|] eqn:H.
  - destruct (Lessor.db v) as [d|] eqn:Hd.
    + rewrite (Release_run _ _ _ _ _ H Hd). reflexivity.
    + unfold Release. do 3 run_step. rewrite bind_panic; [exact I|].
      eapply execContext_nil_db; eassumption.
  - unfold Release. rewrite bind_panic; [exact I|]. apply tableName_panic, H.
Qed.

Lemma accessor_pure (f : ptr -> M St string) (g : Lessor.t St -> string) :
  (forall w l v, nth_error (lessors w) l = Some v -> f l w = Done (g v) w) ->
  (forall w l, nth_error (lessors w) l = None -> f l w = Panic) ->
  forall w l,
    match f l w with
    | Done s w' =>
        w' = w /\ exists v, nth_error (lessors w) l = Some v /\ s = g v
    | Panic => True
    end.
Proof.
  intros Hs Hn w l. destruct (nth_error (lessors w) l) as [v|] eqn:H.
  - rewrite (Hs _ _ _ H). split; [reflexivity|]. exists v. auto.
  - rewrite (Hn _ _ H). exact I.
Qed.

Lemma nameName_panic w l :
  nth_error (lessors w) l = None -> nameName l w = Panic.
Proof. intros H. unfold nameName. apply bind_panic, deref_panic, H. Qed.

Lemma expName_panic w l :
  nth_error (lessors w) l = None -> expName l w = Panic.
Proof. intros H. unfold expName. apply bind_panic, deref_panic, H. Qed.

Lemma keyName_panic w l :
  nth_error (lessors w) l = None -> keyName l w = Panic.
Proof. intros H. unfold keyName. apply bind_panic, deref_panic, H. Qed.

(** A Lessor fresh from [NewLessor] resolves to the default names, and the
    Lessors allocated before it are as they were. *)
Lemma NewLessor_resolves_defaults w (d : option (ExecerContext St)) :
  match NewLessor d w with
  | Done l w' =>
      tableName l w' = Done "leases" w' /\ nameName l w' = Done "name" w' /\
      expName l w' = Done "exp" w' /\ keyName l w' = Done "key" w' /\
      firstn (List.length (lessors w)) (lessors w') = lessors w
  | Panic => False
  end.
Proof.
  unfold NewLessor.
  assert (H : nth_error (lessors w ++ [Lessor.mk d "" "" "" ""])
                        (List.length (lessors w)) =
              Some (Lessor.mk d "" "" "" "")).
  { rewrite nth_error_app2 by lia. rewrite Nat.sub_diag. reflexivity. }
  set (w' := mkWorld _ _ _ _ _ _).
  change (nth_error (lessors w') (List.length (lessors w)) =
          Some (Lessor.mk d "" "" "" "")) in H.
  repeat split.
  - exact (tableName_run w' _ _ H).
  - exact (nameName_run w' _ _ H).
  - exact (expName_run w' _ _ H).
  - exact (keyName_run w' _ _ H).
  - cbn [lessors w']. rewrite firstn_app, Nat.sub_diag, firstn_all.
    cbn [firstn]. apply app_nil_r.
Qed.

End AnyCapability.

(** ** Keys *)

Lemma fill16_length data : List.length (fill16 data) = 16%nat.
Proof.
  unfold fill16. rewrite length_firstn, length_app, repeat_length. lia.
Qed.

Lemma digit_is_hex (b : byte) :
  hex.is_hex_char (hex.digit (N.shiftr (Byte.to_N b) 4)) = true /\
  hex.is_hex_char (hex.digit (N.land (Byte.to_N b) 15)) = true.
Proof. destruct b; split; reflexivity. Qed.

Lemma EncodeToString_length src :
  String.length (hex.EncodeToString src) = (2 * List.length src)%nat.
Proof.
  induction src as [|b src IH]; [reflexivity|].
  cbn [hex.EncodeToString String.length List.length]. rewrite IH. lia.
Qed.

Lemma EncodeToString_hex src :
  forallb hex.is_hex_char (list_ascii_of_string (hex.EncodeToString src)) = true.
Proof.
  induction src as [|b src IH]; [reflexivity|].
  cbn [hex.EncodeToString list_ascii_of_string forallb].
  destruct (digit_is_hex b) as [-> ->]. exact IH.
Qed.

Lemma next_key_shape {St} (w : World St) :
  String.length (next_key w) = 32%nat /\
  forallb hex.is_hex_char (list_ascii_of_string (next_key w)) = true.
Proof.
  unfold next_key. split.
  - rewrite EncodeToString_length, fill16_length. reflexivity.
  - apply EncodeToString_hex.
Qed.

(** ** Rows *)

Section Rows.
Import refstore.
Implicit Types (r : Row) (rs : list Row) (p : Row -> bool).

Lemma count_nonneg p rs : 0 <= count p rs.
Proof. unfold count. lia. Qed.

Lemma count_zero p rs :
  count p rs = 0 <-> forall r, In r rs -> p r = false.
Proof.
  unfold count. induction rs as [|a rs IH]; cbn [filter].
  - split; [intros _ r []|reflexivity].
  - destruct (p a) eqn:Ha.
    + split; [cbn [List.length]; lia|].
      intros H. rewrite (H a (or_introl eq_refl)) in Ha. discriminate.
    + rewrite IH. split.
      * intros H r [<-|Hr]; auto.
      * intros H r Hr. apply H. right. exact Hr.
Qed.

Lemma count_nonzero p rs :
  count p rs <> 0 <-> exists r, In r rs /\ p r = true.
Proof.
  unfold count. induction rs as [|a rs IH]; cbn [filter].
  - split; [intros H; exfalso; apply H; reflexivity|intros [r [[] _]]].
  - destruct (p a) eqn:Ha.
    + split; [intros _; exists a; split; [left; reflexivity|exact Ha]|].
      intros _. cbn [List.length]. lia.
    + rewrite IH. split.
      * intros [r [Hr Hp]]. exists r. split; [right; exact Hr|exact Hp].
      * intros [r [[<-|Hr] Hp]]; [congruence|]. exists r. auto.
Qed.

Lemma stale_iff now r : stale now r = true <-> exp r < now.
Proof. unfold stale. apply Z.ltb_lt. Qed.

Lemma renewable_iff n k now r :
  renewable n k now r = true <-> name r = n /\ key r = k /\ now < exp r.
Proof.
  unfold renewable. rewrite !andb_true_iff, !String.eqb_eq, Z.gtb_ltb, Z.ltb_lt.
  tauto.
Qed.

Lemma held_by_iff n k r : held_by n k r = true <-> name r = n /\ key r = k.
Proof. unfold held_by. rewrite andb_true_iff, !String.eqb_eq. tauto. Qed.

Lemma named_iff n r : named n r = true <-> name r = n.
Proof. unfold named. apply String.eqb_eq. Qed.

Lemma In_sweep now rs r : In r (sweep now rs) <-> In r rs /\ now <= exp r.
Proof.
  unfold sweep. rewrite filter_In, negb_true_iff. unfold stale.
  rewrite Z.ltb_ge. tauto.
Qed.

Lemma In_release n k rs r :
  In r (release n k rs) <-> In r rs /\ ~ (name r = n /\ key r = k).
Proof.
  unfold release. rewrite filter_In, negb_true_iff, <- held_by_iff.
  destruct (held_by n k r); intuition congruence.
Qed.

Lemma renew_none e n k now rs :
  count (renewable n k now) rs = 0 -> renew e n k now rs = rs.
Proof.
  rewrite count_zero. unfold renew. induction rs as [|a rs IH]; intros H.
  - reflexivity.
  - cbn [map]. rewrite (H a (or_introl eq_refl)), IH; [reflexivity|].
    intros r Hr. apply H. right. exact Hr.
Qed.

Lemma release_none n k rs : count (held_by n k) rs = 0 -> release n k rs = rs.
Proof.
  rewrite count_zero. unfold release. induction rs as [|a rs IH]; intros H.
  - reflexivity.
  - cbn [filter]. rewrite (H a (or_introl eq_refl)). cbn [negb].
    rewrite IH; [reflexivity|]. intros r Hr. apply H. right. exact Hr.
Qed.

Lemma count_release n k rs : count (held_by n k) (release n k rs) = 0.
Proof.
  apply count_zero. intros r Hr. apply In_release in Hr.
  destruct (held_by n k r) eqn:E; [|reflexivity].
  apply held_by_iff in E. tauto.
Qed.

Lemma existsb_named_false n rs :
  existsb (named n) rs = false <-> forall r, In r rs -> name r <> n.
Proof.
  split.
  - intros H r Hr E. apply named_iff in E.
    assert (existsb (named n) rs = true) by (apply existsb_exists; eauto).
    congruence.
  - intros H. destruct (existsb (named n) rs) eqn:E; [|reflexivity].
    apply existsb_exists in E. destruct E as [r [Hr E]].
    apply named_iff in E. exfalso. exact (H r Hr E).
Qed.

End Rows.

(** ** The operations on the reference store *)

Section OnRefstore.
Import refstore.
Implicit Types (w : World refstore.t) (v : Lessor.t refstore.t) (d : refstore.t).

Lemma bound_with_rows v d rs : bound v d -> bound v (with_rows d rs).
Proof. exact (fun H => H). Qed.

Lemma sweepQ_bound v d : bound v d -> sweepQ v = sweep_text d.
Proof.
  intros (Ht & Hn & He & Hk). unfold sweepQ, sweep_text.
  rewrite Ht, He. reflexivity.
Qed.

Lemma insertQ_bound v d : bound v d -> insertQ v = insert_text d.
Proof.
  intros (Ht & Hn & He & Hk). unfold insertQ, insert_text.
  rewrite Ht, Hn, He, Hk. reflexivity.
Qed.

Lemma updateQ_bound v d : bound v d -> updateQ v = update_text d.
Proof.
  intros (Ht & Hn & He & Hk). unfold updateQ, update_text.
  rewrite Ht, Hn, He, Hk. reflexivity.
Qed.

Lemma deleteQ_bound v d : bound v d -> deleteQ v = delete_text d.
Proof.
  intros (Ht & Hn & He & Hk). unfold deleteQ, delete_text.
  rewrite Ht, Hn, Hk. reflexivity.
Qed.

Lemma exec_sweep ctx d now :
  exec ctx (sweep_text d) [sql.VTime now] d =
    (with_rows d (sweep now (rows d)), ok (count (stale now) (rows d))).
Proof. unfold exec. rewrite String.eqb_refl. reflexivity. Qed.

Lemma exec_insert ctx d n e k :
  exec ctx (insert_text d) (insertArgs n e k) d =
    if unique_name d && existsb (named n) (rows d)
    then (d, fail "UNIQUE constraint failed")
    else (with_rows d (insert n e k (rows d)), ok 1).
Proof. unfold exec, insertArgs. rewrite String.eqb_refl. reflexivity. Qed.

Lemma exec_update ctx d h e now :
  exec ctx (update_text d) (updateArgs h e now) d =
    (with_rows d (renew e (Lease.Name h) (Lease.Key h) now (rows d)),
     ok (count (renewable (Lease.Name h) (Lease.Key h) now) (rows d))).
Proof. unfold exec, updateArgs. rewrite String.eqb_refl. reflexivity. Qed.

Lemma exec_delete ctx d h :
  exec ctx (delete_text d) (deleteArgs h) d =
    (with_rows d (release (Lease.Name h) (Lease.Key h) (rows d)),
     ok (count (held_by (Lease.Name h) (Lease.Key h)) (rows d))).
Proof. unfold exec, deleteArgs. rewrite String.eqb_refl. reflexivity. Qed.

End OnRefstore.

Section LeasesOnRefstore.
Import refstore.
Implicit Types (w : World refstore.t) (v : Lessor.t refstore.t) (d : refstore.t).

Lemma Acquire_on_refstore w l v ctx n e :
  nth_error (lessors w) l = Some v -> Lessor.db v = Some driver ->
  bound v (store w) ->
  Acquire l ctx n e w =
    let swept := sweep (clock w) (rows (store w)) in
    let w1 := record_call (mkCall ctx (sweepQ v) [sql.VTime (clock w)])
                (with_rows (store w) swept) w in
    match snd (entropy w (drawn w)) with
    | Some err =>
        Done (None, Some (errors.withMessage err "computing key"))
             (consume_entropy w1)
    | None =>
        let c2 := mkCall ctx (insertQ v) (insertArgs n e (next_key w)) in
        let lease := Lease.mk l n e (next_key w) in
        if unique_name (store w) && existsb (named n) swept then
          Done (Some lease,
                Some (errors.withMessage
                        (errors.fundamental "UNIQUE constraint failed")
                        "inserting into database"))
               (record_call c2 (with_rows (store w) swept)
                            (consume_entropy w1))
        else
          Done (Some lease, None)
               (record_call c2
                  (with_rows (store w) (insert n e (next_key w) swept))
                  (consume_entropy w1))
    end.
Proof.
  intros H Hd Hb. rewrite (Acquire_run _ _ _ _ _ _ _ H Hd). cbv zeta.
  cbn [ExecContext driver].
  rewrite (sweepQ_bound _ _ Hb), exec_sweep. cbn [fst snd ok].
  destruct (snd (entropy w (drawn w))); [reflexivity|].
  assert (Hb' : bound v (with_rows (store w) (sweep (clock w) (rows (store w)))))
    by exact Hb.
  rewrite (insertQ_bound _ _ Hb'), exec_insert.
  cbn [unique_name rows with_rows].
  destruct (unique_name (store w) && existsb (named n) _); reflexivity.
Qed.

Lemma Renew_on_refstore w h v ctx e :
  nth_error (lessors w) (Lease.Lessor h) = Some v ->
  Lessor.db v = Some driver -> bound v (store w) ->
  Renew h ctx e w =
    let n := Lease.Name h in
    let k := Lease.Key h in
    let w1 := record_call (mkCall ctx (updateQ v) (updateArgs h e (clock w)))
                (with_rows (store w) (renew e n k (clock w) (rows (store w))))
                w in
    if count (renewable n k (clock w)) (rows (store w)) =? 0
    then Done (errors.New "could not renew") w1
    else Done None w1.
Proof.
  intros H Hd Hb. rewrite (Renew_run _ _ _ _ _ _ H Hd). cbv zeta.
  cbn [ExecContext driver].
  rewrite (updateQ_bound _ _ Hb), exec_update. reflexivity.
Qed.

Lemma Release_on_refstore w h v ctx :
  nth_error (lessors w) (Lease.Lessor h) = Some v ->
  Lessor.db v = Some driver -> bound v (store w) ->
  Release h ctx w =
    Done None
      (record_call (mkCall ctx (deleteQ v) (deleteArgs h))
         (with_rows (store w)
            (release (Lease.Name h) (Lease.Key h) (rows (store w)))) w).
Proof.
  intros H Hd Hb. rewrite (Release_run _ _ _ _ _ H Hd). cbv zeta.
  cbn [ExecContext driver].
  rewrite (deleteQ_bound _ _ Hb), exec_delete. reflexivity.
Qed.

End LeasesOnRefstore.

(** ** The scenarios of the lease life cycle *)

(** Acquire until 10 at time 0; renew to 20 at time 9; a renewal at 21,
    after the new expiration, is refused. *)
Example scenario_renew_before_and_after_expiry :
  match Acquire 0%nat context.Background "job-1" 10 (lease_world 0 []) with
  | Done (Some h, None) w1 =>
      match Renew h context.Background 20 (at_time 9 w1) with
      | Done None w2 =>
          match Renew h context.Background 25 (at_time 21 w2) with
          | Done err w3 =>
              err = errors.New "could not renew" /\
              refstore.rows (store w3) =
                [refstore.mkRow "job-1" 20 "0123456789abcdef1032547698badcfe"]
          | Panic => False
          end
      | _ => False
      end
  | _ => False
  end.
Proof. split; reflexivity. Qed.

(** A second Acquire of a held name fails on the unique index and leaves
    the first lease's row as it is. *)
Example scenario_second_acquire_fails :
  match Acquire 0%nat context.Background "job-1" 10 (lease_world 0 []) with
  | Done (Some h, None) w1 =>
      match Acquire 0%nat context.Background "job-1" 15 (at_time 3 w1) with
      | Done (_, err) w2 =>
          err = Some (errors.withMessage
                        (errors.fundamental "UNIQUE constraint failed")
                        "inserting into database") /\
          refstore.rows (store w2) =
            [refstore.mkRow "job-1" 10 (Lease.Key h)]
      | Panic => False
      end
  | _ => False
  end.
Proof. split; reflexivity. Qed.

(** A lease acquired with an expiration already past is swept by an
    Acquire of another name, after which its name can be acquired again. *)
Example scenario_stale_name_reclaimed :
  match Acquire 0%nat context.Background "job-1" 5 (lease_world 10 []) with
  | Done (Some _, None) w1 =>
      match Acquire 0%nat context.Background "job-2" 30 (at_time 11 w1) with
      | Done (Some h2, None) w2 =>
          refstore.rows (store w2) = [refstore.mkRow "job-2" 30 (Lease.Key h2)] /\
          match Acquire 0%nat context.Background "job-1" 40 (at_time 12 w2) with
          | Done (Some _, None) _ => True
          | _ => False
          end
      | _ => False
      end
  | _ => False
  end.
Proof. split; [reflexivity|exact I]. Qed.

(** ** Acquire: the handle and the error *)

(** C1, as stated, fails at a store that cannot be reached: the sweep
    fails, and [Acquire] returns a non-nil error together with a nil
    [*Lease]. *)
Lemma Acquire_error_with_nil_lease :
  Acquire 0%nat context.Background "job-1" 20 (stub_world unreachable) =
    Done (None,
          Some (errors.withMessage (errors.fundamental "connection refused")
                                   "deleting stale leases"))
         (record_call
            (mkCall context.Background "DELETE FROM leases WHERE exp < $1"
                    [sql.VTime 10])
            tt (stub_world unreachable)).
Proof. reflexivity. Qed.

(** C1, amended: a call to [Acquire] that got past the stale sweep and the
    key generation returns the populated handle (this Lessor, the requested
    name and expiration, the drawn key) whatever the insert answered, so
    also together with a non-nil error; a call whose sweep or key
    generation failed returns a nil handle and a non-nil error. *)
Theorem Acquire_handle_iff_insert_sent
    {St : Type} (w : World St) (l : ptr) (v : Lessor.t St)
    (d : ExecerContext St) (ctx : context.Context) (name : string)
    (exp : time.Time) :
  nth_error (lessors w) l = Some v -> Lessor.db v = Some d ->
  let swept := ExecContext d ctx (sweepQ v) [sql.VTime (clock w)] (store w) in
  let sweep_err := snd (snd swept) in
  let rand_err := snd (entropy w (drawn w)) in
  let inserted :=
    ExecContext d ctx (insertQ v) (insertArgs name exp (next_key w))
                (fst swept) in
  exists lease err w',
    Acquire l ctx name exp w = Done (lease, err) w' /\
    (sweep_err = None /\ rand_err = None ->
       lease = Some (Lease.mk l name exp (next_key w)) /\
       err = errors.Wrap (snd (snd inserted)) "inserting into database") /\
    (sweep_err <> None \/ rand_err <> None -> lease = None /\ err <> None).
Proof.
  intros H Hd. cbv zeta. rewrite (Acquire_run _ _ _ _ _ _ _ H Hd). cbv zeta.
  destruct (snd (snd (ExecContext d ctx (sweepQ v) _ (store w)))) as [e1|].
  - do 3 eexists. split; [reflexivity|]. split.
    + intros [? _]. discriminate.
    + intros _. split; [reflexivity|discriminate].
  - destruct (snd (entropy w (drawn w))) as [e2|].
    + do 3 eexists. split; [reflexivity|]. split.
      * intros [_ ?]. discriminate.
      * intros _. split; [reflexivity|discriminate].
    + do 3 eexists. split; [reflexivity|]. split.
      * intros _. split; reflexivity.
      * intros [E|E]; exfalso; apply E; reflexivity.
Qed.

(** The amended C1 at a store where the name is taken: the insert fails,
    and the handle comes back with the error. *)
Lemma Acquire_handle_iff_insert_sent_witness :
  exists lease err w',
    Acquire 0%nat context.Background "job-1" 20
      (lease_world 10 [refstore.mkRow "job-1" 15 "held"]) =
      Done (lease, err) w' /\
    lease = Some (Lease.mk 0%nat "job-1" 20 "0123456789abcdef1032547698badcfe") /\
    err = Some (errors.withMessage
                  (errors.fundamental "UNIQUE constraint failed")
                  "inserting into database").
Proof.
  destruct (Acquire_handle_iff_insert_sent
              (lease_world 10 [refstore.mkRow "job-1" 15 "held"]) 0%nat
              (Lessor.mk (Some refstore.driver) "" "" "" "") refstore.driver
              context.Background "job-1" 20 eq_refl eq_refl)
    as (lease & err & w' & Hrun & Hsent & _).
  exists lease, err, w'. split; [exact Hrun|].
  exact (Hsent (conj eq_refl eq_refl)).
Defined.

(** ** Renew: the count of affected rows *)

(** C3, as stated, fails when the update reports two affected rows:
    [Renew] returns nil although the count is not exactly one. *)
Lemma Renew_nil_with_two_rows_affected :
  ExecContext (reporting 2) context.Background
    "UPDATE leases SET exp = $1 WHERE name = $2 AND key = $3 AND exp > $4"
    (updateArgs (Lease.mk 0%nat "job-1" 20 "k") 30 10) tt =
    (tt, (Some (sql.mkResult (2, None)), None)) /\
  Renew (Lease.mk 0%nat "job-1" 20 "k") context.Background 30
        (stub_world (reporting 2)) =
    Done None
      (record_call
         (mkCall context.Background
            "UPDATE leases SET exp = $1 WHERE name = $2 AND key = $3 AND exp > $4"
            (updateArgs (Lease.mk 0%nat "job-1" 20 "k") 30 10))
         tt (stub_world (reporting 2))).
Proof. split; reflexivity. Qed.

(** C3, amended: [Renew] returns nil exactly when the update executed,
    its affected-row count could be read, and the count is not zero (one
    or any other non-zero count); it returns the "could not renew" error
    exactly when that count is zero. *)
Theorem Renew_nil_iff_count_nonzero
    {St : Type} (w : World St) (h : Lease.t) (v : Lessor.t St)
    (d : ExecerContext St) (ctx : context.Context) (exp : time.Time)
    (err : option errors.error) (w' : World St) :
  nth_error (lessors w) (Lease.Lessor h) = Some v -> Lessor.db v = Some d ->
  Renew h ctx exp w = Done err w' ->
  let answer :=
    snd (ExecContext d ctx (updateQ v) (updateArgs h exp (clock w))
                     (store w)) in
  (err = None <->
     exists res aff, answer = (Some res, None) /\
                     sql.RowsAffected res = (aff, None) /\ aff <> 0) /\
  (err = errors.New "could not renew" <->
     exists res, answer = (Some res, None) /\
                 sql.RowsAffected res = (0, None)).
Proof.
  intros H Hd. rewrite (Renew_run _ _ _ _ _ _ H Hd). cbv zeta.
  destruct (snd (ExecContext d ctx (updateQ v) _ (store w))) as [res e1].
  cbn [fst snd]. destruct e1 as [e1|].
  { intros [= <- _]. split; split.
    - discriminate.
    - intros (r & a & [= ] & _).
    - discriminate.
    - intros (r & [= ] & _). }
  destruct res as [res|]; [|discriminate].
  destruct (sql.RowsAffected res) as [aff [e2|]] eqn:Ha.
  { intros [= <- _]. split; split.
    - discriminate.
    - intros (r & a & [= <-] & Hr & _). congruence.
    - discriminate.
    - intros (r & [= <-] & Hr). congruence. }
  destruct (aff =? 0) eqn:E.
  - apply Z.eqb_eq in E. subst aff. intros [= <- _]. split; split.
    + discriminate.
    + intros (r & a & [= <-] & Hr & Hnz). congruence.
    + intros _. exists res. auto.
    + reflexivity.
  - apply Z.eqb_neq in E. intros [= <- _]. split; split.
    + intros _. exists res, aff. auto.
    + reflexivity.
    + discriminate.
    + intros (r & [= <-] & Hr). congruence.
Qed.

(** The amended C3 at a capability that reports two rows: [Renew] returns
    nil, so the count it read was not zero. *)
Lemma Renew_nil_iff_count_nonzero_witness :
  Renew (Lease.mk 0%nat "job-1" 20 "k") context.Background 30
        (stub_world (reporting 2)) =
    Done None
      (record_call
         (mkCall context.Background
            (updateQ (Lessor.mk (Some (reporting 2)) "" "" "" ""))
            (updateArgs (Lease.mk 0%nat "job-1" 20 "k") 30 10))
         tt (stub_world (reporting 2))) /\
  exists res aff,
    snd (ExecContext (reporting 2) context.Background
           (updateQ (Lessor.mk (Some (reporting 2)) "" "" "" ""))
           (updateArgs (Lease.mk 0%nat "job-1" 20 "k") 30 10) tt) =
      (Some res, None) /\
    sql.RowsAffected res = (aff, None) /\ aff <> 0.
Proof.
  split; [reflexivity|].
  exact (proj1 (proj1 (Renew_nil_iff_count_nonzero
                         (stub_world (reporting 2))
                         (Lease.mk 0%nat "job-1" 20 "k")
                         (Lessor.mk (Some (reporting 2)) "" "" "" "")
                         (reporting 2) context.Background 30 None _
                         eq_refl eq_refl eq_refl))
               eq_refl).
Defined.

Lemma with_rows_same (d : refstore.t) : refstore.with_rows d (refstore.rows d) = d.
Proof. destruct d; reflexivity. Qed.

(** C2: on a store the Lessor is bound to, [Renew] returns nil if and
    only if the table holds a row with the handle's name and key whose
    expiration is strictly later than the time of the update; otherwise it
    returns the "could not renew" error and the store is as it was.  On
    success the rows that matched carry the new expiration. *)
Theorem Renew_succeeds_iff_row_held
    (w : World refstore.t) (h : Lease.t) (v : Lessor.t refstore.t)
    (ctx : context.Context) (newExp : time.Time) :
  nth_error (lessors w) (Lease.Lessor h) = Some v ->
  Lessor.db v = Some refstore.driver -> bound v (store w) ->
  exists err w',
    Renew h ctx newExp w = Done err w' /\
    (err = None <->
       exists r, In r (refstore.rows (store w)) /\
                 refstore.name r = Lease.Name h /\
                 refstore.key r = Lease.Key h /\
                 clock w < refstore.exp r) /\
    (err <> None ->
       err = errors.New "could not renew" /\ store w' = store w) /\
    (err = None ->
       refstore.rows (store w') =
         refstore.renew newExp (Lease.Name h) (Lease.Key h) (clock w)
                        (refstore.rows (store w))).
Proof.
  intros H Hd Hb. rewrite (Renew_on_refstore _ _ _ _ _ H Hd Hb). cbv zeta.
  destruct (refstore.count _ _ =? 0) eqn:E.
  - apply Z.eqb_eq in E. do 2 eexists. split; [reflexivity|].
    split; [|split].
    + split; [discriminate|]. intros (r & Hr & Hn & Hk & Ht). exfalso.
      rewrite count_zero in E. specialize (E r Hr).
      assert (refstore.renewable (Lease.Name h) (Lease.Key h) (clock w) r = true)
        by (apply renewable_iff; auto).
      congruence.
    + intros _. split; [reflexivity|]. cbn [store record_call].
      rewrite (renew_none _ _ _ _ _ E). apply with_rows_same.
    + discriminate.
  - apply Z.eqb_neq in E. do 2 eexists. split; [reflexivity|].
    split; [|split].
    + split; [|reflexivity]. intros _.
      apply count_nonzero in E. destruct E as (r & Hr & Hp).
      apply renewable_iff in Hp. exists r. tauto.
    + intros C. exfalso. apply C. reflexivity.
    + intros _. reflexivity.
Qed.

(** C2 in scenario A: the lease acquired until 20 is renewed at time 19. *)
Lemma Renew_succeeds_iff_row_held_witness :
  exists w',
    Renew (Lease.mk 0%nat "job-1" 20 "K") context.Background 30
          (lease_world 19 [refstore.mkRow "job-1" 20 "K"]) = Done None w' /\
    refstore.rows (store w') = [refstore.mkRow "job-1" 30 "K"].
Proof.
  destruct (Renew_succeeds_iff_row_held
              (lease_world 19 [refstore.mkRow "job-1" 20 "K"])
              (Lease.mk 0%nat "job-1" 20 "K")
              (Lessor.mk (Some refstore.driver) "" "" "" "")
              context.Background 30 eq_refl eq_refl
              (conj eq_refl (conj eq_refl (conj eq_refl eq_refl))))
    as (err & w' & Hrun & Hiff & _ & Hrows).
  assert (Hnil : err = None).
  { apply Hiff. exists (refstore.mkRow "job-1" 20 "K").
    split; [left; reflexivity|]. repeat split. }
  exists w'. split.
  - rewrite Hrun, Hnil. reflexivity.
  - exact (Hrows Hnil).
Defined.

(** ** Acquire: the stale sweep *)

(** C4: against every capability the first statement [Acquire] sends is
    the delete of the rows whose expiration column is before the current
    time, with no name in it; if that statement fails, [Acquire] returns
    the wrapped error and sends nothing else.  On the reference store the
    sweep removes the stale rows of every name and keeps the others, and
    that is the state of the table when the call returns with an error
    from a later step. *)
Theorem Acquire_sweeps_first :
  (forall (St : Type) (w : World St) (l : ptr) (v : Lessor.t St)
          (d : ExecerContext St) (ctx : context.Context) (name : string)
          (exp : time.Time),
     nth_error (lessors w) l = Some v -> Lessor.db v = Some d ->
     let c1 := mkCall ctx (sweepQ v) [sql.VTime (clock w)] in
     let swept :=
       ExecContext d ctx (sweepQ v) [sql.VTime (clock w)] (store w) in
     sweepQ v = "DELETE FROM " ++ tableOf v ++ " WHERE " ++ expOf v ++ " < $1" /\
     exists res w',
       Acquire l ctx name exp w = Done res w' /\
       (exists rest, sent w' = sent w ++ c1 :: rest)%list /\
       (forall e, snd (snd swept) = Some e ->
          res = (None, Some (errors.withMessage e "deleting stale leases")) /\
          sent w' = (sent w ++ [c1])%list /\ store w' = fst swept)) /\
  (forall (w : World refstore.t) (l : ptr) (v : Lessor.t refstore.t)
          (ctx : context.Context) (name : string) (exp : time.Time),
     nth_error (lessors w) l = Some v ->
     Lessor.db v = Some refstore.driver -> bound v (store w) ->
     exists res w',
       Acquire l ctx name exp w = Done res w' /\
       (forall r, In r (refstore.rows (store w)) ->
                  clock w <= refstore.exp r ->
                  In r (refstore.rows (store w'))) /\
       (forall r, In r (refstore.rows (store w')) ->
                  In r (refstore.rows (store w)) /\ clock w <= refstore.exp r \/
                  r = refstore.mkRow name exp (next_key w) /\ snd res = None) /\
       (snd res <> None ->
          refstore.rows (store w') =
            refstore.sweep (clock w) (refstore.rows (store w)))).
Proof.
  split.
  - intros St w l v d ctx name exp H Hd. cbv zeta. split; [reflexivity|].
    rewrite (Acquire_run _ _ _ _ _ _ _ H Hd). cbv zeta.
    destruct (snd (snd (ExecContext d ctx (sweepQ v) _ (store w)))) as [e1|].
    + do 2 eexists. split; [reflexivity|]. split.
      * exists []. reflexivity.
      * intros e [= <-]. repeat split.
    + destruct (snd (entropy w (drawn w))) as [e2|];
        (do 2 eexists; split; [reflexivity|]; split; [|discriminate]).
      * exists []. reflexivity.
      * eexists. cbn [sent record_call consume_entropy].
        rewrite <- app_assoc. reflexivity.
  - intros w l v ctx name exp H Hd Hb.
    rewrite (Acquire_on_refstore _ _ _ _ _ _ H Hd Hb). cbv zeta.
    destruct (snd (entropy w (drawn w))) as [e2|];
      [|destruct (refstore.unique_name (store w) && _)];
      (do 2 eexists; split; [reflexivity|]);
      cbn [store record_call consume_entropy refstore.rows refstore.with_rows snd].
    + repeat split.
      * intros r Hr Ht. apply In_sweep. auto.
      * intros r Hr. left. apply In_sweep. exact Hr.
    + repeat split.
      * intros r Hr Ht. apply In_sweep. auto.
      * intros r Hr. left. apply In_sweep. exact Hr.
    + split; [|split].
      * intros r Hr Ht. unfold refstore.insert. apply in_or_app. left.
        apply In_sweep. auto.
      * intros r Hr. unfold refstore.insert in Hr. apply in_app_or in Hr.
        destruct Hr as [Hr|[<-|[]]]; [left; apply In_sweep; exact Hr|].
        right. split; reflexivity.
      * intros C. exfalso. apply C. reflexivity.
Qed.

(** C4 on a table with a stale row of another name, at an [Acquire] whose
    insert fails: the stale row is gone, the held row remains. *)
Lemma Acquire_sweeps_first_witness :
  exists res w',
    Acquire 0%nat context.Background "job-1" 30
      (lease_world 10 [refstore.mkRow "job-0" 5 "old";
                       refstore.mkRow "job-1" 15 "held"]) = Done res w' /\
    snd res <> None /\
    refstore.rows (store w') = [refstore.mkRow "job-1" 15 "held"].
Proof.
  destruct (proj2 Acquire_sweeps_first
              (lease_world 10 [refstore.mkRow "job-0" 5 "old";
                               refstore.mkRow "job-1" 15 "held"])
              0%nat (Lessor.mk (Some refstore.driver) "" "" "" "")
              context.Background "job-1" 30 eq_refl eq_refl
              (conj eq_refl (conj eq_refl (conj eq_refl eq_refl))))
    as (res & w' & Hrun & _ & _ & Hkeep).
  exists res, w'.
  assert (Herr : snd res <> None).
  { vm_compute in Hrun. injection Hrun as <- _. discriminate. }
  split; [exact Hrun|]. split; [exact Herr|]. exact (Hkeep Herr).
Defined.

(** ** Acquire: a free name *)

(** C6, as stated, fails at a row that expires exactly now.  The lease is
    no longer unexpired: [Renew] on its handle is refused, the update
    asking for an expiration after the current time.  Yet the sweep, which
    asks for an expiration before the current time, leaves the row, and
    [Acquire] of the name returns the error of the insertion, the key
    having been drawn. *)
Lemma Acquire_blocked_by_row_expiring_now :
  match Renew (Lease.mk 0%nat "job-1" 10 "old") context.Background 30
              (lease_world 10 [refstore.mkRow "job-1" 10 "old"]) with
  | Done err w' =>
      err = errors.New "could not renew" /\
      refstore.rows (store w') = [refstore.mkRow "job-1" 10 "old"]
  | Panic => False
  end /\
  match Acquire 0%nat context.Background "job-1" 30
                (lease_world 10 [refstore.mkRow "job-1" 10 "old"]) with
  | Done (_, err) w' =>
      err = Some (errors.withMessage
                    (errors.fundamental "UNIQUE constraint failed")
                    "inserting into database") /\
      refstore.rows (store w') = [refstore.mkRow "job-1" 10 "old"] /\
      drawn w' = 1%nat
  | Panic => False
  end.
Proof. split; [split; reflexivity | split; [|split]; reflexivity]. Qed.

(** C6, amended: when every row of the requested name is stale (its
    expiration is before the current time, so that none is left by the
    sweep) and the key generation succeeds, [Acquire] on the reference
    store returns a nil error and a handle with the requested name and
    expiration whose key is the hex encoding of the 16-byte key array: 32
    characters, all hex digits; the row is in the table.  Against every
    capability, a failure of the random source after a successful sweep
    returns the wrapped error with only the sweep sent: no insert. *)
Theorem Acquire_free_name_succeeds :
  (forall (w : World refstore.t) (l : ptr) (v : Lessor.t refstore.t)
          (ctx : context.Context) (name : string) (exp : time.Time),
     nth_error (lessors w) l = Some v ->
     Lessor.db v = Some refstore.driver -> bound v (store w) ->
     snd (entropy w (drawn w)) = None ->
     (forall r, In r (refstore.rows (store w)) -> refstore.name r = name ->
                refstore.exp r < clock w) ->
     exists lease w',
       Acquire l ctx name exp w = Done (Some lease, None) w' /\
       Lease.Lessor lease = l /\ Lease.Name lease = name /\
       Lease.Exp lease = exp /\
       Lease.Key lease =
         hex.EncodeToString (fill16 (fst (entropy w (drawn w)))) /\
       List.length (fill16 (fst (entropy w (drawn w)))) = 16%nat /\
       String.length (Lease.Key lease) = 32%nat /\
       forallb hex.is_hex_char (list_ascii_of_string (Lease.Key lease)) = true /\
       In (refstore.mkRow name exp (Lease.Key lease))
          (refstore.rows (store w'))) /\
  (forall (St : Type) (w : World St) (l : ptr) (v : Lessor.t St)
          (d : ExecerContext St) (ctx : context.Context) (name : string)
          (exp : time.Time) (e : errors.error),
     nth_error (lessors w) l = Some v -> Lessor.db v = Some d ->
     let c1 := mkCall ctx (sweepQ v) [sql.VTime (clock w)] in
     let swept :=
       ExecContext d ctx (sweepQ v) [sql.VTime (clock w)] (store w) in
     snd (snd swept) = None -> snd (entropy w (drawn w)) = Some e ->
     exists w',
       Acquire l ctx name exp w =
         Done (None, Some (errors.withMessage e "computing key")) w' /\
       sent w' = (sent w ++ [c1])%list /\ store w' = fst swept).
Proof.
  split.
  - intros w l v ctx name exp H Hd Hb Hrand Hfree.
    rewrite (Acquire_on_refstore _ _ _ _ _ _ H Hd Hb). cbv zeta.
    rewrite Hrand.
    assert (Hnone : existsb (refstore.named name)
                      (refstore.sweep (clock w) (refstore.rows (store w))) = false).
    { apply existsb_named_false. intros r Hr Hn. apply In_sweep in Hr.
      destruct Hr as [Hr Ht]. specialize (Hfree r Hr Hn). lia. }
    rewrite Hnone, andb_false_r. do 2 eexists. split; [reflexivity|].
    cbn [Lease.Lessor Lease.Name Lease.Exp Lease.Key].
    destruct (next_key_shape w) as [Hlen Hhex].
    repeat split; try assumption.
    + apply fill16_length.
    + cbn [store record_call refstore.rows refstore.with_rows].
      unfold refstore.insert. apply in_or_app. right. left. reflexivity.
  - intros St w l v d ctx name exp e H Hd. cbv zeta. intros Hs Hr.
    rewrite (Acquire_run _ _ _ _ _ _ _ H Hd). cbv zeta. rewrite Hs, Hr.
    eexists. split; [reflexivity|]. split; reflexivity.
Qed.

(** C6 in scenario C: "job-1" was acquired with an expiration already
    past, and is acquired afresh. *)
Lemma Acquire_free_name_succeeds_witness :
  exists lease w',
    Acquire 0%nat context.Background "job-1" 30
      (lease_world 10 [refstore.mkRow "job-1" 5 "old"]) =
      Done (Some lease, None) w' /\
    Lease.Key lease = "0123456789abcdef1032547698badcfe" /\
    refstore.rows (store w') =
      [refstore.mkRow "job-1" 30 "0123456789abcdef1032547698badcfe"].
Proof.
  destruct (proj1 Acquire_free_name_succeeds
              (lease_world 10 [refstore.mkRow "job-1" 5 "old"]) 0%nat
              (Lessor.mk (Some refstore.driver) "" "" "" "")
              context.Background "job-1" 30 eq_refl eq_refl
              (conj eq_refl (conj eq_refl (conj eq_refl eq_refl))) eq_refl)
    as (lease & w' & Hrun & _ & _ & _ & Hkey & _).
  - intros r [<-|[]] _. reflexivity.
  - exists lease, w'. split; [exact Hrun|]. split; [exact Hkey|].
    vm_compute in Hrun. injection Hrun as _ <-. reflexivity.
Defined.

(** ** Release *)

(** C7: against every capability, [Release] sends the delete on the
    handle's name and key and, when the statement reports no error,
    returns nil without looking at the result (whatever its affected-row
    count, and even if there is no result).  On the reference store the
    first [Release] leaves no row with that name and key and removes no
    other row; a second [Release] of the same handle returns nil again and
    leaves the store as it found it. *)
Theorem Release_idempotent :
  (forall (St : Type) (w : World St) (h : Lease.t) (v : Lessor.t St)
          (d : ExecerContext St) (ctx : context.Context),
     nth_error (lessors w) (Lease.Lessor h) = Some v ->
     Lessor.db v = Some d ->
     let answer := ExecContext d ctx (deleteQ v) (deleteArgs h) (store w) in
     deleteQ v = "DELETE FROM " ++ tableOf v ++ " WHERE " ++ nameOf v
                   ++ " = $1 AND " ++ keyOf v ++ " = $2" /\
     deleteArgs h = [sql.VString (Lease.Name h); sql.VString (Lease.Key h)] /\
     (snd (snd answer) = None ->
        Release h ctx w =
          Done None
            (record_call (mkCall ctx (deleteQ v) (deleteArgs h))
                         (fst answer) w))) /\
  (forall (w : World refstore.t) (h : Lease.t) (v : Lessor.t refstore.t)
          (ctx ctx' : context.Context),
     nth_error (lessors w) (Lease.Lessor h) = Some v ->
     Lessor.db v = Some refstore.driver -> bound v (store w) ->
     exists w1 w2,
       Release h ctx w = Done None w1 /\
       (forall r, In r (refstore.rows (store w1)) <->
                  In r (refstore.rows (store w)) /\
                  ~ (refstore.name r = Lease.Name h /\
                     refstore.key r = Lease.Key h)) /\
       Release h ctx' w1 = Done None w2 /\
       store w2 = store w1).
Proof.
  split.
  - intros St w h v d ctx H Hd. cbv zeta. split; [reflexivity|].
    split; [reflexivity|]. intros Hok.
    rewrite (Release_run _ _ _ _ _ H Hd). cbv zeta. rewrite Hok. reflexivity.
  - intros w h v ctx ctx' H Hd Hb.
    rewrite (Release_on_refstore _ _ _ _ H Hd Hb).
    do 2 eexists. split; [reflexivity|]. split.
    + intros r. cbn [store record_call refstore.rows refstore.with_rows].
      apply In_release.
    + erewrite Release_on_refstore; [|exact H|exact Hd|exact Hb].
      split; [reflexivity|].
      cbn [store record_call refstore.rows refstore.with_rows].
      rewrite (release_none _ _ _ (count_release (Lease.Name h) (Lease.Key h)
                                     (refstore.rows (store w)))).
      reflexivity.
Qed.

(** C7 on a held lease, released twice. *)
Lemma Release_idempotent_witness :
  exists w1 w2,
    Release (Lease.mk 0%nat "job-1" 20 "K") context.Background
            (lease_world 10 [refstore.mkRow "job-1" 20 "K"]) = Done None w1 /\
    refstore.rows (store w1) = [] /\
    Release (Lease.mk 0%nat "job-1" 20 "K") context.Background w1 =
      Done None w2 /\
    store w2 = store w1.
Proof.
  destruct (proj2 Release_idempotent
              (lease_world 10 [refstore.mkRow "job-1" 20 "K"])
              (Lease.mk 0%nat "job-1" 20 "K")
              (Lessor.mk (Some refstore.driver) "" "" "" "")
              context.Background context.Background eq_refl eq_refl
              (conj eq_refl (conj eq_refl (conj eq_refl eq_refl))))
    as (w1 & w2 & Hrun1 & _ & Hrun2 & Hsame).
  exists w1, w2. split; [exact Hrun1|]. split; [|split; assumption].
  vm_compute in Hrun1. injection Hrun1 as <-. reflexivity.
Defined.

(** ** Context *)

(** C8, as stated, fails under a parent whose deadline is earlier than the
    lease's expiration: the child is a plain cancellable child of the
    parent, and its deadline is the parent's 5, not the lease's 20. *)
Lemma Context_deadline_differs_from_Exp :
  Context (Lease.mk 0%nat "job-1" 20 "K")
          (context.timerCtx context.Background 5) (stub_world unreachable) =
    Done (context.cancelCtx (context.timerCtx context.Background 5),
          context.mkCancel
            (context.cancelCtx (context.timerCtx context.Background 5)))
         (stub_world unreachable) /\
  context.Deadline (context.cancelCtx (context.timerCtx context.Background 5)) =
    Some 5 /\
  Lease.Exp (Lease.mk 0%nat "job-1" 20 "K") = 20.
Proof. repeat split. Qed.

(** C8, amended: [Lease.Context] returns a cancellable child of the parent
    whose deadline is the lease's [Exp] when the parent has no deadline or
    a deadline not before [Exp], and the parent's own deadline when that
    one is earlier; the world is left as it was: no statement is sent and
    neither the Lessor nor the store is consulted (a handle with a dangling
    Lessor is served as well). *)
Theorem Context_deadline_is_earlier_of_parent_and_Exp
    {St : Type} (w : World St) (l : Lease.t) (parent : context.Context) :
  exists c cancel,
    Context l parent w = Done (c, cancel) w /\
    context.parent_of c = Some parent /\
    context.cancels cancel = c /\
    context.Deadline c =
      Some (match context.Deadline parent with
            | Some cur => Z.min cur (Lease.Exp l)
            | None => Lease.Exp l
            end).
Proof.
  unfold Context, ret, context.WithDeadline, context.WithCancel, time.Before.
  destruct (context.Deadline parent) as [cur|] eqn:Hp.
  - destruct (cur <? Lease.Exp l) eqn:E.
    + apply Z.ltb_lt in E. do 2 eexists. split; [reflexivity|].
      repeat split. cbn [context.Deadline]. rewrite Hp. f_equal. lia.
    + apply Z.ltb_ge in E. do 2 eexists. split; [reflexivity|].
      repeat split. cbn [context.Deadline]. f_equal. lia.
  - do 2 eexists. split; [reflexivity|]. repeat split.
Qed.

(** ** The Lessor is read-only *)

(** C9: no operation writes to a Lessor.  [Acquire], [Renew] and [Release]
    leave every Lessor object as it was; [Context] and the four accessors
    leave the whole world as it was, an accessor answering with the
    default for an empty field without storing it. *)
Theorem Lessor_read_only {St : Type} (w : World St) :
  (forall l ctx name exp,
     match Acquire l ctx name exp w with
     | Done _ w' => lessors w' = lessors w
     | Panic => True
     end) /\
  (forall h ctx exp,
     match Renew h ctx exp w with
     | Done _ w' => lessors w' = lessors w
     | Panic => True
     end) /\
  (forall h ctx,
     match Release h ctx w with
     | Done _ w' => lessors w' = lessors w
     | Panic => True
     end) /\
  (forall h ctx,
     match Context h ctx w with
     | Done _ w' => w' = w
     | Panic => True
     end) /\
  (forall l,
     match tableName l w with
     | Done s w' =>
         w' = w /\
         exists v, nth_error (lessors w) l = Some v /\
           s = if (Lessor.Table v =? "")%string then "leases" else Lessor.Table v
     | Panic => True
     end) /\
  (forall l,
     match nameName l w with
     | Done s w' =>
         w' = w /\
         exists v, nth_error (lessors w) l = Some v /\
           s = if (Lessor.Name v =? "")%string then "name" else Lessor.Name v
     | Panic => True
     end) /\
  (forall l,
     match expName l w with
     | Done s w' =>
         w' = w /\
         exists v, nth_error (lessors w) l = Some v /\
           s = if (Lessor.Exp v =? "")%string then "exp" else Lessor.Exp v
     | Panic => True
     end) /\
  (forall l,
     match keyName l w with
     | Done s w' =>
         w' = w /\
         exists v, nth_error (lessors w) l = Some v /\
           s = if (Lessor.Key v =? "")%string then "key" else Lessor.Key v
     | Panic => True
     end).
Proof.
  repeat split.
  - intros. apply Acquire_leaves_lessors.
  - intros. apply Renew_leaves_lessors.
  - intros. apply Release_leaves_lessors.
  - intros l. apply (accessor_pure tableName tableOf).
    + intros. apply tableName_run. assumption.
    + intros. apply tableName_panic. assumption.
  - intros l. apply (accessor_pure nameName nameOf).
    + intros. apply nameName_run. assumption.
    + intros. apply nameName_panic. assumption.
  - intros l. apply (accessor_pure expName expOf).
    + intros. apply expName_run. assumption.
    + intros. apply expName_panic. assumption.
  - intros l. apply (accessor_pure keyName keyOf).
    + intros. apply keyName_run. assumption.
    + intros. apply keyName_panic. assumption.
Qed.

(** ** The boundary: a row that expires now *)

(** C10: a row whose expiration equals the current time survives the sweep
    of any [Acquire] made at that time, and a [Renew] at that time leaves
    it as it is; when it is the only row with its name and key (the name
    column is uniquely indexed, as the Lessor requires), [Renew] on its
    handle returns "could not renew" and the store is unchanged. *)
Theorem row_expiring_now_out_of_reach
    (w : World refstore.t) (l : ptr) (v : Lessor.t refstore.t)
    (ctx ctx' : context.Context) (name : string) (exp newExp : time.Time)
    (h : Lease.t) (r : refstore.Row) :
  nth_error (lessors w) l = Some v ->
  Lessor.db v = Some refstore.driver -> bound v (store w) ->
  In r (refstore.rows (store w)) -> refstore.exp r = clock w ->
  Lease.Lessor h = l -> Lease.Name h = refstore.name r ->
  Lease.Key h = refstore.key r ->
  (exists res w',
     Acquire l ctx name exp w = Done res w' /\
     In r (refstore.rows (store w'))) /\
  (exists err w',
     Renew h ctx' newExp w = Done err w' /\
     In r (refstore.rows (store w')) /\
     ((forall r', In r' (refstore.rows (store w)) ->
                  refstore.name r' = refstore.name r ->
                  refstore.key r' = refstore.key r -> r' = r) ->
      err = errors.New "could not renew" /\ store w' = store w)).
Proof.
  intros H Hd Hb Hr Hnow Hl Hn Hk. split.
  - rewrite (Acquire_on_refstore _ _ _ _ _ _ H Hd Hb). cbv zeta.
    assert (Hs : In r (refstore.sweep (clock w) (refstore.rows (store w))))
      by (apply In_sweep; split; [exact Hr|lia]).
    destruct (snd (entropy w (drawn w))) as [e2|];
      [|destruct (refstore.unique_name (store w) && _)];
      (do 2 eexists; split; [reflexivity|]);
      cbn [store record_call consume_entropy refstore.rows refstore.with_rows];
      try exact Hs.
    unfold refstore.insert. apply in_or_app. left. exact Hs.
  - subst l. rewrite (Renew_on_refstore _ _ _ _ _ H Hd Hb). cbv zeta.
    assert (Hnot : refstore.renewable (Lease.Name h) (Lease.Key h) (clock w) r
                   = false).
    { unfold refstore.renewable. rewrite Z.gtb_ltb.
      replace (clock w <? refstore.exp r) with false
        by (symmetry; apply Z.ltb_ge; lia).
      apply andb_false_r. }
    assert (Hin : In r (refstore.renew newExp (Lease.Name h) (Lease.Key h)
                          (clock w) (refstore.rows (store w)))).
    { unfold refstore.renew. apply in_map_iff. exists r. rewrite Hnot. auto. }
    destruct (refstore.count _ _ =? 0) eqn:E;
      (do 2 eexists; split; [reflexivity|]; split; [exact Hin|]).
    + apply Z.eqb_eq in E. intros _. split; [reflexivity|].
      cbn [store record_call]. rewrite (renew_none _ _ _ _ _ E).
      apply with_rows_same.
    + apply Z.eqb_neq in E. intros Huniq. exfalso.
      apply count_nonzero in E. destruct E as (r' & Hr' & Hp).
      assert (r' = r).
      { apply renewable_iff in Hp. apply Huniq; [exact Hr'| |]; intuition congruence. }
      subst r'. congruence.
Qed.

(** C10 at time 20 on the row of a lease that expires at 20. *)
Lemma row_expiring_now_out_of_reach_witness :
  (exists res w',
     Acquire 0%nat context.Background "job-2" 40
       (lease_world 20 [refstore.mkRow "job-1" 20 "K"]) = Done res w' /\
     In (refstore.mkRow "job-1" 20 "K") (refstore.rows (store w'))) /\
  (exists w',
     Renew (Lease.mk 0%nat "job-1" 20 "K") context.Background 40
       (lease_world 20 [refstore.mkRow "job-1" 20 "K"]) =
       Done (errors.New "could not renew") w' /\
     store w' = leases_table [refstore.mkRow "job-1" 20 "K"]).
Proof.
  destruct (row_expiring_now_out_of_reach
              (lease_world 20 [refstore.mkRow "job-1" 20 "K"]) 0%nat
              (Lessor.mk (Some refstore.driver) "" "" "" "")
              context.Background context.Background "job-2" 40 40
              (Lease.mk 0%nat "job-1" 20 "K") (refstore.mkRow "job-1" 20 "K")
              eq_refl eq_refl
              (conj eq_refl (conj eq_refl (conj eq_refl eq_refl)))
              (or_introl eq_refl) eq_refl eq_refl eq_refl eq_refl)
    as [Hacq (err & w' & Hrun & _ & Huniq)].
  split; [exact Hacq|].
  destruct Huniq as [-> Hsame].
  - intros r' [<-|[]] _ _. reflexivity.
  - exists w'. split; [exact Hrun|exact Hsame].
Defined.

(** ** Acquire as two round trips *)

Section TwoRoundTrips.
Context {St : Type}.
Implicit Types (w : World St) (v : Lessor.t St) (d : ExecerContext St).

(** A call to [Acquire] is its sweep followed, when the sweep reported no
    error, by its insert. *)
Lemma Acquire_as_steps w l ctx name exp :
  Acquire l ctx name exp w =
    match acquire_sweep l ctx w with
    | Panic => Panic
    | Done (Some e) w1 =>
        Done (None, errors.Wrap (Some e) "deleting stale leases") w1
    | Done None w1 => acquire_insert l ctx name exp w1
    end.
Proof.
  unfold Acquire, acquire_sweep, acquire_insert, bind. cbv zeta.
  destruct (tableName l w) as [|tn w1]; [reflexivity|].
  destruct (expName l w1) as [|en w2]; [reflexivity|].
  destruct (time_Now w2) as [|now w3]; [reflexivity|].
  destruct (execContext l ctx _ _ w3) as [|r w4]; [reflexivity|].
  unfold ret. destruct (snd r); reflexivity.
Qed.

Lemma acquire_sweep_run w l v d ctx :
  nth_error (lessors w) l = Some v -> Lessor.db v = Some d ->
  acquire_sweep l ctx w =
    let a1 := [sql.VTime (clock w)] in
    let r1 := ExecContext d ctx (sweepQ v) a1 (store w) in
    Done (snd (snd r1)) (record_call (mkCall ctx (sweepQ v) a1) (fst r1) w).
Proof.
  intros H Hd. unfold acquire_sweep. cbv zeta. do 4 run_step. reflexivity.
Qed.

Lemma acquire_insert_run w l v d ctx name exp :
  nth_error (lessors w) l = Some v -> Lessor.db v = Some d ->
  acquire_insert l ctx name exp w =
    match snd (entropy w (drawn w)) with
    | Some err =>
        Done (None, Some (errors.withMessage err "computing key"))
             (consume_entropy w)
    | None =>
        let a2 := insertArgs name exp (next_key w) in
        let r2 := ExecContext d ctx (insertQ v) a2 (store w) in
        Done (Some (Lease.mk l name exp (next_key w)),
              errors.Wrap (snd (snd r2)) "inserting into database")
             (record_call (mkCall ctx (insertQ v) a2) (fst r2)
                          (consume_entropy w))
    end.
Proof.
  intros H Hd. unfold acquire_insert. cbv zeta. run_step.
  cbn [snd fst]. destruct (snd (entropy w (drawn w))); [reflexivity|].
  do 5 run_step. reflexivity.
Qed.

End TwoRoundTrips.

(** ** Steps of an actor on the reference store *)

Section StepsOnRefstore.
Import refstore.
Implicit Types (d : refstore.t) (rs : list Row) (a : actor refstore.t).

Lemma step_sweeping d rs a :
  wired d a -> a_stage a = Sweeping ->
  exists w',
    step a (with_rows d rs) =
      (at_stage a w' Inserting,
       with_rows d (sweep (clock (a_world a)) rs)) /\
    same_process (a_world a) w' /\ drawn w' = drawn (a_world a).
Proof.
  intros (v & H & Hd & Hb) Hg. unfold step. rewrite Hg.
  erewrite acquire_sweep_run; [|exact H|exact Hd]. cbv zeta.
  cbn [ExecContext driver store with_store clock].
  rewrite (sweepQ_bound v (with_rows d rs) Hb), exec_sweep.
  cbn [fst snd ok]. eexists. split; [reflexivity|].
  repeat split.
Qed.

Lemma step_inserting d rs a :
  wired d a -> a_stage a = Inserting -> key_ready a ->
  exists w' lease,
    same_process (a_world a) w' /\
    step a (with_rows d rs) =
      if unique_name d && existsb (named (a_name a)) rs
      then (at_stage a w'
              (Returned (Some lease,
                         Some (errors.withMessage
                                 (errors.fundamental "UNIQUE constraint failed")
                                 "inserting into database"))),
            with_rows d rs)
      else (at_stage a w' (Returned (Some lease, None)),
            with_rows d (insert (a_name a) (a_exp a) (next_key (a_world a)) rs)).
Proof.
  intros (v & H & Hd & Hb) Hg Hk. unfold step. rewrite Hg.
  erewrite acquire_insert_run; [|exact H|exact Hd].
  unfold key_ready in Hk. cbn [with_store entropy drawn]. rewrite Hk.
  cbv zeta. cbn [ExecContext driver store with_store].
  rewrite (insertQ_bound v (with_rows d rs) Hb).
  change (next_key (with_store (with_rows d rs) (a_world a)))
    with (next_key (a_world a)).
  rewrite exec_insert. cbn [unique_name rows with_rows].
  destruct (unique_name d && _);
    (do 2 eexists; split; [|reflexivity]; repeat split).
Qed.

Lemma step_inserting_no_key d rs a e :
  wired d a -> a_stage a = Inserting ->
  snd (entropy (a_world a) (drawn (a_world a))) = Some e ->
  exists w',
    same_process (a_world a) w' /\
    step a (with_rows d rs) =
      (at_stage a w'
         (Returned (None, Some (errors.withMessage e "computing key"))),
       with_rows d rs).
Proof.
  intros (v & H & Hd & Hb) Hg Hk. unfold step. rewrite Hg.
  erewrite acquire_insert_run; [|exact H|exact Hd].
  cbn [with_store entropy drawn]. rewrite Hk.
  eexists. split; [|reflexivity]. repeat split.
Qed.

Lemma wired_same_process d a w' g :
  wired d a -> same_process (a_world a) w' -> wired d (at_stage a w' g).
Proof.
  intros (v & H & Hd & Hb) (Hl & _ & _). exists v.
  cbn [at_stage a_world a_lessor]. rewrite Hl. auto.
Qed.

End StepsOnRefstore.

(** ** Rows under contention *)

Section RowsUnderContention.
Import refstore.
Implicit Types (r : Row) (rs : list Row).

Lemma count_filter_le (p f : Row -> bool) rs :
  count p (filter f rs) <= count p rs.
Proof.
  unfold count. induction rs as [|a rs IH]; [reflexivity|].
  cbn [filter]. destruct (f a), (p a) eqn:E; cbn [filter List.length];
    rewrite ?E; cbn [List.length]; lia.
Qed.

Lemma count_insert p n e k rs :
  count p (insert n e k rs) =
    count p rs + (if p (mkRow n e k) then 1 else 0).
Proof.
  unfold count, insert. rewrite filter_app, length_app. cbn [filter].
  destruct (p (mkRow n e k)); cbn [List.length]; lia.
Qed.

Lemma absent_count n rs : absent n rs -> count (named n) rs = 0.
Proof.
  unfold absent. intros H. apply count_zero. intros r Hr.
  destruct (named n r) eqn:E; [|reflexivity].
  assert (existsb (named n) rs = true) by (apply existsb_exists; eauto).
  congruence.
Qed.

Lemma one_row_per_name_sweep now rs :
  one_row_per_name rs -> one_row_per_name (sweep now rs).
Proof.
  intros H n. unfold sweep.
  pose proof (count_filter_le (named n) (fun r => negb (stale now r)) rs).
  specialize (H n). lia.
Qed.

Lemma one_row_per_name_insert n e k rs :
  absent n rs -> one_row_per_name rs -> one_row_per_name (insert n e k rs).
Proof.
  intros Ha H m. rewrite count_insert. unfold named at 2. cbn [name].
  destruct (n =? m)%string eqn:E.
  - apply String.eqb_eq in E. subst m. rewrite (absent_count _ _ Ha). lia.
  - specialize (H m). lia.
Qed.

Lemma absent_sweep n now rs : absent n rs -> absent n (sweep now rs).
Proof.
  unfold absent. rewrite !existsb_named_false. intros H r Hr.
  apply In_sweep in Hr. apply H. tauto.
Qed.

Lemma all_stale_sweep n now rs : all_stale n now rs -> absent n (sweep now rs).
Proof.
  unfold absent, all_stale. rewrite existsb_named_false. intros H r Hr Hn.
  apply In_sweep in Hr. destruct Hr as [Hr Ht]. specialize (H r Hr Hn). lia.
Qed.

Lemma settled_sweep n now rs : settled n now rs -> settled n now (sweep now rs).
Proof.
  intros [He Hk]. split.
  - apply existsb_exists in He. destruct He as (r & Hr & Hn).
    apply existsb_exists. exists r. split; [|exact Hn].
    apply In_sweep. split; [exact Hr|]. apply Hk; [exact Hr|].
    apply named_iff. exact Hn.
  - intros r Hr. apply In_sweep in Hr. apply Hk. tauto.
Qed.

Lemma settled_insert n e k now rs :
  absent n rs -> now <= e -> settled n now (insert n e k rs).
Proof.
  unfold absent. rewrite existsb_named_false. intros Ha He. split.
  - apply existsb_exists. exists (mkRow n e k). split.
    + unfold insert. apply in_or_app. right. left. reflexivity.
    + apply named_iff. reflexivity.
  - intros r Hr Hn. unfold insert in Hr. apply in_app_or in Hr.
    destruct Hr as [Hr|[<-|[]]]; [|exact He].
    exfalso. exact (Ha r Hr Hn).
Qed.

End RowsUnderContention.

(** ** Schedules of two contenders *)

Section Schedules.
Import refstore.
Implicit Types (d : refstore.t) (rs : list Row) (a b : actor refstore.t)
  (y : system refstore.t).

(** With the unique index, a step of a wired actor keeps one row per name. *)
Lemma step_keeps_one_row_per_name d rs a :
  unique_name d = true -> wired d a -> one_row_per_name rs ->
  exists a' rs',
    step a (with_rows d rs) = (a', with_rows d rs') /\
    wired d a' /\ one_row_per_name rs'.
Proof.
  intros Hu Hw H1. destruct (a_stage a) eqn:Hg.
  - destruct (step_sweeping d rs a Hw Hg) as (w' & Hs & Hp & _).
    do 2 eexists. split; [exact Hs|]. split.
    + apply wired_same_process; assumption.
    + apply one_row_per_name_sweep, H1.
  - destruct (snd (entropy (a_world a) (drawn (a_world a)))) as [e|] eqn:Hk.
    + destruct (step_inserting_no_key d rs a e Hw Hg Hk) as (w' & Hp & Hs).
      do 2 eexists. split; [exact Hs|]. split; [|exact H1].
      apply wired_same_process; assumption.
    + destruct (step_inserting d rs a Hw Hg Hk) as (w' & lease & Hp & Hs).
      rewrite Hu in Hs. cbn [andb] in Hs.
      destruct (existsb (named (a_name a)) rs) eqn:He;
        (do 2 eexists; split; [exact Hs|]; split;
         [apply wired_same_process; assumption|]).
      * exact H1.
      * apply one_row_per_name_insert; assumption.
  - exists a, rs. unfold step. rewrite Hg. auto.
  - exists a, rs. unfold step. rewrite Hg. auto.
Qed.

Lemma run_keeps_one_row_per_name d sched : forall y rs,
  unique_name d = true -> wired d (actor1 y) -> wired d (actor2 y) ->
  shared y = with_rows d rs -> one_row_per_name rs ->
  exists rs', shared (run sched y) = with_rows d rs' /\ one_row_per_name rs'.
Proof.
  induction sched as [|t sched IH]; intros y rs Hu H1 H2 Hs Hr.
  - exists rs. auto.
  - cbn [run]. destruct t; unfold move; rewrite Hs.
    + destruct (step_keeps_one_row_per_name d rs _ Hu H1 Hr)
        as (a' & rs' & -> & Hw & Hr').
      apply (IH _ rs'); auto.
    + destruct (step_keeps_one_row_per_name d rs _ Hu H2 Hr)
        as (a' & rs' & -> & Hw & Hr').
      apply (IH _ rs'); auto.
Qed.

Lemma contention_inv_sym n now1 now2 g1 g2 rs :
  contention_inv n now1 now2 g1 g2 rs -> contention_inv n now2 now1 g2 g1 rs.
Proof.
  destruct g1 as [| |[l1 [e1|]]|], g2 as [| |[l2 [e2|]]|];
    cbn [contention_inv]; tauto.
Qed.

(** One round trip of a contender, whatever the stage of the other. *)
Lemma contender_step d n e now other g2 rs a :
  unique_name d = true -> other <= e ->
  in_call d n e now a -> contention_inv n now other (a_stage a) g2 rs ->
  exists a' rs',
    step a (with_rows d rs) = (a', with_rows d rs') /\
    in_call d n e now a' /\
    contention_inv n now other (a_stage a') g2 rs' /\
    remaining (a_stage a') = pred (remaining (a_stage a)).
Proof.
  intros Hu Hoe (Hw & Hn & He & Hc & Hk) Hinv.
  destruct (a_stage a) eqn:Hg.
  - destruct (step_sweeping d rs a Hw Hg) as (w' & Hs & Hp & Hdr).
    rewrite Hc in Hs. do 2 eexists. split; [exact Hs|].
    split; [|split; [|reflexivity]].
    + split; [apply wired_same_process; assumption|].
      destruct Hp as (Hl & Hcl & Hen).
      cbn [at_stage a_name a_exp a_world a_stage]. repeat split; try congruence.
      intros _. unfold key_ready. cbn [at_stage a_world].
      rewrite Hen, Hdr. apply Hk. discriminate.
    + cbn [at_stage a_stage].
      destruct g2 as [| |[l2 [e2|]]|]; cbn [contention_inv] in *;
        try contradiction.
      * apply all_stale_sweep. tauto.
      * apply absent_sweep. exact Hinv.
      * apply settled_sweep. exact Hinv.
  - assert (Hready : key_ready a) by (apply Hk; discriminate).
    destruct (step_inserting d rs a Hw Hg Hready) as (w' & lease & Hp & Hs).
    rewrite Hu, Hn, He in Hs. cbn [andb] in Hs.
    assert (Hcall : forall g, remaining g = 0%nat ->
                              in_call d n e now (at_stage a w' g)).
    { intros g Hz. split; [apply wired_same_process; assumption|].
      destruct Hp as (Hl & Hcl & Hen).
      cbn [at_stage a_name a_exp a_world a_stage].
      repeat split; congruence. }
    destruct g2 as [| |[l2 [e2|]]|]; cbn [contention_inv] in Hinv;
      try contradiction.
    + unfold absent in Hinv. rewrite Hinv in Hs.
      do 2 eexists. split; [exact Hs|]. split; [apply Hcall; reflexivity|].
      split; [|reflexivity]. cbn [at_stage a_stage contention_inv].
      apply settled_insert; assumption.
    + unfold absent in Hinv. rewrite Hinv in Hs.
      do 2 eexists. split; [exact Hs|]. split; [apply Hcall; reflexivity|].
      split; [|reflexivity]. cbn [at_stage a_stage contention_inv].
      apply settled_insert; assumption.
    + destruct Hinv as [Hex Hkeep]. rewrite Hex in Hs.
      do 2 eexists. split; [exact Hs|]. split; [apply Hcall; reflexivity|].
      split; [|reflexivity]. cbn [at_stage a_stage contention_inv]. exact I.
  - exists a, rs. unfold step, in_call. rewrite !Hg.
    split; [reflexivity|]. split; [|split; [exact Hinv|reflexivity]].
    repeat split; assumption.
  - cbn [contention_inv] in Hinv. contradiction.
Qed.

Lemma turns_of_cons_same t sched :
  turns_of t (t :: sched) = S (turns_of t sched).
Proof. destruct t; reflexivity. Qed.

Lemma turns_of_First_Second sched :
  turns_of First (Second :: sched) = turns_of First sched.
Proof. reflexivity. Qed.

Lemma turns_of_Second_First sched :
  turns_of Second (First :: sched) = turns_of Second sched.
Proof. reflexivity. Qed.

(** Both contenders have returned once each had its two turns. *)
Lemma run_contention d n e1 e2 now1 now2 sched : forall y rs,
  unique_name d = true -> now2 <= e1 -> now1 <= e2 ->
  in_call d n e1 now1 (actor1 y) -> in_call d n e2 now2 (actor2 y) ->
  shared y = with_rows d rs ->
  contention_inv n now1 now2 (a_stage (actor1 y)) (a_stage (actor2 y)) rs ->
  (remaining (a_stage (actor1 y)) <= turns_of First sched)%nat ->
  (remaining (a_stage (actor2 y)) <= turns_of Second sched)%nat ->
  exists rs',
    contention_inv n now1 now2 (a_stage (actor1 (run sched y)))
                   (a_stage (actor2 (run sched y))) rs' /\
    remaining (a_stage (actor1 (run sched y))) = 0%nat /\
    remaining (a_stage (actor2 (run sched y))) = 0%nat.
Proof.
  induction sched as [|t sched IH]; intros y rs Hu H21 H12 Hc1 Hc2 Hs Hinv Hr1 Hr2.
  - cbn [run]. exists rs. cbn in Hr1, Hr2. split; [exact Hinv|]. lia.
  - cbn [run]. destruct t; unfold move; rewrite Hs.
    + destruct (contender_step d n e1 now1 now2 _ rs _ Hu H21 Hc1 Hinv)
        as (a' & rs' & -> & Hc' & Hinv' & Hrem).
      rewrite turns_of_cons_same in Hr1. rewrite turns_of_Second_First in Hr2.
      apply (IH _ rs'); cbn [actor1 actor2 shared]; auto. lia.
    + apply contention_inv_sym in Hinv.
      destruct (contender_step d n e2 now2 now1 _ rs _ Hu H12 Hc2 Hinv)
        as (a' & rs' & -> & Hc' & Hinv' & Hrem).
      apply contention_inv_sym in Hinv'.
      rewrite turns_of_cons_same in Hr2. rewrite turns_of_First_Second in Hr1.
      apply (IH _ rs'); cbn [actor1 actor2 shared]; auto. lia.
Qed.

End Schedules.

(** An actor left alone makes the two round trips of one [Acquire]. *)
Lemma with_store_same {St : Type} (w : World St) : with_store (store w) w = w.
Proof. destruct w; reflexivity. Qed.

Lemma two_steps_are_Acquire {St : Type} (a : actor St) (s : St) :
  a_stage a = Sweeping ->
  match Acquire (a_lessor a) (a_ctx a) (a_name a) (a_exp a)
                (with_store s (a_world a)) with
  | Panic => a_stage (fst (step (fst (step a s)) (snd (step a s)))) = Panicked
  | Done res w' =>
      step (fst (step a s)) (snd (step a s)) =
        (at_stage a w' (Returned res), store w')
  end.
Proof.
  intros Hg. rewrite Acquire_as_steps.
  assert (E : step a s =
              match acquire_sweep (a_lessor a) (a_ctx a)
                                  (with_store s (a_world a)) with
              | Panic => (at_stage a (a_world a) Panicked, s)
              | Done (Some e) w' =>
                  (at_stage a w'
                     (Returned (None, errors.Wrap (Some e)
                                                  "deleting stale leases")),
                   store w')
              | Done None w' => (at_stage a w' Inserting, store w')
              end)
    by (unfold step; rewrite Hg; reflexivity).
  rewrite E. clear E.
  destruct (acquire_sweep _ _ _) as [|[e|] w1]; cbn [fst snd].
  - unfold step. cbn [at_stage a_stage]. reflexivity.
  - unfold step. cbn [at_stage a_stage]. reflexivity.
  - unfold step. cbn [at_stage a_stage a_lessor a_ctx a_name a_exp a_world].
    rewrite with_store_same.
    destruct (acquire_insert _ _ _ _ w1); reflexivity.
Qed.

(** ** Two actors, one name *)

(** C5, as stated, fails both ways on the store with the unique index.
    When the first actor asks for an expiration that the second actor's
    sweep finds stale, both inserts succeed, one after the other; when a
    third party holds the name, neither insert succeeds. *)
Lemma Acquire_contention_not_exactly_one :
  (let y := run [First; First; Second; Second]
              (contenders (contender "job-1" 5 10) (contender "job-1" 30 10)
                          (leases_table [])) in
   a_stage (actor1 y) =
     Returned (Some (Lease.mk 0%nat "job-1" 5 "0123456789abcdef1032547698badcfe"),
               None) /\
   a_stage (actor2 y) =
     Returned (Some (Lease.mk 0%nat "job-1" 30 "0123456789abcdef1032547698badcfe"),
               None)) /\
  (let y := run [First; Second; First; Second]
              (contenders (contender "job-1" 30 10) (contender "job-1" 40 10)
                          (leases_table [refstore.mkRow "job-1" 50 "held"])) in
   failed (actor1 y) /\ failed (actor2 y)).
Proof.
  split; cbv zeta; split; try reflexivity.
  - do 2 eexists. reflexivity.
  - do 2 eexists. reflexivity.
Qed.

(** C5, amended: two actors call [Acquire] for the same name on a store
    that enforces the unique index, their statements reaching the store in
    any order.  At no point does the table hold two rows of one name.  When
    in addition every row of the name is stale for both actors beforehand,
    neither requested expiration is before the other actor's sweep time,
    and both keys can be drawn, then once both calls have made their two
    round trips exactly one has returned a nil error and the other an
    error. *)
Theorem Acquire_contention
    (d : refstore.t) (a b : actor refstore.t) (n : string)
    (sched : list turn) :
  refstore.unique_name d = true ->
  wired d a -> wired d b ->
  a_stage a = Sweeping -> a_stage b = Sweeping ->
  a_name a = n -> a_name b = n ->
  let y := run sched (contenders a b d) in
  (one_row_per_name (refstore.rows d) ->
   one_row_per_name (refstore.rows (shared y))) /\
  (key_ready a -> key_ready b ->
   all_stale n (clock (a_world a)) (refstore.rows d) ->
   all_stale n (clock (a_world b)) (refstore.rows d) ->
   clock (a_world b) <= a_exp a -> clock (a_world a) <= a_exp b ->
   (2 <= turns_of First sched)%nat -> (2 <= turns_of Second sched)%nat ->
   (succeeded (actor1 y) /\ failed (actor2 y)) \/
   (failed (actor1 y) /\ succeeded (actor2 y))).
Proof.
  intros Hu Ha Hb Hga Hgb Hna Hnb. cbv zeta.
  assert (Hd : shared (contenders a b d) =
               refstore.with_rows d (refstore.rows d))
    by (symmetry; apply with_rows_same).
  split.
  - intros H1.
    destruct (run_keeps_one_row_per_name d sched (contenders a b d)
                (refstore.rows d) Hu Ha Hb Hd H1) as (rs' & -> & H1').
    exact H1'.
  - intros Hka Hkb Hsa Hsb Hea Heb Hta Htb.
    destruct (run_contention d n (a_exp a) (a_exp b) (clock (a_world a))
                (clock (a_world b)) sched (contenders a b d) (refstore.rows d)
                Hu Hea Heb)
      as (rs' & Hinv & Hr1 & Hr2).
    + repeat split; auto.
    + repeat split; auto.
    + exact Hd.
    + cbn [contenders actor1 actor2]. rewrite Hga, Hgb. split; assumption.
    + cbn [contenders actor1]. rewrite Hga. exact Hta.
    + cbn [contenders actor2]. rewrite Hgb. exact Htb.
    + unfold succeeded, failed.
      destruct (a_stage (actor1 (run sched (contenders a b d))))
        as [| |[l1 [e1|]]|];
        destruct (a_stage (actor2 (run sched (contenders a b d))))
          as [| |[l2 [e2|]]|];
        cbn [contention_inv remaining] in Hinv, Hr1, Hr2;
        try contradiction; try discriminate.
      * right. split; [exists l1, e1|exists l2]; reflexivity.
      * left. split; [exists l1|exists l2, e2]; reflexivity.
Qed.

(** The amended C5 on a free name, the two calls interleaved. *)
Lemma Acquire_contention_witness :
  let y := run [First; Second; Second; First]
             (contenders (contender "job-1" 30 10) (contender "job-1" 40 12)
                         (leases_table [refstore.mkRow "job-1" 5 "old"])) in
  one_row_per_name (refstore.rows (shared y)) /\
  ((succeeded (actor1 y) /\ failed (actor2 y)) \/
   (failed (actor1 y) /\ succeeded (actor2 y))).
Proof.
  cbv zeta.
  assert (Hw : forall e now,
             wired (leases_table [refstore.mkRow "job-1" 5 "old"])
                   (contender "job-1" e now)).
  { intros e now. exists (Lessor.mk (Some refstore.driver) "" "" "" "").
    repeat split. }
  assert (H1 : one_row_per_name [refstore.mkRow "job-1" 5 "old"]).
  { apply (one_row_per_name_insert "job-1" 5 "old" []); [reflexivity|].
    intros m. discriminate. }
  assert (Hs : forall now, 5 < now ->
             all_stale "job-1" now [refstore.mkRow "job-1" 5 "old"]).
  { intros now Hnow r [<-|[]] _. exact Hnow. }
  destruct (Acquire_contention
              (leases_table [refstore.mkRow "job-1" 5 "old"])
              (contender "job-1" 30 10) (contender "job-1" 40 12) "job-1"
              [First; Second; Second; First]
              eq_refl (Hw 30 10) (Hw 40 12) eq_refl eq_refl eq_refl eq_refl)
    as [Hone Hexactly].
  split.
  - exact (Hone H1).
  - apply Hexactly;
      first [reflexivity | apply Hs; reflexivity | cbn; lia].
Defined.

(** ** A lease through its life: acquire, renew, release *)

Section LeaseLifeCycle.
Import refstore.
Implicit Types (w : World refstore.t) (v : Lessor.t refstore.t)
  (r : Row) (rs : list Row).

Lemma count_app p rs rs' : count p (rs ++ rs')%list = count p rs + count p rs'.
Proof. unfold count. rewrite filter_app, length_app. lia. Qed.

Lemma absent_not_named n rs r : absent n rs -> In r rs -> named n r = false.
Proof.
  unfold absent. intros Ha Hr. destruct (named n r) eqn:E; [|reflexivity].
  assert (existsb (named n) rs = true) by (apply existsb_exists; eauto).
  congruence.
Qed.

Lemma count_renewable_absent n k now rs :
  absent n rs -> count (renewable n k now) rs = 0.
Proof.
  intros Ha. apply count_zero. intros r Hr. unfold renewable.
  pose proof (absent_not_named _ _ _ Ha Hr) as Hn. unfold named in Hn.
  rewrite Hn. reflexivity.
Qed.

Lemma count_held_by_absent n k rs : absent n rs -> count (held_by n k) rs = 0.
Proof.
  intros Ha. apply count_zero. intros r Hr. unfold held_by.
  pose proof (absent_not_named _ _ _ Ha Hr) as Hn. unfold named in Hn.
  rewrite Hn. reflexivity.
Qed.

Lemma release_insert n e k rs :
  absent n rs -> release n k (insert n e k rs) = rs.
Proof.
  intros Ha. unfold release, insert. rewrite filter_app. cbn [filter].
  unfold held_by at 2. cbn [name key]. rewrite !String.eqb_refl. cbn [andb negb].
  rewrite app_nil_r. apply release_none, count_held_by_absent, Ha.
Qed.

Lemma count_renew_named m e n k now rs :
  count (named m) (renew e n k now rs) = count (named m) rs.
Proof.
  unfold count, renew. induction rs as [|a rs IH]; [reflexivity|].
  cbn [map filter].
  assert (E : named m (if renewable n k now a then mkRow (name a) e (key a) else a)
              = named m a) by (destruct (renewable n k now a); reflexivity).
  rewrite E. destruct (named m a); cbn [List.length]; lia.
Qed.

Lemma one_row_per_name_release n k rs :
  one_row_per_name rs -> one_row_per_name (release n k rs).
Proof.
  intros H m. unfold release.
  pose proof (count_filter_le (named m) (fun r => negb (held_by n k r)) rs).
  specialize (H m). lia.
Qed.

(** What a successful [Acquire] leaves on a store with the unique index. *)
Lemma Acquire_success_shape w l v ctx n e h w1 :
  nth_error (lessors w) l = Some v -> Lessor.db v = Some driver ->
  bound v (store w) -> unique_name (store w) = true ->
  Acquire l ctx n e w = Done (Some h, None) w1 ->
  h = Lease.mk l n e (next_key w) /\
  absent n (sweep (clock w) (rows (store w))) /\
  store w1 = with_rows (store w)
               (insert n e (next_key w) (sweep (clock w) (rows (store w)))) /\
  lessors w1 = lessors w /\ entropy w1 = entropy w /\
  drawn w1 = S (drawn w).
Proof.
  intros H Hd Hb Hu. rewrite (Acquire_on_refstore _ _ _ _ _ _ H Hd Hb).
  cbv zeta. rewrite Hu. cbn [andb].
  destruct (snd (entropy w (drawn w))); [discriminate|].
  destruct (existsb (named n) _) eqn:E; [discriminate|].
  intros [= <- <-]. repeat split. exact E.
Qed.

End LeaseLifeCycle.

(** X1: on a store with the unique index, the handle a successful
    [Acquire] returned renews at a later time [t] exactly when [t] is
    before the expiration it was acquired with; the lease's row then
    carries the new expiration and every other row is as the sweep left
    it, and a refused renewal leaves the store as it was. *)
Theorem Acquire_then_Renew
    (w w1 : World refstore.t) (l : ptr) (v : Lessor.t refstore.t)
    (ctx ctx' : context.Context) (n : string) (e e' t : time.Time)
    (h : Lease.t) :
  nth_error (lessors w) l = Some v ->
  Lessor.db v = Some refstore.driver -> bound v (store w) ->
  refstore.unique_name (store w) = true ->
  Acquire l ctx n e w = Done (Some h, None) w1 ->
  exists err w2,
    Renew h ctx' e' (at_time t w1) = Done err w2 /\
    (err = None <-> t < e) /\
    (err = None ->
       refstore.rows (store w2) =
         (refstore.sweep (clock w) (refstore.rows (store w))
            ++ [refstore.mkRow n e' (Lease.Key h)])%list) /\
    (err <> None ->
       err = errors.New "could not renew" /\ store w2 = store w1).
Proof.
  intros H Hd Hb Hu Hacq.
  destruct (Acquire_success_shape _ _ _ _ _ _ _ _ H Hd Hb Hu Hacq)
    as (-> & Habs & Hst & Hl & _ & _).
  assert (H1 : nth_error (lessors (at_time t w1))
                 (Lease.Lessor (Lease.mk l n e (next_key w))) = Some v)
    by (cbn [at_time lessors Lease.Lessor]; rewrite Hl; exact H).
  assert (Hb1 : bound v (store (at_time t w1)))
    by (cbn [at_time store]; rewrite Hst; exact Hb).
  rewrite (Renew_on_refstore _ _ _ _ _ H1 Hd Hb1). cbv zeta.
  cbn [at_time store clock Lease.Name Lease.Key]. rewrite Hst.
  cbn [refstore.rows refstore.with_rows].
  set (swept := refstore.sweep (clock w) (refstore.rows (store w))) in *.
  assert (Hc : refstore.count (refstore.renewable n (next_key w) t)
                 (refstore.insert n e (next_key w) swept) =
               if t <? e then 1 else 0).
  { rewrite count_insert, (count_renewable_absent _ _ _ _ Habs).
    unfold refstore.renewable. cbn [refstore.name refstore.key refstore.exp].
    rewrite !String.eqb_refl, Z.gtb_ltb. cbn [andb].
    destruct (t <? e); reflexivity. }
  rewrite Hc. destruct (t <? e) eqn:E.
  - apply Z.ltb_lt in E. cbn [Z.eqb]. do 2 eexists. split; [reflexivity|].
    split; [tauto|]. split; [|intros C; exfalso; apply C; reflexivity].
    intros _. cbn [store record_call refstore.rows refstore.with_rows].
    assert (Hren : refstore.renew e' n (next_key w) t
                     (refstore.insert n e (next_key w) swept) =
                   (swept ++ [refstore.mkRow n e' (next_key w)])%list).
    { unfold refstore.renew, refstore.insert. rewrite map_app. cbn [map].
      unfold refstore.renewable at 2.
      cbn [refstore.name refstore.key refstore.exp].
      rewrite !String.eqb_refl, Z.gtb_ltb.
      replace (t <? e) with true by (symmetry; apply Z.ltb_lt; exact E).
      cbn [andb]. f_equal.
      apply (renew_none e' n (next_key w) t swept).
      apply count_renewable_absent, Habs. }
    exact Hren.
  - apply Z.ltb_ge in E. cbn [Z.eqb]. do 2 eexists. split; [reflexivity|].
    split; [split; [discriminate|lia]|]. split; [discriminate|].
    intros _. split; [reflexivity|]. cbn [store record_call].
    rewrite renew_none.
    + reflexivity.
    + rewrite Hc. replace (t <? e) with false by (symmetry; apply Z.ltb_ge; lia).
      reflexivity.
Qed.

(** X1 at the lease of scenario A: acquired until 10, renewed at 9. *)
Lemma Acquire_then_Renew_witness :
  exists h w1 w2,
    Acquire 0%nat context.Background "job-1" 10 (lease_world 0 []) =
      Done (Some h, None) w1 /\
    Renew h context.Background 20 (at_time 9 w1) = Done None w2 /\
    refstore.rows (store w2) = [refstore.mkRow "job-1" 20 (Lease.Key h)].
Proof.
  destruct (Acquire 0%nat context.Background "job-1" 10 (lease_world 0 []))
    as [|[[h|] [e|]] w1] eqn:Hacq; try (vm_compute in Hacq; discriminate Hacq).
  destruct (Acquire_then_Renew (lease_world 0 []) w1 0%nat
              (Lessor.mk (Some refstore.driver) "" "" "" "")
              context.Background context.Background "job-1" 10 20 9 h
              eq_refl eq_refl
              (conj eq_refl (conj eq_refl (conj eq_refl eq_refl)))
              eq_refl Hacq)
    as (err & w2 & Hrun & Hiff & Hok & _).
  assert (Hnil : err = None) by (apply Hiff; reflexivity).
  subst err. exists h, w1, w2. split; [reflexivity|].
  split; [exact Hrun|]. exact (Hok eq_refl).
Defined.

(** X2: on a store with the unique index, releasing the handle a
    successful [Acquire] returned removes the lease's row and nothing else,
    whatever the time, and the name can then be acquired again at once,
    also before the first expiration. *)
Theorem Acquire_Release_Acquire
    (w w1 : World refstore.t) (l : ptr) (v : Lessor.t refstore.t)
    (ctx ctx' ctx'' : context.Context) (n : string) (e e2 t t2 : time.Time)
    (h : Lease.t) :
  nth_error (lessors w) l = Some v ->
  Lessor.db v = Some refstore.driver -> bound v (store w) ->
  refstore.unique_name (store w) = true ->
  snd (entropy w (S (drawn w))) = None ->
  Acquire l ctx n e w = Done (Some h, None) w1 ->
  exists w2 h2 w3,
    Release h ctx' (at_time t w1) = Done None w2 /\
    refstore.rows (store w2) =
      refstore.sweep (clock w) (refstore.rows (store w)) /\
    Acquire l ctx'' n e2 (at_time t2 w2) = Done (Some h2, None) w3 /\
    In (refstore.mkRow n e2 (Lease.Key h2)) (refstore.rows (store w3)).
Proof.
  intros H Hd Hb Hu Hrand Hacq.
  destruct (Acquire_success_shape _ _ _ _ _ _ _ _ H Hd Hb Hu Hacq)
    as (-> & Habs & Hst & Hl & Hen & Hdr).
  assert (H1 : nth_error (lessors (at_time t w1))
                 (Lease.Lessor (Lease.mk l n e (next_key w))) = Some v)
    by (cbn [at_time lessors Lease.Lessor]; rewrite Hl; exact H).
  assert (Hb1 : bound v (store (at_time t w1)))
    by (cbn [at_time store]; rewrite Hst; exact Hb).
  rewrite (Release_on_refstore _ _ _ _ H1 Hd Hb1).
  cbn [at_time store Lease.Name Lease.Key]. rewrite Hst.
  cbn [refstore.rows refstore.with_rows].
  rewrite (release_insert _ _ _ _ Habs).
  set (swept := refstore.sweep (clock w) (refstore.rows (store w))) in *.
  eexists. exists (Lease.mk l n e2 (next_key (consume_entropy w))).
  eexists. split; [reflexivity|]. split; [reflexivity|].
  match goal with
  | |- Acquire _ _ _ _ (at_time _ ?x) = _ /\ _ => set (w2 := x)
  end.
  assert (H2 : nth_error (lessors (at_time t2 w2)) l = Some v)
    by (cbn [at_time lessors w2 record_call]; rewrite Hl; exact H).
  assert (Hb2 : bound v (store (at_time t2 w2))) by exact Hb.
  rewrite (Acquire_on_refstore _ _ _ _ _ _ H2 Hd Hb2). cbv zeta.
  assert (Hk : next_key (at_time t2 w2) = next_key (consume_entropy w)).
  { unfold next_key. cbn [at_time entropy drawn w2 record_call consume_entropy].
    rewrite Hen, Hdr. reflexivity. }
  rewrite Hk.
  cbn [at_time entropy drawn w2 record_call store clock
       refstore.rows refstore.with_rows refstore.unique_name].
  rewrite Hen, Hdr, Hrand.
  assert (Ha2 : existsb (refstore.named n) (refstore.sweep t2 swept) = false)
    by (apply absent_sweep; exact Habs).
  rewrite Ha2, andb_false_r.
  split; [reflexivity|].
  cbn [store record_call refstore.rows refstore.with_rows Lease.Key].
  unfold refstore.insert. apply in_or_app. right. left. reflexivity.
Qed.

(** X2 on a lease released at time 3, long before its expiration 10. *)
Lemma Acquire_Release_Acquire_witness :
  exists h w1 w2 h2 w3,
    Acquire 0%nat context.Background "job-1" 10 (lease_world 0 []) =
      Done (Some h, None) w1 /\
    Release h context.Background (at_time 3 w1) = Done None w2 /\
    refstore.rows (store w2) = [] /\
    Acquire 0%nat context.Background "job-1" 15 (at_time 4 w2) =
      Done (Some h2, None) w3.
Proof.
  destruct (Acquire 0%nat context.Background "job-1" 10 (lease_world 0 []))
    as [|[[h|] [e|]] w1] eqn:Hacq; try (vm_compute in Hacq; discriminate Hacq).
  destruct (Acquire_Release_Acquire (lease_world 0 []) w1 0%nat
              (Lessor.mk (Some refstore.driver) "" "" "" "")
              context.Background context.Background context.Background
              "job-1" 10 15 3 4 h eq_refl eq_refl
              (conj eq_refl (conj eq_refl (conj eq_refl eq_refl)))
              eq_refl eq_refl Hacq)
    as (w2 & h2 & w3 & Hrel & Hrows & Hacq2 & _).
  exists h, w1, w2, h2, w3. split; [reflexivity|]. split; [exact Hrel|].
  split; [exact Hrows|exact Hacq2].
Defined.

(** X3: on a store with the unique index and with a key to draw,
    [Acquire] returns an error exactly when the table holds a row of the
    name that is not yet stale (expiration at or after the current time),
    whatever expiration is asked for; the table is then just the swept
    one, the holder's row included, and the handle is returned all the
    same. *)
Theorem Acquire_fails_iff_name_held
    (w : World refstore.t) (l : ptr) (v : Lessor.t refstore.t)
    (ctx : context.Context) (n : string) (e : time.Time) :
  nth_error (lessors w) l = Some v ->
  Lessor.db v = Some refstore.driver -> bound v (store w) ->
  refstore.unique_name (store w) = true ->
  snd (entropy w (drawn w)) = None ->
  exists err w',
    Acquire l ctx n e w =
      Done (Some (Lease.mk l n e (next_key w)), err) w' /\
    (err <> None <->
       exists r, In r (refstore.rows (store w)) /\ refstore.name r = n /\
                 clock w <= refstore.exp r) /\
    (err <> None ->
       err = Some (errors.withMessage
                     (errors.fundamental "UNIQUE constraint failed")
                     "inserting into database") /\
       refstore.rows (store w') =
         refstore.sweep (clock w) (refstore.rows (store w))).
Proof.
  intros H Hd Hb Hu Hrand.
  rewrite (Acquire_on_refstore _ _ _ _ _ _ H Hd Hb). cbv zeta.
  rewrite Hrand, Hu. cbn [andb].
  destruct (existsb (refstore.named n) _) eqn:E.
  - do 2 eexists. split; [reflexivity|]. split.
    + split; [|discriminate]. intros _.
      apply existsb_exists in E. destruct E as (r & Hr & Hn).
      apply In_sweep in Hr. apply named_iff in Hn. exists r. tauto.
    + intros _. split; reflexivity.
  - do 2 eexists. split; [reflexivity|]. split.
    + split; [intros C; exfalso; apply C; reflexivity|].
      intros (r & Hr & Hn & Ht). exfalso.
      rewrite existsb_named_false in E. apply (E r); [|exact Hn].
      apply In_sweep. auto.
    + intros C. exfalso. apply C. reflexivity.
Qed.

(** X3 in scenario B: the name is held until 10, and asked for at 3. *)
Lemma Acquire_fails_iff_name_held_witness :
  exists err w',
    Acquire 0%nat context.Background "job-1" 15
      (lease_world 3 [refstore.mkRow "job-1" 10 "K"]) =
      Done (Some (Lease.mk 0%nat "job-1" 15
                    "0123456789abcdef1032547698badcfe"), err) w' /\
    err <> None /\
    refstore.rows (store w') = [refstore.mkRow "job-1" 10 "K"].
Proof.
  destruct (Acquire_fails_iff_name_held
              (lease_world 3 [refstore.mkRow "job-1" 10 "K"]) 0%nat
              (Lessor.mk (Some refstore.driver) "" "" "" "")
              context.Background "job-1" 15 eq_refl eq_refl
              (conj eq_refl (conj eq_refl (conj eq_refl eq_refl)))
              eq_refl eq_refl)
    as (err & w' & Hrun & Hiff & Hheld).
  assert (Herr : err <> None).
  { apply Hiff. exists (refstore.mkRow "job-1" 10 "K").
    split; [left; reflexivity|]. split; [reflexivity|]. cbn. lia. }
  exists err, w'. split; [exact Hrun|]. split; [exact Herr|].
  exact (proj2 (Hheld Herr)).
Defined.

(** X4: on a store with the unique index, [Acquire], [Renew] and
    [Release] each leave at most one row per name when they found at most
    one row per name, whatever they return. *)
Theorem operations_keep_one_row_per_name
    (w : World refstore.t) (l : ptr) (v : Lessor.t refstore.t)
    (ctx : context.Context) (n : string) (e : time.Time) (h : Lease.t) :
  nth_error (lessors w) l = Some v -> Lease.Lessor h = l ->
  Lessor.db v = Some refstore.driver -> bound v (store w) ->
  refstore.unique_name (store w) = true ->
  one_row_per_name (refstore.rows (store w)) ->
  (exists res w', Acquire l ctx n e w = Done res w' /\
                  one_row_per_name (refstore.rows (store w'))) /\
  (exists err w', Renew h ctx e w = Done err w' /\
                  one_row_per_name (refstore.rows (store w'))) /\
  (exists err w', Release h ctx w = Done err w' /\
                  one_row_per_name (refstore.rows (store w'))).
Proof.
  intros H Hl Hd Hb Hu H1. subst l. split; [|split].
  - rewrite (Acquire_on_refstore _ _ _ _ _ _ H Hd Hb). cbv zeta.
    rewrite Hu. cbn [andb].
    pose proof (one_row_per_name_sweep (clock w) _ H1) as Hs.
    destruct (snd (entropy w (drawn w)));
      [|destruct (existsb (refstore.named n) _) eqn:E];
      (do 2 eexists; split; [reflexivity|]);
      cbn [store record_call consume_entropy refstore.rows refstore.with_rows];
      try exact Hs.
    apply one_row_per_name_insert; assumption.
  - rewrite (Renew_on_refstore _ _ _ _ _ H Hd Hb). cbv zeta.
    destruct (refstore.count _ _ =? 0);
      (do 2 eexists; split; [reflexivity|]);
      cbn [store record_call refstore.rows refstore.with_rows];
      intros m; rewrite count_renew_named; apply H1.
  - rewrite (Release_on_refstore _ _ _ _ H Hd Hb).
    do 2 eexists. split; [reflexivity|].
    cbn [store record_call refstore.rows refstore.with_rows].
    apply one_row_per_name_release, H1.
Qed.

(** X4 on a table with one held lease. *)
Lemma operations_keep_one_row_per_name_witness :
  exists res w',
    Acquire 0%nat context.Background "job-2" 30
      (lease_world 3 [refstore.mkRow "job-1" 10 "K"]) = Done res w' /\
    one_row_per_name (refstore.rows (store w')).
Proof.
  apply (operations_keep_one_row_per_name
           (lease_world 3 [refstore.mkRow "job-1" 10 "K"]) 0%nat
           (Lessor.mk (Some refstore.driver) "" "" "" "")
           context.Background "job-2" 30 (Lease.mk 0%nat "job-1" 10 "K")
           eq_refl eq_refl eq_refl
           (conj eq_refl (conj eq_refl (conj eq_refl eq_refl))) eq_refl).
  apply (one_row_per_name_insert "job-1" 10 "K" []); [reflexivity|].
  intros m. discriminate.
Defined.

(** X5: whatever [Renew] returns on the reference store, the table has
    the same rows in the same places with the same names and keys; a row
    differs from what it was only in its expiration, and only when it
    carried the handle's name and key and an expiration after the current
    time. *)
Theorem Renew_changes_only_exp
    (w : World refstore.t) (h : Lease.t) (v : Lessor.t refstore.t)
    (ctx : context.Context) (newExp : time.Time) :
  nth_error (lessors w) (Lease.Lessor h) = Some v ->
  Lessor.db v = Some refstore.driver -> bound v (store w) ->
  exists err w',
    Renew h ctx newExp w = Done err w' /\
    map refstore.name (refstore.rows (store w')) =
      map refstore.name (refstore.rows (store w)) /\
    map refstore.key (refstore.rows (store w')) =
      map refstore.key (refstore.rows (store w)) /\
    forall i r,
      nth_error (refstore.rows (store w)) i = Some r ->
      nth_error (refstore.rows (store w')) i = Some r \/
      (refstore.name r = Lease.Name h /\ refstore.key r = Lease.Key h /\
       clock w < refstore.exp r /\
       nth_error (refstore.rows (store w')) i =
         Some (refstore.mkRow (refstore.name r) newExp (refstore.key r))).
Proof.
  intros H Hd Hb. rewrite (Renew_on_refstore _ _ _ _ _ H Hd Hb). cbv zeta.
  assert (Hshape :
    forall rs,
      map refstore.name
          (refstore.renew newExp (Lease.Name h) (Lease.Key h) (clock w) rs) =
        map refstore.name rs /\
      map refstore.key
          (refstore.renew newExp (Lease.Name h) (Lease.Key h) (clock w) rs) =
        map refstore.key rs).
  { unfold refstore.renew. induction rs as [|a rs [IHn IHk]]; [split; reflexivity|].
    cbn [map]. rewrite IHn, IHk.
    destruct (refstore.renewable _ _ _ a); split; reflexivity. }
  destruct (refstore.count _ _ =? 0);
    (do 2 eexists; split; [reflexivity|]);
    cbn [store record_call refstore.rows refstore.with_rows];
    (split; [apply Hshape|]; split; [apply Hshape|]);
    intros i r Hi; unfold refstore.renew; rewrite nth_error_map, Hi;
    cbn [option_map];
    destruct (refstore.renewable (Lease.Name h) (Lease.Key h) (clock w) r) eqn:E;
    try (left; reflexivity);
    right; apply renewable_iff in E; tauto.
Qed.

(** X5 at a renewal of "job-1" that leaves the row of "job-2" alone. *)
Lemma Renew_changes_only_exp_witness :
  exists err w',
    Renew (Lease.mk 0%nat "job-1" 10 "K") context.Background 20
      (lease_world 3 [refstore.mkRow "job-1" 10 "K";
                      refstore.mkRow "job-2" 12 "L"]) = Done err w' /\
    map refstore.name (refstore.rows (store w')) = ["job-1"; "job-2"] /\
    map refstore.key (refstore.rows (store w')) = ["K"; "L"].
Proof.
  destruct (Renew_changes_only_exp
              (lease_world 3 [refstore.mkRow "job-1" 10 "K";
                              refstore.mkRow "job-2" 12 "L"])
              (Lease.mk 0%nat "job-1" 10 "K")
              (Lessor.mk (Some refstore.driver) "" "" "" "")
              context.Background 20 eq_refl eq_refl
              (conj eq_refl (conj eq_refl (conj eq_refl eq_refl))))
    as (err & w' & Hrun & Hn & Hk & _).
  exists err, w'. split; [exact Hrun|]. split; [exact Hn|exact Hk].
Defined.

(** X6: a handle whose key no row of its name carries (the lease was
    swept and the name acquired by someone else, or never held) cannot
    disturb the table: [Renew] returns "could not renew" and [Release]
    returns nil, and both leave the store as it was. *)
Theorem stale_handle_changes_nothing
    (w : World refstore.t) (h : Lease.t) (v : Lessor.t refstore.t)
    (ctx : context.Context) (newExp : time.Time) :
  nth_error (lessors w) (Lease.Lessor h) = Some v ->
  Lessor.db v = Some refstore.driver -> bound v (store w) ->
  (forall r, In r (refstore.rows (store w)) ->
             refstore.name r = Lease.Name h ->
             refstore.key r <> Lease.Key h) ->
  (exists w', Renew h ctx newExp w = Done (errors.New "could not renew") w' /\
              store w' = store w) /\
  (exists w', Release h ctx w = Done None w' /\ store w' = store w).
Proof.
  intros H Hd Hb Hkey.
  assert (Hr : refstore.count
                 (refstore.renewable (Lease.Name h) (Lease.Key h) (clock w))
                 (refstore.rows (store w)) = 0).
  { apply count_zero. intros r Hin.
    destruct (refstore.renewable _ _ _ r) eqn:E; [|reflexivity].
    apply renewable_iff in E. exfalso. apply (Hkey r Hin); tauto. }
  assert (Hh : refstore.count
                 (refstore.held_by (Lease.Name h) (Lease.Key h))
                 (refstore.rows (store w)) = 0).
  { apply count_zero. intros r Hin.
    destruct (refstore.held_by _ _ r) eqn:E; [|reflexivity].
    apply held_by_iff in E. exfalso. apply (Hkey r Hin); tauto. }
  split.
  - rewrite (Renew_on_refstore _ _ _ _ _ H Hd Hb). cbv zeta. rewrite Hr.
    cbn [Z.eqb]. eexists. split; [reflexivity|]. cbn [store record_call].
    rewrite (renew_none _ _ _ _ _ Hr). apply with_rows_same.
  - rewrite (Release_on_refstore _ _ _ _ H Hd Hb).
    eexists. split; [reflexivity|]. cbn [store record_call].
    rewrite (release_none _ _ _ Hh). apply with_rows_same.
Qed.

(** X6 at the handle of an old lease of "job-1" after someone else
    acquired the name. *)
Lemma stale_handle_changes_nothing_witness :
  (exists w',
     Renew (Lease.mk 0%nat "job-1" 10 "old") context.Background 40
       (lease_world 20 [refstore.mkRow "job-1" 30 "new"]) =
       Done (errors.New "could not renew") w' /\
     store w' = leases_table [refstore.mkRow "job-1" 30 "new"]) /\
  (exists w',
     Release (Lease.mk 0%nat "job-1" 10 "old") context.Background
       (lease_world 20 [refstore.mkRow "job-1" 30 "new"]) = Done None w' /\
     store w' = leases_table [refstore.mkRow "job-1" 30 "new"]).
Proof.
  apply (stale_handle_changes_nothing
           (lease_world 20 [refstore.mkRow "job-1" 30 "new"])
           (Lease.mk 0%nat "job-1" 10 "old")
           (Lessor.mk (Some refstore.driver) "" "" "" "")
           context.Background 40 eq_refl eq_refl
           (conj eq_refl (conj eq_refl (conj eq_refl eq_refl)))).
  intros r [<-|[]] _. discriminate.
Defined.

(** ** What the operations send, and when they panic *)

(** X7: against every capability, the statements an operation sends all
    carry the context it was called with, and there are no retries:
    [Renew] and [Release] send exactly one statement, [Acquire] one or
    two. *)
Theorem operations_send_with_their_context
    {St : Type} (w : World St) (l : ptr) (h : Lease.t)
    (ctx : context.Context) (n : string) (e : time.Time) :
  match Acquire l ctx n e w with
  | Done _ w' =>
      exists calls,
        sent w' = (sent w ++ calls)%list /\
        Forall (fun c => call_ctx c = ctx) calls /\
        (1 <= List.length calls <= 2)%nat
  | Panic => True
  end /\
  match Renew h ctx e w with
  | Done _ w' =>
      exists c, sent w' = (sent w ++ [c])%list /\ call_ctx c = ctx
  | Panic => True
  end /\
  match Release h ctx w with
  | Done _ w' =>
      exists c, sent w' = (sent w ++ [c])%list /\ call_ctx c = ctx
  | Panic => True
  end.
Proof.
  split; [|split].
  - destruct (nth_error (lessors w) l) as [v|] eqn:H;
      [|rewrite (Acquire_nil_lessor _ _ _ _ _ H); exact I].
    destruct (Lessor.db v) as [d|] eqn:Hd;
      [|rewrite (Acquire_nil_db _ _ _ _ _ _ H Hd); exact I].
    rewrite (Acquire_run _ _ _ _ _ _ _ H Hd). cbv zeta.
    destruct (snd (snd (ExecContext d ctx (sweepQ v) _ (store w)))).
    + eexists [_]. repeat split; [repeat constructor|cbn; lia|cbn; lia].
    + destruct (snd (entropy w (drawn w))).
      * eexists [_]. repeat split; [repeat constructor|cbn; lia|cbn; lia].
      * eexists [_; _]. cbn [sent record_call consume_entropy].
        rewrite <- app_assoc.
        repeat split; [repeat constructor|cbn; lia|cbn; lia].
  - destruct (Renew h ctx e w) as [|err w'] eqn:Hrun; [exact I|].
    destruct (nth_error (lessors w) (Lease.Lessor h)) as [v|] eqn:H.
    2:{ unfold Renew in Hrun. rewrite bind_panic in Hrun; [discriminate|].
        apply tableName_panic, H. }
    destruct (Lessor.db v) as [d|] eqn:Hd.
    2:{ unfold Renew in Hrun. revert Hrun. do 6 run_step.
        rewrite bind_panic; [discriminate|].
        eapply execContext_nil_db; eassumption. }
    rewrite (Renew_run _ _ _ _ _ _ H Hd) in Hrun. cbv zeta in Hrun.
    destruct (snd (snd (ExecContext d ctx (updateQ v) _ (store w)))).
    { injection Hrun as _ <-. eexists. split; reflexivity. }
    destruct (fst (snd (ExecContext d ctx (updateQ v) _ (store w))))
      as [res|]; [|discriminate].
    destruct (sql.RowsAffected res) as [aff [e2|]].
    { injection Hrun as _ <-. eexists. split; reflexivity. }
    destruct (aff =? 0); injection Hrun as _ <-; eexists; split; reflexivity.
  - destruct (Release h ctx w) as [|err w'] eqn:Hrun; [exact I|].
    destruct (nth_error (lessors w) (Lease.Lessor h)) as [v|] eqn:H.
    2:{ unfold Release in Hrun. rewrite bind_panic in Hrun; [discriminate|].
        apply tableName_panic, H. }
    destruct (Lessor.db v) as [d|] eqn:Hd.
    2:{ unfold Release in Hrun. revert Hrun. do 3 run_step.
        rewrite bind_panic; [discriminate|].
        eapply execContext_nil_db; eassumption. }
    rewrite (Release_run _ _ _ _ _ H Hd) in Hrun. cbv zeta in Hrun.
    injection Hrun as _ <-. eexists. split; reflexivity.
Qed.



(** X9: every error an operation returns, "could not renew" apart, is the
    very error the capability or the random source reported, wrapped once
    with the annotation of the step that failed. *)
Theorem operations_wrap_the_cause
    {St : Type} (w w' : World St) (l : ptr) (v : Lessor.t St)
    (d : ExecerContext St) (h : Lease.t) (ctx : context.Context)
    (n : string) (e : time.Time) (err : errors.error) :
  nth_error (lessors w) l = Some v -> Lease.Lessor h = l ->
  Lessor.db v = Some d ->
  let swept := ExecContext d ctx (sweepQ v) [sql.VTime (clock w)] (store w) in
  let inserted :=
    ExecContext d ctx (insertQ v) (insertArgs n e (next_key w)) (fst swept) in
  let updated :=
    ExecContext d ctx (updateQ v) (updateArgs h e (clock w)) (store w) in
  let deleted := ExecContext d ctx (deleteQ v) (deleteArgs h) (store w) in
  (forall lease, Acquire l ctx n e w = Done (lease, Some err) w' ->
     (exists c, snd (snd swept) = Some c /\
                err = errors.withMessage c "deleting stale leases") \/
     (exists c, snd (entropy w (drawn w)) = Some c /\
                err = errors.withMessage c "computing key") \/
     (exists c, snd (snd inserted) = Some c /\
                err = errors.withMessage c "inserting into database")) /\
  (Renew h ctx e w = Done (Some err) w' ->
     (exists c, snd (snd updated) = Some c /\
                err = errors.withMessage c "updating database") \/
     (exists res c, fst (snd updated) = Some res /\
                    snd (sql.RowsAffected res) = Some c /\
                    err = errors.withMessage c "counting affected rows") \/
     err = errors.fundamental "could not renew") /\
  (Release h ctx w = Done (Some err) w' ->
     exists c, snd (snd deleted) = Some c /\
               err = errors.withMessage c "deleting from database").
Proof.
  intros H Hl Hd. subst l. cbv zeta. split; [|split].
  - intros lease. rewrite (Acquire_run _ _ _ _ _ _ _ H Hd). cbv zeta.
    destruct (snd (snd (ExecContext d ctx (sweepQ v) _ (store w)))) as [c|].
    + intros [= _ <- _]. left. exists c. auto.
    + destruct (snd (entropy w (drawn w))) as [c|].
      * intros [= _ <- _]. right. left. exists c. auto.
      * destruct (snd (snd (ExecContext d ctx (insertQ v) _ _))) as [c|];
          [|discriminate].
        intros [= _ <- _]. right. right. exists c. auto.
  - rewrite (Renew_run _ _ _ _ _ _ H Hd). cbv zeta.
    destruct (snd (snd (ExecContext d ctx (updateQ v) _ (store w)))) as [c|].
    + intros [= <- _]. left. exists c. auto.
    + destruct (fst (snd (ExecContext d ctx (updateQ v) _ (store w))))
        as [res|] eqn:Hres; [|discriminate].
      destruct (sql.RowsAffected res) as [aff [c|]] eqn:Ha.
      * intros [= <- _]. right. left. exists res, c. rewrite Ha. auto.
      * destruct (aff =? 0); [|discriminate].
        intros [= <- _]. right. right. reflexivity.
  - rewrite (Release_run _ _ _ _ _ H Hd). cbv zeta.
    destruct (snd (snd (ExecContext d ctx (deleteQ v) _ (store w)))) as [c|];
      [|discriminate].
    intros [= <- _]. exists c. auto.
Qed.

(** X9 at a store that cannot be reached: [Release] returns the store's
    error under its annotation. *)
Lemma operations_wrap_the_cause_witness :
  Release (Lease.mk 0%nat "job-1" 20 "K") context.Background
          (stub_world unreachable) =
    Done (Some (errors.withMessage (errors.fundamental "connection refused")
                                   "deleting from database"))
         (record_call
            (mkCall context.Background
               "DELETE FROM leases WHERE name = $1 AND key = $2"
               (deleteArgs (Lease.mk 0%nat "job-1" 20 "K")))
            tt (stub_world unreachable)) /\
  exists c,
    snd (snd (ExecContext unreachable context.Background
                "DELETE FROM leases WHERE name = $1 AND key = $2"
                (deleteArgs (Lease.mk 0%nat "job-1" 20 "K")) tt)) = Some c /\
    errors.withMessage (errors.fundamental "connection refused")
                       "deleting from database" =
      errors.withMessage c "deleting from database".
Proof.
  split; [reflexivity|].
  exact (proj2 (proj2 (operations_wrap_the_cause
                         (stub_world unreachable) _ 0%nat
                         (Lessor.mk (Some unreachable) "" "" "" "")
                         unreachable (Lease.mk 0%nat "job-1" 20 "K")
                         context.Background "job-1" 20 _
                         eq_refl eq_refl eq_refl))
               eq_refl).
Defined.

(** ** Keys and key arrays *)

Lemma byte_of_digits_digit (b : byte) :
  byte_of_digits (hex.digit (N.shiftr (Byte.to_N b) 4))
                 (hex.digit (N.land (Byte.to_N b) 15)) = b.
Proof. destruct b; reflexivity. Qed.

Lemma key_bytes_EncodeToString (src : list byte) :
  key_bytes (hex.EncodeToString src) = src.
Proof.
  induction src as [|b src IH]; [reflexivity|].
  cbn [hex.EncodeToString key_bytes].
  rewrite byte_of_digits_digit, IH. reflexivity.
Qed.

Lemma Acquire_handle_key {St : Type} (w w' : World St) l ctx n e h err :
  Acquire l ctx n e w = Done (Some h, err) w' ->
  Lease.Key h = next_key w.
Proof.
  destruct (nth_error (lessors w) l) as [v|] eqn:H;
    [|rewrite (Acquire_nil_lessor _ _ _ _ _ H); discriminate].
  destruct (Lessor.db v) as [d|] eqn:Hd;
    [|rewrite (Acquire_nil_db _ _ _ _ _ _ H Hd); discriminate].
  rewrite (Acquire_run _ _ _ _ _ _ _ H Hd). cbv zeta.
  destruct (snd (snd (ExecContext d ctx (sweepQ v) _ (store w))));
    [discriminate|].
  destruct (snd (entropy w (drawn w))); [discriminate|].
  intros [= <- _ _]. reflexivity.
Qed.

(** X10: against every capability, a handle that [Acquire] returns has a
    key of 32 hex digits from which the 16-byte key array can be read
    back; so two handles have the same key exactly when their key arrays
    were the same. *)
Theorem Acquire_key_determines_array
    {St St' : Type} (w1 w1' : World St) (w2 w2' : World St')
    (l1 l2 : ptr) (ctx1 ctx2 : context.Context) (n1 n2 : string)
    (e1 e2 : time.Time) (h1 h2 : Lease.t) (err1 err2 : option errors.error) :
  Acquire l1 ctx1 n1 e1 w1 = Done (Some h1, err1) w1' ->
  Acquire l2 ctx2 n2 e2 w2 = Done (Some h2, err2) w2' ->
  String.length (Lease.Key h1) = 32%nat /\
  forallb hex.is_hex_char (list_ascii_of_string (Lease.Key h1)) = true /\
  key_bytes (Lease.Key h1) = fill16 (fst (entropy w1 (drawn w1))) /\
  (Lease.Key h1 = Lease.Key h2 <->
   fill16 (fst (entropy w1 (drawn w1))) =
   fill16 (fst (entropy w2 (drawn w2)))).
Proof.
  intros H1 H2. apply Acquire_handle_key in H1. apply Acquire_handle_key in H2.
  rewrite H1, H2. destruct (next_key_shape w1) as [Hlen Hhex].
  split; [exact Hlen|]. split; [exact Hhex|]. unfold next_key.
  split; [apply key_bytes_EncodeToString|]. split.
  - intros E. apply (f_equal key_bytes) in E.
    rewrite !key_bytes_EncodeToString in E. exact E.
  - intros ->. reflexivity.
Qed.

(** X10 at two acquisitions that drew the same bytes. *)
Lemma Acquire_key_determines_array_witness :
  exists h1 w1 h2 w2,
    Acquire 0%nat context.Background "job-1" 10 (lease_world 0 []) =
      Done (Some h1, None) w1 /\
    Acquire 0%nat context.Background "job-2" 20 (lease_world 5 []) =
      Done (Some h2, None) w2 /\
    Lease.Key h1 = Lease.Key h2 /\
    key_bytes (Lease.Key h1) =
      [x01; x23; x45; x67; x89; xab; xcd; xef;
       x10; x32; x54; x76; x98; xba; xdc; xfe].
Proof.
  destruct (Acquire 0%nat context.Background "job-1" 10 (lease_world 0 []))
    as [|[[h1|] [e|]] w1] eqn:Ha1; try (vm_compute in Ha1; discriminate Ha1).
  destruct (Acquire 0%nat context.Background "job-2" 20 (lease_world 5 []))
    as [|[[h2|] [e|]] w2] eqn:Ha2; try (vm_compute in Ha2; discriminate Ha2).
  destruct (Acquire_key_determines_array _ _ _ _ _ _ _ _ _ _ _ _ _ _ _ _
              Ha1 Ha2) as (_ & _ & Hdec & Hiff).
  exists h1, w1, h2, w2. split; [reflexivity|]. split; [reflexivity|].
  split; [apply Hiff; reflexivity|exact Hdec].
Defined.

(** ** A DB handle through a context *)

Section DBInContext.
Context {D : Type}.
Implicit Types (c : ctxval.Context D) (s : ctxval.derivation D).

Lemma Value_derive_foreign c s :
  ctxval.foreign s = true ->
  ctxval.Value (ctxval.derive c s) ctxval.ctxkey = ctxval.Value c ctxval.ctxkey.
Proof.
  destruct s as [|d|k v]; cbn [ctxval.derive ctxval.foreign]; intros Hf.
  - reflexivity.
  - unfold ctxval.WithDeadline, ctxval.WithCancel.
    destruct (ctxval.Deadline c) as [cur|]; [|reflexivity].
    destruct (time.Before cur d); reflexivity.
  - cbn [ctxval.WithValue ctxval.Value].
    apply negb_true_iff in Hf. rewrite Hf. reflexivity.
Qed.

Lemma Value_derivations_foreign (ss : list (ctxval.derivation D)) : forall c,
  forallb ctxval.foreign ss = true ->
  ctxval.Value (fold_left ctxval.derive ss c) ctxval.ctxkey =
    ctxval.Value c ctxval.ctxkey.
Proof.
  induction ss as [|s ss IH]; intros c Hf; [reflexivity|].
  cbn [forallb] in Hf. apply andb_true_iff in Hf. destruct Hf as [Hs Hss].
  cbn [fold_left]. rewrite (IH _ Hss). apply Value_derive_foreign, Hs.
Qed.

(** X11: [GetDB] returns the handle of the nearest [WithDB] above it: the
    one last stored, also over an earlier one, and through any children
    derived since by cancellation, deadline, or values under other keys
    (a plain string key "db" included). *)
Theorem GetDB_WithDB
    (c : ctxval.Context D) (d : D) (ss : list (ctxval.derivation D)) :
  forallb ctxval.foreign ss = true ->
  ctxval.GetDB (fold_left ctxval.derive ss (ctxval.WithDB c (Some d))) = Some d.
Proof.
  intros Hf. unfold ctxval.GetDB. rewrite (Value_derivations_foreign ss _ Hf).
  reflexivity.
Qed.

(** X12: [GetDB] panics on a context in which no handle was stored, and
    also below a [WithDB] that stored a nil handle, even when a handle is
    stored further up. *)
Theorem GetDB_panics_without_handle
    (c : ctxval.Context D) (ss ss' : list (ctxval.derivation D)) :
  forallb ctxval.foreign ss = true -> forallb ctxval.foreign ss' = true ->
  ctxval.GetDB (fold_left ctxval.derive ss ctxval.Background) = None /\
  ctxval.GetDB (fold_left ctxval.derive ss' (ctxval.WithDB c None)) = None.
Proof.
  intros Hf Hf'. unfold ctxval.GetDB.
  rewrite (Value_derivations_foreign ss _ Hf).
  rewrite (Value_derivations_foreign ss' _ Hf'). split; reflexivity.
Qed.

End DBInContext.

(** X11 with a second handle stored over a first one, then a value under
    the string key "db" and a deadline. *)
Lemma GetDB_WithDB_witness :
  ctxval.GetDB
    (ctxval.WithDeadline
       (ctxval.WithValue
          (ctxval.WithDB (ctxval.WithDB ctxval.Background (Some 1%nat))
                         (Some 2%nat))
          (ctxval.mkKey "string" "db") (Some (ctxval.aOther "elsewhere")))
       30) = Some 2%nat.
Proof.
  apply (GetDB_WithDB (ctxval.WithDB ctxval.Background (Some 1%nat)) 2%nat
           [ctxval.byValue (ctxval.mkKey "string" "db")
                           (Some (ctxval.aOther "elsewhere"));
            ctxval.byDeadline 30]).
  reflexivity.
Defined.

(** X12 below a nil handle stored over a real one. *)
Lemma GetDB_panics_without_handle_witness :
  ctxval.GetDB (D := nat)
    (ctxval.WithCancel (ctxval.of_plain (context.timerCtx context.Background 5)))
    = None /\
  ctxval.GetDB
    (ctxval.WithCancel
       (ctxval.WithDB (ctxval.WithDB ctxval.Background (Some 1%nat)) None))
    = None.
Proof.
  apply (GetDB_panics_without_handle
           (ctxval.WithDB ctxval.Background (Some 1%nat))
           [ctxval.byDeadline 5; ctxval.byCancel] [ctxval.byCancel]);
    reflexivity.
Defined.

(** The two context trees agree on the contexts without values. *)
Lemma of_plain_Deadline {D : Type} (c : context.Context) :
  ctxval.Deadline (ctxval.of_plain (D := D) c) = context.Deadline c.
Proof. induction c as [|p IH|p IH d]; cbn; auto. Qed.

Lemma of_plain_WithDeadline {D : Type} (c : context.Context) (d : time.Time) :
  ctxval.of_plain (D := D) (fst (context.WithDeadline c d)) =
    ctxval.WithDeadline (ctxval.of_plain c) d.
Proof.
  unfold context.WithDeadline, ctxval.WithDeadline. rewrite of_plain_Deadline.
  destruct (context.Deadline c) as [cur|]; [|reflexivity].
  destruct (time.Before cur d); reflexivity.
Qed.

(** ** Cursors *)

Section Cursors.
Context {D U typ val : Type}.
Variable convertAssign : nat -> typ -> sql.value -> val + errors.error.
Variable zero : typ -> val.
Implicit Types (w : World (query.session D U)) (r : rows.t) (p : query.rptr).

Lemma set_nth_middle {A : Type} (pre post : list A) (a x : A) :
  query.set_nth (List.length pre) x (pre ++ a :: post) = (pre ++ x :: post)%list.
Proof.
  unfold query.set_nth.
  rewrite firstn_app, Nat.sub_diag, firstn_all. cbn [firstn].
  rewrite app_nil_r. f_equal. f_equal.
  rewrite skipn_app, skipn_all2 by (rewrite <- Nat.le_succ_diag_r; lia).
  replace (S (List.length pre) - List.length pre)%nat with 1%nat by lia.
  reflexivity.
Qed.

Lemma cursor_is_nth w p r :
  cursor_is w p r -> nth_error (query.cursors (store w)) p = Some r.
Proof.
  intros (pre & post & -> & ->). rewrite nth_error_app2 by lia.
  rewrite Nat.sub_diag. reflexivity.
Qed.

Lemma cursor_is_put w p r r' :
  cursor_is w p r -> cursor_is (query.put_cursor p r' w) p r'.
Proof.
  intros (pre & post & Hc & ->). exists pre, post. split; [|reflexivity].
  cbn [query.put_cursor with_store store query.cursors]. rewrite Hc.
  apply set_nth_middle.
Qed.

Lemma put_cursor_twice w p r a b :
  cursor_is w p r ->
  query.put_cursor p b (query.put_cursor p a w) = query.put_cursor p b w.
Proof.
  intros (pre & post & Hc & ->). unfold query.put_cursor.
  cbn [with_store store query.cursors query.conn query.user query.asked
       lessors clock entropy drawn sent].
  rewrite Hc, !set_nth_middle. reflexivity.
Qed.

Lemma with_cursor_run {A : Type} w p r (f : rows.t -> A * rows.t) :
  cursor_is w p r ->
  query.with_cursor p f w = Done (fst (f r)) (query.put_cursor p (snd (f r)) w).
Proof.
  intros H. unfold query.with_cursor. rewrite (cursor_is_nth _ _ _ H).
  destruct (f r); reflexivity.
Qed.

Lemma rows_Next_run w p r :
  cursor_is w p r ->
  query.rows_Next p w =
    Done (fst (rows.Next r)) (query.put_cursor p (snd (rows.Next r)) w).
Proof. apply with_cursor_run. Qed.

Lemma rows_Scan_run w p r dest :
  cursor_is w p r ->
  query.rows_Scan convertAssign p dest w =
    Done (rows.Scan convertAssign r dest) (query.put_cursor p r w).
Proof. intros H. unfold query.rows_Scan. rewrite (with_cursor_run _ _ _ _ H). reflexivity. Qed.

Lemma rows_Close_run w p r :
  cursor_is w p r ->
  query.rows_Close p w = Done tt (query.put_cursor p (rows.Close r) w).
Proof. intros H. unfold query.rows_Close. rewrite (with_cursor_run _ _ _ _ H). reflexivity. Qed.

Lemma rows_Err_run w p r :
  cursor_is w p r ->
  query.rows_Err p w = Done (rows.Err r) (query.put_cursor p r w).
Proof. intros H. unfold query.rows_Err. rewrite (with_cursor_run _ _ _ _ H). reflexivity. Qed.

Lemma put_cursor_same w p r : cursor_is w p r -> query.put_cursor p r w = w.
Proof.
  intros (pre & post & Hc & ->). unfold query.put_cursor.
  rewrite Hc, set_nth_middle, <- Hc. destruct w as [ls st cl en dr se].
  destruct st. reflexivity.
Qed.

Lemma deferring_run {A : Type} w w1 w2 (cleanup : query.Q unit)
    (body : query.Q A) (a : A) :
  body w = Done a w1 -> cleanup w1 = Done tt w2 ->
  query.deferring (D := D) (U := U) cleanup body w = Done a w2.
Proof.
  intros Hb Hc. unfold query.deferring.
  rewrite (bind_run _ _ _ _ _ Hb). unfold bind. rewrite Hc. reflexivity.
Qed.

(** [Row.Scan] on a row with a cursor, step by step. *)
Lemma Row_Scan_run w p r e0 dest :
  cursor_is w p r ->
  query.Row_Scan convertAssign (query.mkRow (Some p) e0) dest w =
    let r1 := snd (rows.Next r) in
    if fst (rows.Next r) then
      let s := rows.Scan convertAssign r1 dest in
      match snd s with
      | Some err =>
          Done (fst s, Some err) (query.put_cursor p (rows.Close r1) w)
      | None =>
          let r2 := snd (rows.Next r1) in
          Done (fst s,
                if fst (rows.Next r1) then Some query.ErrMultipleRows else None)
               (query.put_cursor p (rows.Close r2) w)
      end
    else
      Done (dest, Some sql_ErrNoRows) (query.put_cursor p (rows.Close r1) w).
Proof.
  intros H. unfold query.Row_Scan. cbn [query.row_rows]. cbv zeta.
  pose proof (cursor_is_put w p r (snd (rows.Next r)) H) as H1.
  pose proof (cursor_is_put _ p _ (snd (rows.Next (snd (rows.Next r)))) H1)
    as H2.
  destruct (fst (rows.Next r)) eqn:E1.
  - destruct (snd (rows.Scan convertAssign (snd (rows.Next r)) dest)) eqn:Es.
    + eapply deferring_run.
      * rewrite (bind_run _ _ _ _ _ (rows_Next_run _ _ _ H)), E1. cbn [negb].
        rewrite (bind_run _ _ _ _ _ (rows_Scan_run _ _ _ dest H1)), Es.
        reflexivity.
      * rewrite (put_cursor_same _ _ _ H1).
        rewrite (rows_Close_run _ _ _ H1), (put_cursor_twice _ _ _ _ _ H).
        reflexivity.
    + eapply deferring_run.
      * rewrite (bind_run _ _ _ _ _ (rows_Next_run _ _ _ H)), E1. cbn [negb].
        rewrite (bind_run _ _ _ _ _ (rows_Scan_run _ _ _ dest H1)), Es.
        rewrite (put_cursor_same _ _ _ H1).
        rewrite (bind_run _ _ _ _ _ (rows_Next_run _ _ _ H1)).
        destruct (fst (rows.Next (snd (rows.Next r)))); reflexivity.
      * rewrite (rows_Close_run _ _ _ H2).
        rewrite (put_cursor_twice _ _ _ _ _ H1), (put_cursor_twice _ _ _ _ _ H).
        reflexivity.
  - eapply deferring_run.
    + rewrite (bind_run _ _ _ _ _ (rows_Next_run _ _ _ H)), E1. reflexivity.
    + rewrite (rows_Close_run _ _ _ H1), (put_cursor_twice _ _ _ _ _ H).
      reflexivity.
Qed.

Lemma queryContext_run w (d : query.QueryerContext D) ctx q ops c' res err :
  query.QueryContext d ctx q ops (query.conn (store w)) = (c', (res, err)) ->
  query.queryContext (U := U) (Some d) ctx q ops w =
    let log := (query.asked (store w) ++ [query.mkQuery ctx q ops])%list in
    match res with
    | Some rs =>
        Done (Some (List.length (query.cursors (store w))), err)
          (with_store
             (query.mkSession c'
                (query.cursors (store w)
                   ++ [rows.fresh (query.rs_rows rs) (query.rs_failure rs)])%list
                (query.user (store w)) log) w)
    | None =>
        Done (None, err)
          (with_store
             (query.mkSession c' (query.cursors (store w))
                              (query.user (store w)) log) w)
    end.
Proof. intros H. unfold query.queryContext. rewrite H. reflexivity. Qed.

Lemma answered_cursor w ctx q ops c' rs fail :
  cursor_is (answered w ctx q ops c' rs fail)
            (List.length (query.cursors (store w))) (rows.fresh rs fail).
Proof. exists (query.cursors (store w)), []. split; reflexivity. Qed.

Lemma QueryRowContext_run w (d : query.QueryerContext D) ctx q
    (args : list (query.arg U typ val)) c' rs fail :
  query.QueryContext d ctx q (map query.operand_of args)
                     (query.conn (store w)) =
    (c', (Some (query.mkResultset rs fail), None)) ->
  query.QueryRowContext ctx (Some d) q args w =
    Done (query.mkRow (Some (List.length (query.cursors (store w)))) None)
         (answered w ctx q (map query.operand_of args) c' rs fail).
Proof.
  intros H. unfold query.QueryRowContext.
  rewrite (bind_run _ _ _ _ _ (queryContext_run _ _ _ _ _ _ _ _ H)).
  reflexivity.
Qed.

(** [Row.Scan] on the cursor of a result set not yet read. *)
Lemma Row_Scan_on_fresh w p e0 dest rs fail :
  cursor_is w p (rows.fresh rs fail) ->
  exists r',
    rows.closed r' = true /\
    query.Row_Scan convertAssign (query.mkRow (Some p) e0) dest w =
      Done
        match rs with
        | [] => (dest, Some sql_ErrNoRows)
        | r1 :: more =>
            match snd (scan_of convertAssign dest r1) with
            | Some e => (fst (scan_of convertAssign dest r1), Some e)
            | None =>
                (fst (scan_of convertAssign dest r1),
                 match more with
                 | [] => None
                 | _ :: _ => Some query.ErrMultipleRows
                 end)
            end
        end
        (query.put_cursor p r' w).
Proof.
  intros H. rewrite (Row_Scan_run _ _ _ _ _ H). cbv zeta.
  destruct rs as [|r1 more].
  - eexists. split; [|reflexivity]. reflexivity.
  - cbn [rows.Next rows.fresh rows.closed rows.feed fst snd rows.failure].
    unfold rows.Scan. cbn [rows.lasterr rows.closed rows.lastcols].
    fold (scan_of convertAssign dest r1).
    destruct (snd (scan_of convertAssign dest r1)).
    + eexists. split; [|reflexivity]. reflexivity.
    + destruct more as [|r2 rest]; (eexists; split; [|reflexivity]);
        reflexivity.
Qed.

End Cursors.

(** ** One row expected *)

Section OneRow.
Context {D U typ val : Type}.
Variable convertAssign : nat -> typ -> sql.value -> val + errors.error.
Implicit Types (w : World (query.session D U)) (d : query.QueryerContext D)
  (args : list (query.arg U typ val))
  (dest : list (rows.slot (typ := typ) (val := val))).

(** X13: [QueryRowContext] sends one query with all its arguments, and
    [Scan] on its row answers by the number of rows of the result set:
    none, [sql.ErrNoRows] with the destinations untouched; one, nil with
    the destinations holding that row; more, [ErrMultipleRows] with the
    destinations holding the first row.  The cursor is closed afterwards
    in every case. *)
Theorem QueryRow_Scan_verdict w d ctx q args c' rs fail dest :
  query.QueryContext d ctx q (map query.operand_of args)
                     (query.conn (store w)) =
    (c', (Some (query.mkResultset rs fail), None)) ->
  exists row w1 out w2 r',
    query.QueryRowContext ctx (Some d) q args w = Done row w1 /\
    query.Row_Err row = None /\
    query.asked (store w1) =
      (query.asked (store w)
         ++ [query.mkQuery ctx q (map query.operand_of args)])%list /\
    query.Row_Scan convertAssign row dest w1 = Done out w2 /\
    cursor_is w2 (List.length (query.cursors (store w))) r' /\
    rows.closed r' = true /\
    (rs = [] -> out = (dest, Some sql_ErrNoRows)) /\
    (forall r1 more dest',
       rs = r1 :: more -> List.length dest = List.length r1 ->
       rows.assign convertAssign 0 dest r1 = (dest', None) ->
       out = (dest', match more with
                     | [] => None
                     | _ :: _ => Some query.ErrMultipleRows
                     end)).
Proof.
  intros Hq. rewrite (QueryRowContext_run _ _ _ _ _ _ _ _ Hq).
  pose proof (answered_cursor w ctx q (map query.operand_of args) c' rs fail)
    as Hc.
  destruct (Row_Scan_on_fresh convertAssign _ _ None dest _ _ Hc)
    as (r' & Hclosed & Hscan).
  do 5 eexists. split; [reflexivity|]. split; [reflexivity|].
  split; [reflexivity|]. split; [exact Hscan|].
  split; [eapply cursor_is_put; exact Hc|]. split; [exact Hclosed|]. split.
  - intros ->. reflexivity.
  - intros r1 more dest' -> Hlen Hassign. unfold scan_of.
    rewrite Hlen, Nat.eqb_refl, Hassign. reflexivity.
Qed.

(** X14: [Scan] never reports an error the driver met while fetching, and
    neither does [Err]: when the result set breaks off before its first
    row [Scan] returns [sql.ErrNoRows], and when it breaks off after its
    first row [Scan] returns nil. *)
Theorem QueryRow_Scan_hides_driver_error w d ctx q args c' rs e dest :
  query.QueryContext d ctx q (map query.operand_of args)
                     (query.conn (store w)) =
    (c', (Some (query.mkResultset rs (Some e)), None)) ->
  exists row w1 out w2,
    query.QueryRowContext ctx (Some d) q args w = Done row w1 /\
    query.Row_Err row = None /\
    query.Row_Scan convertAssign row dest w1 = Done out w2 /\
    (rs = [] -> out = (dest, Some sql_ErrNoRows)) /\
    (forall r1 dest',
       rs = [r1] -> List.length dest = List.length r1 ->
       rows.assign convertAssign 0 dest r1 = (dest', None) ->
       out = (dest', None)).
Proof.
  intros Hq. rewrite (QueryRowContext_run _ _ _ _ _ _ _ _ Hq).
  pose proof (answered_cursor w ctx q (map query.operand_of args) c' rs (Some e))
    as Hc.
  destruct (Row_Scan_on_fresh convertAssign _ _ None dest _ _ Hc)
    as (r' & Hclosed & Hscan).
  do 4 eexists. split; [reflexivity|]. split; [reflexivity|].
  split; [exact Hscan|]. split.
  - intros ->. reflexivity.
  - intros r1 dest' -> Hlen Hassign. unfold scan_of.
    rewrite Hlen, Nat.eqb_refl, Hassign. reflexivity.
Qed.

(** X15: when the first row does not scan (a wrong number of
    destinations, or a column that does not convert), [Scan] returns that
    error whether or not more rows follow, and closes the cursor; the
    destinations are untouched on a wrong count, and otherwise as the
    column-by-column assignment left them when it failed. *)
Theorem QueryRow_Scan_error_first w d ctx q args c' r1 more fail dest :
  query.QueryContext d ctx q (map query.operand_of args)
                     (query.conn (store w)) =
    (c', (Some (query.mkResultset (r1 :: more) fail), None)) ->
  exists row w1 out w2 r',
    query.QueryRowContext ctx (Some d) q args w = Done row w1 /\
    query.Row_Scan convertAssign row dest w1 = Done out w2 /\
    cursor_is w2 (List.length (query.cursors (store w))) r' /\
    rows.closed r' = true /\
    (List.length dest <> List.length r1 ->
     out = (dest, Some (rows.errArity (List.length r1) (List.length dest)))) /\
    (forall dest' e,
       List.length dest = List.length r1 ->
       rows.assign convertAssign 0 dest r1 = (dest', Some e) ->
       out = (dest', Some e)).
Proof.
  intros Hq. rewrite (QueryRowContext_run _ _ _ _ _ _ _ _ Hq).
  pose proof (answered_cursor w ctx q (map query.operand_of args) c'
                (r1 :: more) fail) as Hc.
  destruct (Row_Scan_on_fresh convertAssign _ _ None dest _ _ Hc)
    as (r' & Hclosed & Hscan).
  do 5 eexists. split; [reflexivity|]. split; [exact Hscan|].
  split; [eapply cursor_is_put; exact Hc|]. split; [exact Hclosed|]. split.
  - intros Hlen. unfold scan_of. apply Nat.eqb_neq in Hlen. rewrite Hlen.
    reflexivity.
  - intros dest' e Hlen Hassign. unfold scan_of.
    rewrite Hlen, Nat.eqb_refl, Hassign. reflexivity.
Qed.

(** X16: when the query itself fails, with no rows handed out, [Err] and
    [Scan] both return the query's error; [Scan] touches neither the
    destinations nor anything else. *)
Theorem QueryRow_query_failed w d ctx q args c' err dest :
  query.QueryContext d ctx q (map query.operand_of args)
                     (query.conn (store w)) = (c', (None, err)) ->
  exists row w1,
    query.QueryRowContext ctx (Some d) q args w = Done row w1 /\
    query.Row_Err row = err /\
    query.Row_Scan convertAssign row dest w1 = Done (dest, err) w1 /\
    query.cursors (store w1) = query.cursors (store w).
Proof.
  intros Hq. unfold query.QueryRowContext.
  rewrite (bind_run _ _ _ _ _ (queryContext_run _ _ _ _ _ _ _ _ Hq)).
  do 2 eexists. split; [reflexivity|]. split; [reflexivity|].
  split; reflexivity.
Qed.


End OneRow.

(** ** A callback per row *)

Section RowByRow.
Context {D U typ val : Type}.
Variable convertAssign : nat -> typ -> sql.value -> val + errors.error.
Variable zero : typ -> val.
Implicit Types (w : World (query.session D U)) (r : rows.t) (p : query.rptr)
  (f : query.func U typ val) (row : list sql.value).

Lemma cursor_is_put_user w p r u :
  cursor_is w p r -> cursor_is (put_user u w) p r.
Proof. exact (fun H => H). Qed.

Lemma call_run w f body vals :
  query.fn_body f = Some body ->
  query.call f vals w =
    Done (snd (body vals (query.user (store w))))
         (put_user (fst (body vals (query.user (store w)))) w).
Proof.
  intros H. unfold query.call. rewrite H.
  destruct (body vals (query.user (store w))); reflexivity.
Qed.

Lemma Next_open r row more :
  rows.closed r = false -> rows.feed r = row :: more ->
  rows.Next r = (true, rows.mk more (rows.failure r) (Some row) None false).
Proof. intros Hc Hf. unfold rows.Next. rewrite Hc, Hf. reflexivity. Qed.

Lemma Next_end r :
  rows.closed r = false -> rows.feed r = [] ->
  rows.Next r =
    (false, rows.mk [] (rows.failure r) (rows.lastcols r) (rows.failure r) true).
Proof. intros Hc Hf. unfold rows.Next. rewrite Hc, Hf. reflexivity. Qed.

(** What one iteration finds: the next row delivered and scanned. *)
Lemma forRows_step w p r f row more fuel :
  cursor_is w p r -> rows.closed r = false -> rows.feed r = row :: more ->
  let r1 := rows.mk more (rows.failure r) (Some row) None false in
  let w1 := query.put_cursor p r1 w in
  cursor_is w1 p r1 /\
  query.forRows convertAssign zero (S fuel) p f w =
    match snd (scan_row convertAssign zero f row) with
    | Some err => Done (Some err) w1
    | None =>
        (res <- query.call f (fst (scan_row convertAssign zero f row)) ;;
         match query.fn_out f with
         | [query.ErrorNillable] =>
             match res with
             | Some e => ret (Some e)
             | None => query.forRows convertAssign zero fuel p f
             end
         | [query.ErrorValue] => fun _ => Panic
         | _ => query.forRows convertAssign zero fuel p f
         end) w1
    end.
Proof.
  intros H Hc Hf. cbv zeta.
  pose proof (cursor_is_put w p r
                (rows.mk more (rows.failure r) (Some row) None false) H) as H1.
  split; [exact H1|].
  cbn [query.forRows].
  rewrite (bind_run _ _ _ _ _ (rows_Next_run _ _ _ H)).
  rewrite (Next_open _ _ _ Hc Hf). cbn [fst snd].
  rewrite (bind_run _ _ _ _ _ (rows_Scan_run convertAssign _ _ _ _ H1)).
  rewrite (put_cursor_same _ _ _ H1).
  unfold rows.Scan. cbn [rows.lasterr rows.closed rows.lastcols].
  unfold scan_row.
  fold (scan_of convertAssign
          (map (fun t => rows.mkSlot t (zero t)) (query.fn_in f)) row).
  cbn [fst snd].
  destruct (snd (scan_of convertAssign _ row)); reflexivity.
Qed.

(** The loop over rows that scan and on which the callback keeps quiet. *)
Lemma forRows_quiet f body p :
  query.fn_body f = Some body ->
  query.fn_out f = [] \/ query.fn_out f = [query.ErrorNillable] ->
  forall pre rest w r fuel,
    cursor_is w p r -> rows.closed r = false ->
    rows.feed r = (pre ++ rest)%list ->
    (List.length pre <= fuel)%nat ->
    quiet convertAssign zero f body (query.user (store w)) pre ->
    exists w' r',
      query.forRows convertAssign zero fuel p f w =
        query.forRows convertAssign zero (fuel - List.length pre) p f w' /\
      cursor_is w' p r' /\ rows.closed r' = false /\
      rows.feed r' = rest /\ rows.failure r' = rows.failure r /\
      query.user (store w') =
        delivered convertAssign zero f body (query.user (store w)) pre /\
      query.conn (store w') = query.conn (store w) /\
      query.asked (store w') = query.asked (store w).
Proof.
  intros Hbody Hout. induction pre as [|row pre IH];
    intros rest w r fuel H Hc Hf Hfuel Hq.
  - exists w, r. rewrite Nat.sub_0_r. repeat split; auto.
  - destruct fuel as [|fuel]; [cbn in Hfuel; lia|].
    cbn [quiet] in Hq. destruct Hq as (Hscan & Hres & Hq).
    destruct (forRows_step w p r f row (pre ++ rest)%list fuel H Hc Hf)
      as [H1 ->].
    rewrite Hscan.
    rewrite (bind_run _ _ _ _ _ (call_run _ _ _ _ Hbody)).
    set (r1 := rows.mk (pre ++ rest) (rows.failure r) (Some row) None false) in *.
    set (w1 := query.put_cursor p r1 w) in *.
    set (w2 := put_user _ w1).
    assert (H2 : cursor_is w2 p r1) by exact H1.
    destruct (IH rest w2 r1 fuel H2 eq_refl eq_refl) as (w' & r' & Hrun & Hfacts).
    { cbn in Hfuel. lia. }
    { exact Hq. }
    exists w', r'. split; [|exact Hfacts].
    cbn [List.length Nat.sub]. rewrite <- Hrun.
    destruct Hout as [Ho|Ho]; rewrite Ho; [reflexivity|].
    destruct Hres as [Hnil|Hnone]; [congruence|].
    change (query.user (store w1)) with (query.user (store w)).
    rewrite Hnone. reflexivity.
Qed.

End RowByRow.

Section ForEachRow.
Context {D U typ val : Type}.
Variable convertAssign : nat -> typ -> sql.value -> val + errors.error.
Variable zero : typ -> val.
Implicit Types (w : World (query.session D U)) (r : rows.t) (p : query.rptr)
  (f : query.func U typ val) (row : list sql.value)
  (d : query.QueryerContext D) (qargs : list (query.arg U typ val)).

(** The function argument is the last one, the operands are the others. *)
Lemma ForQueryRows_args ctx (db : option (query.QueryerContext D)) q qargs
    (a : query.arg U typ val) :
  query.ForQueryRows convertAssign zero ctx db q (qargs ++ [a]) =
    match a return M (query.session D U) (option errors.error) with
    | query.aNil => fun _ => Panic
    | query.aValue _ => ret (fmt_Errorf "fn arg not a function")
    | query.aFunc f =>
        if (1 <? List.length (query.fn_out f))%nat then
          ret (fmt_Errorf "fn arg must return 0 values or 1")
        else if query.result_is_not_error f then
          ret (fmt_Errorf "fn arg return type must be error")
        else
          q <- query.queryContext db ctx q (map query.operand_of qargs) ;;
          match snd q with
          | Some err => ret (Some err)
          | None =>
              match fst q with
              | None => fun _ => Panic
              | Some p =>
                  query.deferring (query.rows_Close p)
                    (fuel <- query.enough p ;;
                     query.forRows convertAssign zero fuel p f)
              end
          end
    end.
Proof.
  unfold query.ForQueryRows.
  destruct (qargs ++ [a])%list eqn:E; [destruct qargs; discriminate|].
  rewrite <- E. cbv zeta. rewrite last_last, removelast_last. reflexivity.
Qed.

Lemma callable_passes f body :
  callable f body ->
  (1 <? List.length (query.fn_out f))%nat = false /\
  query.result_is_not_error f = false.
Proof.
  intros [_ [Ho|Ho]]; unfold query.result_is_not_error; rewrite Ho;
    split; reflexivity.
Qed.

(** With the query answered by a result set, what is left is the loop,
    and the closing of the cursor after it. *)
Lemma ForQueryRows_answered w d ctx q qargs f body c' rs fail :
  callable f body ->
  query.QueryContext d ctx q (map query.operand_of qargs)
                     (query.conn (store w)) =
    (c', (Some (query.mkResultset rs fail), None)) ->
  query.ForQueryRows convertAssign zero ctx (Some d) q
                     (qargs ++ [query.aFunc f]) w =
    query.deferring
      (query.rows_Close (List.length (query.cursors (store w))))
      (query.forRows convertAssign zero (S (List.length rs))
                     (List.length (query.cursors (store w))) f)
      (answered w ctx q (map query.operand_of qargs) c' rs fail).
Proof.
  intros Hf Hq. rewrite ForQueryRows_args.
  destruct (callable_passes _ _ Hf) as [-> ->].
  rewrite (bind_run _ _ _ _ _ (queryContext_run _ _ _ _ _ _ _ _ Hq)).
  cbn [fst snd query.rs_rows query.rs_failure].
  fold (answered w ctx q (map query.operand_of qargs) c' rs fail).
  pose proof (answered_cursor w ctx q (map query.operand_of qargs) c' rs fail)
    as Hc.
  unfold query.deferring.
  assert (He : query.enough (List.length (query.cursors (store w)))
                 (answered w ctx q (map query.operand_of qargs) c' rs fail) =
               Done (S (List.length rs))
                    (answered w ctx q (map query.operand_of qargs) c' rs fail)).
  { unfold query.enough. rewrite (with_cursor_run _ _ _ _ Hc).
    cbn [fst snd]. rewrite (put_cursor_same _ _ _ Hc). reflexivity. }
  unfold bind at 1. rewrite (bind_run _ _ _ _ _ He). reflexivity.
Qed.

Lemma forRows_at_end w p r f fuel :
  cursor_is w p r -> rows.closed r = false -> rows.feed r = [] ->
  query.forRows convertAssign zero (S fuel) p f w =
    Done (rows.failure r)
         (query.put_cursor p
            (rows.mk [] (rows.failure r) (rows.lastcols r) (rows.failure r) true)
            w).
Proof.
  intros H Hc Hf. cbn [query.forRows].
  rewrite (bind_run _ _ _ _ _ (rows_Next_run _ _ _ H)).
  rewrite (Next_end _ Hc Hf). cbn [fst snd].
  pose proof (cursor_is_put w p r
                (rows.mk [] (rows.failure r) (rows.lastcols r)
                         (rows.failure r) true) H) as H1.
  rewrite (rows_Err_run _ _ _ H1), (put_cursor_same _ _ _ H1). reflexivity.
Qed.

End ForEachRow.

Section ForQueryRowsProperties.
Context {D U typ val : Type}.
Variable convertAssign : nat -> typ -> sql.value -> val + errors.error.
Variable zero : typ -> val.
Implicit Types (w : World (query.session D U)) (r : rows.t) (p : query.rptr)
  (f : query.func U typ val) (row : list sql.value)
  (d : query.QueryerContext D) (qargs : list (query.arg U typ val)).

(** X18: [ForQueryRows] checks its last argument before it sends
    anything: with no argument at all, with a last argument that is not a
    function, with a function of two or more results, or of one result
    whose type is not an error type, it returns the matching error and the
    world is as it was (no query sent, no callback called); a nil last
    argument makes it panic. *)
Theorem ForQueryRows_checks_before_querying
    w ctx (db : option (query.QueryerContext D)) q qargs :
  query.ForQueryRows convertAssign zero ctx db q [] w =
    Done (fmt_Errorf "too few arguments") w /\
  (forall v,
     query.ForQueryRows convertAssign zero ctx db q
       (qargs ++ [query.aValue v]) w =
       Done (fmt_Errorf "fn arg not a function") w) /\
  (forall f,
     (2 <= List.length (query.fn_out f))%nat ->
     query.ForQueryRows convertAssign zero ctx db q
       (qargs ++ [query.aFunc f]) w =
       Done (fmt_Errorf "fn arg must return 0 values or 1") w) /\
  (forall f,
     query.fn_out f = [query.NotError] ->
     query.ForQueryRows convertAssign zero ctx db q
       (qargs ++ [query.aFunc f]) w =
       Done (fmt_Errorf "fn arg return type must be error") w) /\
  query.ForQueryRows convertAssign zero ctx db q (qargs ++ [query.aNil]) w =
    Panic.
Proof.
  split; [reflexivity|]. split; [|split; [|split]].
  - intros v. rewrite ForQueryRows_args. reflexivity.
  - intros f Hlen. rewrite ForQueryRows_args.
    replace (1 <? List.length (query.fn_out f))%nat with true
      by (symmetry; apply Nat.ltb_lt; lia).
    reflexivity.
  - intros f Hout. rewrite ForQueryRows_args.
    unfold query.result_is_not_error. rewrite Hout. reflexivity.
  - rewrite ForQueryRows_args. reflexivity.
Qed.

(** X19: when the query fails, [ForQueryRows] returns the query's error
    as it is, and the callback is not called. *)
Theorem ForQueryRows_query_failed w d ctx q qargs f body c' res e :
  callable f body ->
  query.QueryContext d ctx q (map query.operand_of qargs)
                     (query.conn (store w)) = (c', (res, Some e)) ->
  exists w',
    query.ForQueryRows convertAssign zero ctx (Some d) q
                       (qargs ++ [query.aFunc f]) w = Done (Some e) w' /\
    query.user (store w') = query.user (store w) /\
    query.asked (store w') =
      (query.asked (store w)
         ++ [query.mkQuery ctx q (map query.operand_of qargs)])%list.
Proof.
  intros Hf Hq. rewrite ForQueryRows_args.
  destruct (callable_passes _ _ Hf) as [-> ->].
  destruct res as [rs|];
    rewrite (bind_run _ _ _ _ _ (queryContext_run _ _ _ _ _ _ _ _ Hq));
    (eexists; split; [reflexivity|]; split; reflexivity).
Qed.

(** X20: when every row scans and the callback returns no error (or has
    no result), [ForQueryRows] sends one query with all arguments but the
    last, calls the callback once for each row of the result set, in
    order, closes the cursor, and returns the error with which the driver
    ended the result set, nil at its regular end. *)
Theorem ForQueryRows_visits_every_row
    w d ctx q qargs f body c' rs fail :
  callable f body ->
  query.QueryContext d ctx q (map query.operand_of qargs)
                     (query.conn (store w)) =
    (c', (Some (query.mkResultset rs fail), None)) ->
  quiet convertAssign zero f body (query.user (store w)) rs ->
  exists w' r',
    query.ForQueryRows convertAssign zero ctx (Some d) q
                       (qargs ++ [query.aFunc f]) w = Done fail w' /\
    query.user (store w') =
      delivered convertAssign zero f body (query.user (store w)) rs /\
    query.asked (store w') =
      (query.asked (store w)
         ++ [query.mkQuery ctx q (map query.operand_of qargs)])%list /\
    query.conn (store w') = c' /\
    cursor_is w' (List.length (query.cursors (store w))) r' /\
    rows.closed r' = true /\ rows.feed r' = [].
Proof.
  intros Hf Hq Hquiet.
  rewrite (ForQueryRows_answered convertAssign zero _ _ _ _ _ _ _ _ _ _ Hf Hq).
  pose proof (answered_cursor w ctx q (map query.operand_of qargs) c' rs fail)
    as Hc.
  destruct Hf as [Hbody Hout].
  destruct (forRows_quiet convertAssign zero f body _ Hbody Hout rs []
              _ _ (S (List.length rs)) Hc eq_refl
              (eq_sym (app_nil_r rs)) (Nat.le_succ_diag_r _) Hquiet)
    as (w1 & r1 & Hrun & Hc1 & Hopen & Hfeed & Hfail & Hu & Hconn & Hasked).
  replace (S (List.length rs) - List.length rs)%nat with 1%nat in Hrun by lia.
  rewrite (forRows_at_end convertAssign zero _ _ _ f 0 Hc1 Hopen Hfeed) in Hrun.
  set (r2 := rows.mk [] (rows.failure r1) (rows.lastcols r1) (rows.failure r1) true) in *.
  pose proof (cursor_is_put _ _ _ r2 Hc1) as Hc2.
  rewrite (deferring_run _ _ _ _ _ _ Hrun (rows_Close_run _ _ _ Hc2)).
  do 2 eexists. split; [rewrite Hfail; reflexivity|].
  split; [exact Hu|]. split; [exact Hasked|]. split; [exact Hconn|].
  split; [eapply cursor_is_put; exact Hc2|]. split; reflexivity.
Qed.

(** X21: the first error the callback returns ends the iteration:
    [ForQueryRows] returns that error, the callback has been called on
    the rows up to that one and on none after it, and the cursor is
    closed with the later rows undelivered. *)
Theorem ForQueryRows_stops_at_callback_error
    w d ctx q qargs f body c' pre row post fail e :
  query.fn_body f = Some body ->
  query.fn_out f = [query.ErrorNillable] ->
  query.QueryContext d ctx q (map query.operand_of qargs)
                     (query.conn (store w)) =
    (c', (Some (query.mkResultset (pre ++ row :: post) fail), None)) ->
  quiet convertAssign zero f body (query.user (store w)) pre ->
  snd (scan_row convertAssign zero f row) = None ->
  snd (body (fst (scan_row convertAssign zero f row))
            (delivered convertAssign zero f body (query.user (store w)) pre))
    = Some e ->
  exists w' r',
    query.ForQueryRows convertAssign zero ctx (Some d) q
                       (qargs ++ [query.aFunc f]) w = Done (Some e) w' /\
    query.user (store w') =
      fst (body (fst (scan_row convertAssign zero f row))
                (delivered convertAssign zero f body (query.user (store w))
                           pre)) /\
    cursor_is w' (List.length (query.cursors (store w))) r' /\
    rows.closed r' = true /\ rows.feed r' = post.
Proof.
  intros Hbody Hout Hq Hquiet Hscan Herr.
  assert (Hf : callable f body) by (split; auto).
  rewrite (ForQueryRows_answered convertAssign zero _ _ _ _ _ _ _ _ _ _ Hf Hq).
  pose proof (answered_cursor w ctx q (map query.operand_of qargs) c'
                (pre ++ row :: post) fail) as Hc.
  destruct (forRows_quiet convertAssign zero f body _ Hbody (or_intror Hout)
              pre (row :: post) _ _ (S (List.length (pre ++ row :: post)))
              Hc eq_refl eq_refl)
    as (w1 & r1 & Hrun & Hc1 & Hopen & Hfeed & Hfail & Hu & Hconn & Hasked).
  { rewrite length_app. lia. }
  { exact Hquiet. }
  replace (S (List.length (pre ++ row :: post)) - List.length pre)%nat
    with (S (S (List.length post))) in Hrun
    by (rewrite length_app; cbn [List.length]; lia).
  destruct (forRows_step convertAssign zero w1 _ r1 f row post
              (S (List.length post)) Hc1 Hopen Hfeed) as [Hc2 Hstep].
  rewrite Hstep, Hscan in Hrun.
  rewrite (bind_run _ _ _ _ _ (call_run _ _ _ _ Hbody)) in Hrun.
  rewrite Hout in Hrun.
  change (query.user (store (query.put_cursor _ _ w1)))
    with (query.user (store w1)) in Hrun.
  assert (Hu' : query.user (store w1) =
                delivered convertAssign zero f body (query.user (store w)) pre)
    by exact Hu.
  rewrite Hu', Herr in Hrun.
  set (r2 := rows.mk post (rows.failure r1) (Some row) None false) in *.
  match type of Hrun with
  | _ = ret _ ?x => set (w2 := x) in *
  end.
  assert (Hc3 : cursor_is w2 (List.length (query.cursors (store w))) r2)
    by exact Hc2.
  rewrite (deferring_run _ _ _ _ _ _ Hrun (rows_Close_run _ _ _ Hc3)).
  do 2 eexists. split; [reflexivity|].
  split; [reflexivity|].
  split; [eapply cursor_is_put; exact Hc3|]. split; reflexivity.
Qed.

(** X22: a row that does not scan ends the iteration: [ForQueryRows]
    returns the error of [Scan], the callback has been called on the rows
    before that one only, and the cursor is closed. *)
Theorem ForQueryRows_stops_at_scan_error
    w d ctx q qargs f body c' pre row post fail e :
  callable f body ->
  query.QueryContext d ctx q (map query.operand_of qargs)
                     (query.conn (store w)) =
    (c', (Some (query.mkResultset (pre ++ row :: post) fail), None)) ->
  quiet convertAssign zero f body (query.user (store w)) pre ->
  snd (scan_row convertAssign zero f row) = Some e ->
  exists w' r',
    query.ForQueryRows convertAssign zero ctx (Some d) q
                       (qargs ++ [query.aFunc f]) w = Done (Some e) w' /\
    query.user (store w') =
      delivered convertAssign zero f body (query.user (store w)) pre /\
    cursor_is w' (List.length (query.cursors (store w))) r' /\
    rows.closed r' = true.
Proof.
  intros Hf Hq Hquiet Hscan.
  rewrite (ForQueryRows_answered convertAssign zero _ _ _ _ _ _ _ _ _ _ Hf Hq).
  pose proof (answered_cursor w ctx q (map query.operand_of qargs) c'
                (pre ++ row :: post) fail) as Hc.
  destruct Hf as [Hbody Hout].
  destruct (forRows_quiet convertAssign zero f body _ Hbody Hout
              pre (row :: post) _ _ (S (List.length (pre ++ row :: post)))
              Hc eq_refl eq_refl)
    as (w1 & r1 & Hrun & Hc1 & Hopen & Hfeed & Hfail & Hu & Hconn & Hasked).
  { rewrite length_app. lia. }
  { exact Hquiet. }
  replace (S (List.length (pre ++ row :: post)) - List.length pre)%nat
    with (S (S (List.length post))) in Hrun
    by (rewrite length_app; cbn [List.length]; lia).
  destruct (forRows_step convertAssign zero w1 _ r1 f row post
              (S (List.length post)) Hc1 Hopen Hfeed) as [Hc2 Hstep].
  rewrite Hstep, Hscan in Hrun.
  rewrite (deferring_run _ _ _ _ _ _ Hrun (rows_Close_run _ _ _ Hc2)).
  do 2 eexists. split; [reflexivity|].
  split; [exact Hu|].
  split; [eapply cursor_is_put; exact Hc2|]. reflexivity.
Qed.

End ForQueryRowsProperties.

(** ** The query helpers on a leases table *)

Lemma QueryRow_Scan_verdict_witness :
  exists row w1 w2,
    query.QueryRowContext (U := list string) (typ := coltype)
      (val := sql.value) context.Background
      (Some (answering [lease_of "a" 5; lease_of "b" 7] None))
      "SELECT name, exp FROM leases" [] query_world = Done row w1 /\
    query.Row_Scan convert_same row name_and_exp w1 =
      Done ([rows.mkSlot TString (sql.VString "a");
             rows.mkSlot TTime (sql.VTime 5)],
            Some query.ErrMultipleRows) w2.
Proof.
  destruct (QueryRow_Scan_verdict convert_same query_world
              (answering [lease_of "a" 5; lease_of "b" 7] None)
              context.Background "SELECT name, exp FROM leases" [] tt
              [lease_of "a" 5; lease_of "b" 7] None name_and_exp eq_refl)
    as (row & w1 & out & w2 & r' & Hq & _ & _ & Hs & _ & _ & _ & Hrows).
  exists row, w1, w2. split; [exact Hq|].
  rewrite Hs. f_equal. exact (Hrows _ _ _ eq_refl eq_refl eq_refl).
Defined.

Lemma QueryRow_Scan_hides_driver_error_witness :
  exists row w1 w2,
    query.QueryRowContext (U := list string) (typ := coltype)
      (val := sql.value) context.Background
      (Some (answering [lease_of "a" 5]
                       (Some (errors.fundamental "connection lost"))))
      "SELECT name, exp FROM leases" [] query_world = Done row w1 /\
    query.Row_Err row = None /\
    query.Row_Scan convert_same row name_and_exp w1 =
      Done ([rows.mkSlot TString (sql.VString "a");
             rows.mkSlot TTime (sql.VTime 5)], None) w2.
Proof.
  destruct (QueryRow_Scan_hides_driver_error convert_same query_world
              (answering [lease_of "a" 5]
                         (Some (errors.fundamental "connection lost")))
              context.Background "SELECT name, exp FROM leases" [] tt
              [lease_of "a" 5] (errors.fundamental "connection lost")
              name_and_exp eq_refl)
    as (row & w1 & out & w2 & Hq & He & Hs & _ & Hrow).
  exists row, w1, w2. split; [exact Hq|]. split; [exact He|].
  rewrite Hs. f_equal. exact (Hrow _ _ eq_refl eq_refl eq_refl).
Defined.

Lemma QueryRow_Scan_error_first_witness :
  exists row w1 w2,
    query.QueryRowContext (U := list string) (typ := coltype)
      (val := sql.value) context.Background
      (Some (answering [[sql.VString "a"]; lease_of "b" 7] None))
      "SELECT name FROM leases" [] query_world = Done row w1 /\
    query.Row_Scan convert_same row name_and_exp w1 =
      Done (name_and_exp, Some (rows.errArity 1 2)) w2.
Proof.
  destruct (QueryRow_Scan_error_first convert_same query_world
              (answering [[sql.VString "a"]; lease_of "b" 7] None)
              context.Background "SELECT name FROM leases" [] tt
              [sql.VString "a"] [lease_of "b" 7] None name_and_exp eq_refl)
    as (row & w1 & out & w2 & r' & Hq & Hs & _ & _ & Harity & _).
  exists row, w1, w2. split; [exact Hq|].
  rewrite Hs. f_equal. apply Harity. discriminate.
Defined.

Lemma QueryRow_query_failed_witness :
  exists row w1,
    query.QueryRowContext (U := list string) (typ := coltype)
      (val := sql.value) context.Background
      (Some (refusing (errors.fundamental "connection refused")))
      "SELECT name, exp FROM leases" [] query_world = Done row w1 /\
    query.Row_Err row = Some (errors.fundamental "connection refused") /\
    query.Row_Scan convert_same row name_and_exp w1 =
      Done (name_and_exp, Some (errors.fundamental "connection refused")) w1.
Proof.
  destruct (QueryRow_query_failed convert_same query_world
              (refusing (errors.fundamental "connection refused"))
              context.Background "SELECT name, exp FROM leases" [] tt
              (Some (errors.fundamental "connection refused"))
              name_and_exp eq_refl)
    as (row & w1 & Hq & He & Hs & _).
  exists row, w1. split; [exact Hq|]. split; [exact He|]. exact Hs.
Defined.


Lemma ForQueryRows_checks_before_querying_witness :
  query.ForQueryRows convert_same zero_of context.Background
    (Some (answering [lease_of "a" 5] None))
    "SELECT name, exp FROM leases WHERE exp > $1"
    [query.aValue (sql.VTime 3);
     query.aFunc (query.mkFunc [TString; TTime]
                    [query.ErrorNillable; query.ErrorNillable]
                    (Some note_names_body))]
    query_world =
    Done (fmt_Errorf "fn arg must return 0 values or 1") query_world.
Proof.
  apply (proj1 (proj2 (proj2
           (ForQueryRows_checks_before_querying convert_same zero_of
              query_world context.Background
              (Some (answering [lease_of "a" 5] None))
              "SELECT name, exp FROM leases WHERE exp > $1"
              [query.aValue (sql.VTime 3)])))).
  cbn [List.length query.fn_out]. lia.
Defined.

Lemma ForQueryRows_query_failed_witness :
  exists w',
    query.ForQueryRows convert_same zero_of context.Background
      (Some (refusing (errors.fundamental "connection refused")))
      "SELECT name, exp FROM leases" [query.aFunc note_names] query_world =
      Done (Some (errors.fundamental "connection refused")) w' /\
    query.user (store w') = [].
Proof.
  destruct (ForQueryRows_query_failed convert_same zero_of query_world
              (refusing (errors.fundamental "connection refused"))
              context.Background "SELECT name, exp FROM leases" []
              note_names note_names_body tt None
              (errors.fundamental "connection refused")
              (conj eq_refl (or_intror eq_refl)) eq_refl)
    as (w' & Hrun & Hu & _).
  exists w'. split; [exact Hrun | exact Hu].
Defined.

Lemma ForQueryRows_visits_every_row_witness :
  exists w',
    query.ForQueryRows convert_same zero_of context.Background
      (Some (answering [lease_of "a" 5; lease_of "b" 7] None))
      "SELECT name, exp FROM leases" [query.aFunc note_names] query_world =
      Done None w' /\
    query.user (store w') = ["a"; "b"]%string.
Proof.
  destruct (ForQueryRows_visits_every_row convert_same zero_of query_world
              (answering [lease_of "a" 5; lease_of "b" 7] None)
              context.Background "SELECT name, exp FROM leases" []
              note_names note_names_body tt
              [lease_of "a" 5; lease_of "b" 7] None
              (conj eq_refl (or_intror eq_refl)) eq_refl
              (conj eq_refl (conj (or_intror eq_refl)
                 (conj eq_refl (conj (or_intror eq_refl) I)))))
    as (w' & r' & Hrun & Hu & _).
  exists w'. split; [exact Hrun | exact Hu].
Defined.

Lemma ForQueryRows_stops_at_callback_error_witness :
  exists w',
    query.ForQueryRows convert_same zero_of context.Background
      (Some (answering
               [lease_of "a" 5; lease_of "stop" 6; lease_of "b" 7] None))
      "SELECT name, exp FROM leases" [query.aFunc note_names] query_world =
      Done (Some (errors.fundamental "stopped")) w' /\
    query.user (store w') = ["a"]%string.
Proof.
  destruct (ForQueryRows_stops_at_callback_error convert_same zero_of
              query_world
              (answering
                 [lease_of "a" 5; lease_of "stop" 6; lease_of "b" 7] None)
              context.Background "SELECT name, exp FROM leases" []
              note_names note_names_body tt
              [lease_of "a" 5] (lease_of "stop" 6) [lease_of "b" 7] None
              (errors.fundamental "stopped")
              eq_refl eq_refl eq_refl
              (conj eq_refl (conj (or_intror eq_refl) I))
              eq_refl eq_refl)
    as (w' & r' & Hrun & Hu & _).
  exists w'. split; [exact Hrun | exact Hu].
Defined.

Lemma ForQueryRows_stops_at_scan_error_witness :
  exists w',
    query.ForQueryRows convert_same zero_of context.Background
      (Some (answering [lease_of "a" 5; [sql.VString "b"]] None))
      "SELECT name, exp FROM leases" [query.aFunc note_names] query_world =
      Done (Some (rows.errArity 1 2)) w' /\
    query.user (store w') = ["a"]%string.
Proof.
  destruct (ForQueryRows_stops_at_scan_error convert_same zero_of
              query_world
              (answering [lease_of "a" 5; [sql.VString "b"]] None)
              context.Background "SELECT name, exp FROM leases" []
              note_names note_names_body tt
              [lease_of "a" 5] [sql.VString "b"] [] None
              (rows.errArity 1 2)
              (conj eq_refl (or_intror eq_refl)) eq_refl
              (conj eq_refl (conj (or_intror eq_refl) I))
              eq_refl)
    as (w' & r' & Hrun & Hu & _).
  exists w'. split; [exact Hrun | exact Hu].
Defined.

(** ** The text of the statements *)

Section StatementTexts.
Context {St : Type}.
Implicit Types (w : World St) (v : Lessor.t St) (d : ExecerContext St).

Lemma sweepQ_text v :
  sweepQ v = ("DELETE FROM " ++ tableOf v ++ " WHERE " ++ expOf v ++ " < $1")%string.
Proof. reflexivity. Qed.

Lemma insertQ_text v :
  insertQ v =
    ("INSERT INTO " ++ tableOf v ++ " (" ++ nameOf v ++ ", " ++ expOf v
       ++ ", " ++ keyOf v ++ ") VALUES ($1, $2, $3)")%string.
Proof. reflexivity. Qed.

Lemma updateQ_text v :
  updateQ v =
    ("UPDATE " ++ tableOf v ++ " SET " ++ expOf v ++ " = $1 WHERE "
       ++ nameOf v ++ " = $2 AND " ++ keyOf v ++ " = $3 AND " ++ expOf v
       ++ " > $4")%string.
Proof. reflexivity. Qed.

Lemma deleteQ_text v :
  deleteQ v =
    ("DELETE FROM " ++ tableOf v ++ " WHERE " ++ nameOf v ++ " = $1 AND "
       ++ keyOf v ++ " = $2")%string.
Proof. reflexivity. Qed.

(** What the three operations send, in terms of the formatted statements. *)
Lemma operations_statements_sent
    w v d (h : Lease.t) (ctx : context.Context) (n : string) (e : time.Time) :
  nth_error (lessors w) (Lease.Lessor h) = Some v -> Lessor.db v = Some d ->
  let swept := mkCall ctx (sweepQ v) [sql.VTime (clock w)] in
  (exists r w',
     Acquire (Lease.Lessor h) ctx n e w = Done r w' /\
     (sent w' = (sent w ++ [swept])%list /\ fst r = None \/
      exists k,
        fst r = Some (Lease.mk (Lease.Lessor h) n e k) /\
        sent w' =
          (sent w
             ++ [swept; mkCall ctx (insertQ v) (insertArgs n e k)])%list)) /\
  (forall r w',
     Renew h ctx e w = Done r w' ->
     sent w' =
       (sent w
          ++ [mkCall ctx (updateQ v) (updateArgs h e (clock w))])%list) /\
  (exists r w',
     Release h ctx w = Done r w' /\
     sent w' =
       (sent w ++ [mkCall ctx (deleteQ v) (deleteArgs h)])%list).
Proof.
  intros Hv Hd swept.
  split; [|split].
  - rewrite (Acquire_run _ _ _ _ _ _ _ Hv Hd). cbv zeta.
    destruct (snd (snd (ExecContext d ctx (sweepQ v) [sql.VTime (clock w)]
                                    (store w)))) as [err|].
    + do 2 eexists. split; [reflexivity|]. left. split; reflexivity.
    + destruct (snd (entropy w (drawn w))) as [err|].
      * do 2 eexists. split; [reflexivity|]. left. split; reflexivity.
      * do 2 eexists. split; [reflexivity|]. right.
        exists (next_key w). split; [reflexivity|].
        cbn [sent record_call consume_entropy].
        rewrite <- app_assoc. reflexivity.
  - intros r w'. rewrite (Renew_run _ _ _ _ _ _ Hv Hd). cbv zeta.
    destruct (snd (snd (ExecContext d ctx (updateQ v)
                          (updateArgs h e (clock w)) (store w)))) as [err|].
    + intros Hrun. injection Hrun as _ <-. reflexivity.
    + destruct (fst (snd (ExecContext d ctx (updateQ v)
                            (updateArgs h e (clock w)) (store w))))
        as [res|]; [|discriminate].
      destruct (sql.RowsAffected res) as [aff [err|]].
      * intros Hrun. injection Hrun as _ <-. reflexivity.
      * destruct (aff =? 0); intros Hrun; injection Hrun as _ <-;
          reflexivity.
  - rewrite (Release_run _ _ _ _ _ Hv Hd). cbv zeta.
    do 2 eexists. split; reflexivity.
Qed.

(** X23: against every capability, the statements of the three
    operations are spelled with the Lessor's table and column names, each
    one replaced by its default when empty and spliced in as it is; the
    arguments are the current time for the sweep, name, expiry and key
    for the insertion, new expiry, name, key and current time for the
    update, and name and key for the deletion. *)
Theorem operations_spell_the_statements
    w (l : ptr) v d (h : Lease.t) (ctx : context.Context) (n : string)
    (e : time.Time) :
  nth_error (lessors w) l = Some v -> Lessor.db v = Some d ->
  Lease.Lessor h = l ->
  let T := if (Lessor.Table v =? "")%string then "leases"%string
           else Lessor.Table v in
  let N := if (Lessor.Name v =? "")%string then "name"%string
           else Lessor.Name v in
  let E := if (Lessor.Exp v =? "")%string then "exp"%string
           else Lessor.Exp v in
  let K := if (Lessor.Key v =? "")%string then "key"%string
           else Lessor.Key v in
  let swept :=
    mkCall ctx ("DELETE FROM " ++ T ++ " WHERE " ++ E ++ " < $1")%string
           [sql.VTime (clock w)] in
  (exists r w',
     Acquire l ctx n e w = Done r w' /\
     (sent w' = (sent w ++ [swept])%list /\ fst r = None \/
      exists k,
        fst r = Some (Lease.mk l n e k) /\
        sent w' =
          (sent w
             ++ [swept;
                 mkCall ctx
                   ("INSERT INTO " ++ T ++ " (" ++ N ++ ", " ++ E ++ ", "
                      ++ K ++ ") VALUES ($1, $2, $3)")%string
                   [sql.VString n; sql.VTime e; sql.VString k]])%list)) /\
  (forall r w',
     Renew h ctx e w = Done r w' ->
     sent w' =
       (sent w
          ++ [mkCall ctx
                ("UPDATE " ++ T ++ " SET " ++ E ++ " = $1 WHERE " ++ N
                   ++ " = $2 AND " ++ K ++ " = $3 AND " ++ E ++ " > $4")%string
                [sql.VTime e; sql.VString (Lease.Name h);
                 sql.VString (Lease.Key h); sql.VTime (clock w)]])%list) /\
  (exists r w',
     Release h ctx w = Done r w' /\
     sent w' =
       (sent w
          ++ [mkCall ctx
                ("DELETE FROM " ++ T ++ " WHERE " ++ N ++ " = $1 AND " ++ K
                   ++ " = $2")%string
                [sql.VString (Lease.Name h); sql.VString (Lease.Key h)]])%list).
Proof.
  intros Hv Hd Hl T N E K swept. subst l.
  exact (operations_statements_sent w v d h ctx n e Hv Hd).
Qed.

(** X24: [NewLessor] never fails and returns a Lessor that was not there
    before; the Lessors already there, the store, the clock and the
    history are as they were.  The new Lessor holds the capability and no
    name, so what is sent through it goes to the table leases with the
    columns name, exp and key. *)
Theorem NewLessor_adds_a_default_Lessor w d :
  exists l w0,
    NewLessor (Some d) w = Done l w0 /\
    nth_error (lessors w) l = None /\
    nth_error (lessors w0) l = Some (Lessor.mk (Some d) "" "" "" "") /\
    (forall p v, nth_error (lessors w) p = Some v ->
                 nth_error (lessors w0) p = Some v) /\
    store w0 = store w /\ clock w0 = clock w /\ sent w0 = sent w /\
    drawn w0 = drawn w /\
    forall (h : Lease.t) (ctx : context.Context) (n : string)
           (e : time.Time),
      Lease.Lessor h = l ->
      (exists r w', Release h ctx w0 = Done r w' /\
         map call_query (skipn (List.length (sent w)) (sent w')) =
           ["DELETE FROM leases WHERE name = $1 AND key = $2"%string]) /\
      (forall r w', Renew h ctx e w0 = Done r w' ->
         map call_query (skipn (List.length (sent w)) (sent w')) =
           ["UPDATE leases SET exp = $1 WHERE name = $2 AND key = $3 AND exp > $4"%string]) /\
      (exists r w', Acquire l ctx n e w0 = Done r w' /\
         hd_error (map call_query (skipn (List.length (sent w)) (sent w'))) =
           Some "DELETE FROM leases WHERE exp < $1"%string /\
         forall q, In q (tl (map call_query
                               (skipn (List.length (sent w)) (sent w')))) ->
           q = "INSERT INTO leases (name, exp, key) VALUES ($1, $2, $3)"%string).
Proof.
  set (v := Lessor.mk (Some d) "" "" "" "").
  assert (Hnew : nth_error (lessors w ++ [v]) (List.length (lessors w)) =
                 Some v).
  { rewrite nth_error_app2 by lia. rewrite Nat.sub_diag. reflexivity. }
  do 2 eexists. split; [reflexivity|].
  cbn [lessors store clock sent drawn].
  split; [apply nth_error_None; lia|].
  split; [exact Hnew|].
  split.
  { intros p v' Hp. rewrite nth_error_app1; [exact Hp|].
    apply nth_error_Some. congruence. }
  do 4 (split; [reflexivity|]).
  intros h ctx n e Hl.
  set (w0 := mkWorld _ _ _ _ _ _).
  assert (Hv : nth_error (lessors w0) (Lease.Lessor h) = Some v)
    by (rewrite Hl; exact Hnew).
  assert (Hskip : forall (cs : list (Call)),
             skipn (List.length (sent w)) (sent w ++ cs) = cs).
  { intros cs. rewrite skipn_app, Nat.sub_diag, skipn_all. reflexivity. }
  destruct (operations_statements_sent w0 v d h ctx n e Hv eq_refl)
    as (Ha & Hr & Hd).
  split; [|split].
  - destruct Hd as (r & w' & Hrun & Hs). exists r, w'.
    split; [exact Hrun|]. rewrite Hs. cbn [sent w0]. rewrite Hskip.
    reflexivity.
  - intros r w' Hrun. rewrite (Hr r w' Hrun). cbn [sent w0].
    rewrite Hskip. reflexivity.
  - rewrite <- Hl. destruct Ha as (r & w' & Hrun & [[Hs _]|(k & _ & Hs)]);
      exists r, w'; (split; [exact Hrun|]); rewrite Hs; cbn [sent w0];
      rewrite Hskip; (split; [reflexivity|]); cbn [map tl In];
      intros q Hq.
    + destruct Hq.
    + destruct Hq as [<-|[]]. reflexivity.
Qed.

End StatementTexts.

(** X23 at a Lessor that names its table and its expiry column. *)
Lemma operations_spell_the_statements_witness :
  exists w',
    Renew (Lease.mk 0%nat "job-1" 20 "K") context.Background 30
          (mkWorld [Lessor.mk (Some (reporting 1)) "locks" "" "until" ""]
                   tt 10 no_entropy_error 0 []) = Done None w' /\
    sent w' =
      [mkCall context.Background
         "UPDATE locks SET until = $1 WHERE name = $2 AND key = $3 AND until > $4"
         [sql.VTime 30; sql.VString "job-1"; sql.VString "K"; sql.VTime 10]].
Proof.
  destruct (Renew (Lease.mk 0%nat "job-1" 20 "K") context.Background 30
              (mkWorld [Lessor.mk (Some (reporting 1)) "locks" "" "until" ""]
                       tt 10 no_entropy_error 0 []))
    as [|[err|] w'] eqn:Hrun; try (vm_compute in Hrun; discriminate Hrun).
  exists w'. split; [reflexivity|].
  exact (proj1 (proj2
           (operations_spell_the_statements
              (mkWorld [Lessor.mk (Some (reporting 1)) "locks" "" "until" ""]
                       tt 10 no_entropy_error 0 [])
              0%nat (Lessor.mk (Some (reporting 1)) "locks" "" "until" "")
              (reporting 1) (Lease.mk 0%nat "job-1" 20 "K")
              context.Background "job-1" 30 eq_refl eq_refl eq_refl))
           None w' Hrun).
Defined.
